(** * CampusHub: the in-memory store and the push channel

    A shallow embedding of [server/storage.ts] (class [MemStorage]) and of
    the WebSocket and group-messaging handlers of the routes file, with the
    properties of the group chat, the session registry, the typing tracker
    and the reminder sweep stated over it.

    Modelling conventions.
    - A JS [Map<string, V>] that is only read and written by key is a
      [gmap string V]; the [notifications] map, whose keys are always fresh
      UUIDs and which is read in insertion order, is the list of its values
      in insertion order.
    - A JS [Set<string>] is a [gset string]; a JS array is a [list].
    - Where the source iterates over a [Map] or a [Set] (the reminder sweep,
      the close handler, the typing list of a frame) the entries are
      visited in the order of [map_to_list] and [elements], not in
      insertion order; no property stated below depends on that order.
    - JS numbers that count things are [Z]; a time stamp (an ISO string in
      the source, compared through [new Date(..).getTime()]) is the [Z]
      number of milliseconds it denotes, and the clock is an explicit
      argument [now].
    - [randomUUID()] draws from a counter kept in the store.
    - Objects are mutated in place in the source and then written back
      with [set]; here the updated record is inserted under the same key.
      A callback that holds on to such an object sees it as the store has
      it when the callback runs.
    - A plain JS object used as a map ([reactions], [memberRoles]) is the
      [gmap] of its own properties; [reactions], which is indexed by a
      string the client chooses, is read through [Object.prototype] as
      the source does.
    - A call that throws is an [Outcome] other than a returned value; a
      route answers 500 to it.
    - A [string] is a text; what depends on its number of UTF-16 code
      units is stated over a parameter for that count.
    - Record fields that none of the modelled operations reads (avatars,
      descriptions, file attachments, e-mail addresses, ...) are left out. *)

From stdpp Require Import base option numbers list gmap sets strings pretty
  sorting.
From Stdlib Require Import ZArith QArith.Qcanon Lia.

#[global] Close Scope Qc_scope.
#[global] Close Scope Q_scope.

(** ** Arrays: [indexOf], [splice(i, 1)], [push] *)

Fixpoint indexOf (x : string) (l : list string) : option nat :=
  match l with
  | [] => None
  | y :: l' => if decide (y = x) then Some 0%nat else S <$> indexOf x l'
  end.

(** [l.includes(x)] *)
Definition includes (x : string) (l : list string) : bool :=
  bool_decide (x ∈ l).

(** [l.push(x)] *)
Definition push {A} (l : list A) (x : A) : list A := l ++ [x].

(** [l.splice(i, 1)] *)
Definition splice1 {A} (i : nat) (l : list A) : list A := delete i l.

(** [l.filter(id => id !== x)] *)
Definition without (x : string) (l : list string) : list string :=
  filter (λ y, y ≠ x) l.

(** ** Data model (shared/schema) *)

Inductive GroupRole := Creator | Admin | Moderator | Member.

(** The role argument of [setMemberRole]: ["admin" | "moderator" | "member"]. *)
Inductive AssignableRole := AsAdmin | AsModerator | AsMember.

Definition role_of (r : AssignableRole) : GroupRole :=
  match r with AsAdmin => Admin | AsModerator => Moderator | AsMember => Member end.

Inductive UserRole := Student | PlatformAdmin.

Inductive ReminderType := R24h | R1h.

Inductive NotificationType :=
  NAnnouncement | NEvent | NGroup | NMessage | NSystem | NReminder.

#[global] Instance GroupRole_eq_dec : EqDecision GroupRole.
Proof. solve_decision. Defined.
#[global] Instance UserRole_eq_dec : EqDecision UserRole.
Proof. solve_decision. Defined.
#[global] Instance ReminderType_eq_dec : EqDecision ReminderType.
Proof. solve_decision. Defined.
#[global] Instance NotificationType_eq_dec : EqDecision NotificationType.
Proof. solve_decision. Defined.

Record NotificationPreferences := mkPrefs {
  eventRegistration : bool;
  eventReminders24h : bool;
  eventReminders1h : bool
}.

Record User := mkUser {
  user_id : string;
  user_fullName : string;
  user_role : UserRole;
  user_joinedGroups : list string;
  notificationPreferences : NotificationPreferences
}.

Record Group := mkGroup {
  group_id : string;
  group_name : string;
  memberCount : Z;
  members : list string;
  memberRoles : gmap string GroupRole;
  createdBy : option string;
  postsCount : Z;
  messagesCount : Z;
  pinnedMessages : list string;
  lastActivityAt : option Z
}.

Record Message := mkMessage {
  msg_id : string;
  msg_groupId : string;
  msg_authorId : string;
  msg_authorName : string;
  msg_content : string;
  msg_createdAt : Z;
  msg_editedAt : option Z;
  likes : Z;
  likedBy : list string;
  reactions : gmap string (list string);
  isPinned : bool
}.

Record Event := mkEvent {
  event_id : string;
  event_title : string;
  event_date : Z;
  event_location : string;
  maxParticipants : option Z;
  currentParticipants : Z;
  cancelled : bool
}.

Record Notification := mkNotification {
  notif_id : string;
  notif_userId : string;
  notif_title : string;
  notif_message : string;
  notif_type : NotificationType;
  notif_read : bool;
  notif_createdAt : Z;
  notif_link : option string;
  notif_eventId : option string;
  notif_reminderType : option ReminderType
}.

(** [InsertNotification]: a notification without [id], [createdAt], [read]. *)
Record InsertNotification := mkInsertNotification {
  in_userId : string;
  in_title : string;
  in_message : string;
  in_type : NotificationType;
  in_link : option string;
  in_eventId : option string;
  in_reminderType : option ReminderType
}.

(** [InsertMessage] after [insertMessageSchema] accepted it. *)
Record InsertMessage := mkInsertMessage {
  im_groupId : string;
  im_content : string
}.

(** ** The store *)

Record MemStorage := mkStorage {
  users : gmap string User;
  groups : gmap string Group;
  messages : gmap string Message;
  events : gmap string Event;
  notifications : list Notification;
  eventRegistrations : gmap string (gset string);
  sentReminders : gset string;
  uuids : N
}.

Definition emptyStorage : MemStorage :=
  mkStorage ∅ ∅ ∅ ∅ [] ∅ ∅ 0.

Definition set_users (f : gmap string User → gmap string User) (st : MemStorage) :=
  mkStorage (f (users st)) (groups st) (messages st) (events st)
    (notifications st) (eventRegistrations st) (sentReminders st) (uuids st).
Definition set_groups (f : gmap string Group → gmap string Group) (st : MemStorage) :=
  mkStorage (users st) (f (groups st)) (messages st) (events st)
    (notifications st) (eventRegistrations st) (sentReminders st) (uuids st).
Definition set_messages (f : gmap string Message → gmap string Message) (st : MemStorage) :=
  mkStorage (users st) (groups st) (f (messages st)) (events st)
    (notifications st) (eventRegistrations st) (sentReminders st) (uuids st).
Definition set_events (f : gmap string Event → gmap string Event) (st : MemStorage) :=
  mkStorage (users st) (groups st) (messages st) (f (events st))
    (notifications st) (eventRegistrations st) (sentReminders st) (uuids st).
Definition set_notifications (f : list Notification → list Notification) (st : MemStorage) :=
  mkStorage (users st) (groups st) (messages st) (events st)
    (f (notifications st)) (eventRegistrations st) (sentReminders st) (uuids st).
Definition set_eventRegistrations
    (f : gmap string (gset string) → gmap string (gset string)) (st : MemStorage) :=
  mkStorage (users st) (groups st) (messages st) (events st)
    (notifications st) (f (eventRegistrations st)) (sentReminders st) (uuids st).
Definition set_sentReminders (f : gset string → gset string) (st : MemStorage) :=
  mkStorage (users st) (groups st) (messages st) (events st)
    (notifications st) (eventRegistrations st) (f (sentReminders st)) (uuids st).

(** [randomUUID()]: the next unused identifier. *)
Definition randomUUID (st : MemStorage) : string * MemStorage :=
  ("uuid-" +:+ pretty (uuids st),
   mkStorage (users st) (groups st) (messages st) (events st)
     (notifications st) (eventRegistrations st) (sentReminders st)
     (N.succ (uuids st))).

(** ** Messages: like and react *)

Definition msg_set_likedBy (l : list string) (m : Message) : Message :=
  mkMessage (msg_id m) (msg_groupId m) (msg_authorId m) (msg_authorName m)
    (msg_content m) (msg_createdAt m) (msg_editedAt m)
    (likes m) l (reactions m) (isPinned m).

Definition msg_set_likes (n : Z) (m : Message) : Message :=
  mkMessage (msg_id m) (msg_groupId m) (msg_authorId m) (msg_authorName m)
    (msg_content m) (msg_createdAt m) (msg_editedAt m)
    n (likedBy m) (reactions m) (isPinned m).

Definition msg_set_reactions (r : gmap string (list string)) (m : Message) : Message :=
  mkMessage (msg_id m) (msg_groupId m) (msg_authorId m) (msg_authorName m)
    (msg_content m) (msg_createdAt m) (msg_editedAt m)
    (likes m) (likedBy m) r (isPinned m).

Definition msg_set_isPinned (b : bool) (m : Message) : Message :=
  mkMessage (msg_id m) (msg_groupId m) (msg_authorId m) (msg_authorName m)
    (msg_content m) (msg_createdAt m) (msg_editedAt m)
    (likes m) (likedBy m) (reactions m) b.

(** The like toggle on the message object. *)
Definition toggleLike (userId : string) (m : Message) : Message :=
  match indexOf userId (likedBy m) with
  | None =>
      let m := msg_set_likedBy (push (likedBy m) userId) m in
      msg_set_likes (Z.of_nat (length (likedBy m))) m
  | Some likedIndex =>
      let m := msg_set_likedBy (splice1 likedIndex (likedBy m)) m in
      msg_set_likes (Z.of_nat (length (likedBy m))) m
  end.

Definition likeMessage (messageId userId : string) (st : MemStorage)
    : option Message * MemStorage :=
  match messages st !! messageId with
  | None => (None, st)
  | Some message =>
      let message' := toggleLike userId message in
      (Some message', set_messages <[messageId := message']> st)
  end.

(** What a call does: it returns a value, or it throws (here always a
    [TypeError]). *)
Inductive Outcome (A : Type) :=
  | Returns (value : A)
  | Throws.
Arguments Returns {A} value.
Arguments Throws {A}.

(** [reactions] is a plain object ([reactions: {}] in [createMessage]),
    so [reactions[emoji]] also finds what the object inherits from
    [Object.prototype].  These are the names it inherits; each gives a
    function, and ["__proto__"] the prototype object itself: a truthy
    value that has no [indexOf]. *)
Definition objectPrototypeKeys : list string :=
  ["constructor"; "__defineGetter__"; "__defineSetter__"; "hasOwnProperty";
   "__lookupGetter__"; "__lookupSetter__"; "isPrototypeOf";
   "propertyIsEnumerable"; "toString"; "valueOf"; "__proto__";
   "toLocaleString"].

(** [emoji] is no own property of the object [r], and [r[emoji]] is
    inherited. *)
Definition inheritedKey (emoji : string) (r : gmap string (list string))
    : bool :=
  bool_decide (r !! emoji = None) && includes emoji objectPrototypeKeys.

(** The reaction toggle on the [reactions] object of a message.  For an
    inherited key [!reactions[emoji]] is false, so no array is stored, and
    [reactions[emoji].indexOf] is [undefined]: the call of it throws
    before anything is written. *)
Definition toggleReaction (emoji userId : string)
    (r : gmap string (list string)) : Outcome (gmap string (list string)) :=
  if inheritedKey emoji r then Throws
  else
    let r1 := match r !! emoji with None => <[emoji := []]> r | Some _ => r end in
    let us := default [] (r1 !! emoji) in
    match indexOf userId us with
    | None => Returns (<[emoji := push us userId]> r1)
    | Some userIndex =>
        let us' := splice1 userIndex us in
        if decide (length us' = 0%nat) then Returns (delete emoji r1)
        else Returns (<[emoji := us']> r1)
    end.

Definition addReaction (messageId emoji userId : string) (st : MemStorage)
    : Outcome (option Message) * MemStorage :=
  match messages st !! messageId with
  | None => (Returns None, st)
  | Some message =>
      match toggleReaction emoji userId (reactions message) with
      | Throws => (Throws, st)
      | Returns reactions' =>
          let message' := msg_set_reactions reactions' message in
          (Returns (Some message'), set_messages <[messageId := message']> st)
      end
  end.

(** ** Groups *)

(** [c || d] on numbers: [d] when [c] is [0]. *)
Definition or_num (c d : Z) : Z := if decide (c = 0%Z) then d else c.

(** The three writes of [joinGroup] and [leaveGroup] to the group object:
    [members], [memberCount = members.length] and [memberRoles]. *)
Definition group_set_membership (ms : list string)
    (rs : gmap string GroupRole) (g : Group) : Group :=
  mkGroup (group_id g) (group_name g) (Z.of_nat (length ms)) ms rs
    (createdBy g) (postsCount g) (messagesCount g) (pinnedMessages g)
    (lastActivityAt g).

Definition group_set_memberRoles (rs : gmap string GroupRole) (g : Group) : Group :=
  mkGroup (group_id g) (group_name g) (memberCount g) (members g) rs
    (createdBy g) (postsCount g) (messagesCount g) (pinnedMessages g)
    (lastActivityAt g).

Definition group_set_pinnedMessages (ps : list string) (g : Group) : Group :=
  mkGroup (group_id g) (group_name g) (memberCount g) (members g)
    (memberRoles g) (createdBy g) (postsCount g) (messagesCount g) ps
    (lastActivityAt g).

Definition group_set_messages (c : Z) (ps : list string) (act : option Z)
    (g : Group) : Group :=
  mkGroup (group_id g) (group_name g) (memberCount g) (members g)
    (memberRoles g) (createdBy g) (postsCount g) c ps act.

Definition user_set_joinedGroups (js : list string) (u : User) : User :=
  mkUser (user_id u) (user_fullName u) (user_role u) js
    (notificationPreferences u).

Definition getUser (id : string) (st : MemStorage) : option User := users st !! id.
Definition getGroup (id : string) (st : MemStorage) : option Group := groups st !! id.
Definition getMessage (id : string) (st : MemStorage) : option Message :=
  messages st !! id.
Definition getEvent (id : string) (st : MemStorage) : option Event := events st !! id.

Definition createGroup (name userId : string) (now : Z) (st : MemStorage)
    : Group * MemStorage :=
  let '(id, st) := randomUUID st in
  let newGroup :=
    mkGroup id name 1 [userId] {[ userId := Creator ]} (Some userId)
      0 0 [] (Some now) in
  let st := set_groups <[id := newGroup]> st in
  let st :=
    match getUser userId st with
    | Some user =>
        set_users
          <[userId := user_set_joinedGroups (push (user_joinedGroups user) id) user]> st
    | None => st
    end in
  (newGroup, st).

Definition joinGroup (groupId userId : string) (st : MemStorage)
    : option Group * MemStorage :=
  match groups st !! groupId with
  | None => (None, st)
  | Some group =>
      if includes userId (members group) then (Some group, st)
      else
        let group' :=
          group_set_membership (push (members group) userId)
            (<[userId := Member]> (memberRoles group)) group in
        let st := set_groups <[groupId := group']> st in
        let st :=
          match getUser userId st with
          | Some user =>
              if includes groupId (user_joinedGroups user) then st
              else
                set_users
                  <[userId :=
                      user_set_joinedGroups (push (user_joinedGroups user) groupId) user]>
                  st
          | None => st
          end in
        (Some group', st)
  end.

Definition leaveGroup (groupId userId : string) (st : MemStorage)
    : option Group * MemStorage :=
  match groups st !! groupId with
  | None => (None, st)
  | Some group =>
      let group' :=
        group_set_membership (without userId (members group))
          (delete userId (memberRoles group)) group in
      let st := set_groups <[groupId := group']> st in
      let st :=
        match getUser userId st with
        | Some user =>
            set_users
              <[userId :=
                  user_set_joinedGroups (without groupId (user_joinedGroups user)) user]>
              st
        | None => st
        end in
      (Some group', st)
  end.

Definition setMemberRole (groupId userId : string) (role : AssignableRole)
    (st : MemStorage) : option Group * MemStorage :=
  match groups st !! groupId with
  | None => (None, st)
  | Some group =>
      if includes userId (members group) then
        let group' :=
          group_set_memberRoles (<[userId := role_of role]> (memberRoles group)) group in
        (Some group', set_groups <[groupId := group']> st)
      else (Some group, st)
  end.

Definition getMemberRole (groupId userId : string) (st : MemStorage)
    : option GroupRole :=
  match groups st !! groupId with
  | None => None
  | Some group => memberRoles group !! userId
  end.

(** ** Messages: create, delete, pin, unpin *)

Definition createMessage (message : InsertMessage) (userId authorName : string)
    (now : Z) (st : MemStorage) : Message * MemStorage :=
  let '(id, st) := randomUUID st in
  let newMessage :=
    mkMessage id (im_groupId message) userId authorName (im_content message)
      now None 0 [] ∅ false in
  let st := set_messages <[id := newMessage]> st in
  let st :=
    match groups st !! im_groupId message with
    | Some group =>
        set_groups
          <[im_groupId message :=
              group_set_messages (or_num (messagesCount group) 0 + 1)
                (pinnedMessages group) (Some now) group]> st
    | None => st
    end in
  (newMessage, st).

Definition deleteMessage (messageId : string) (st : MemStorage)
    : bool * MemStorage :=
  match messages st !! messageId with
  | None => (false, st)
  | Some message =>
      let st := set_messages (delete messageId) st in
      let st :=
        match groups st !! msg_groupId message with
        | Some group =>
            set_groups
              <[msg_groupId message :=
                  group_set_messages
                    (Z.max 0 (or_num (messagesCount group) 1 - 1))
                    (without messageId (pinnedMessages group))
                    (lastActivityAt group) group]> st
        | None => st
        end in
      (true, st)
  end.

Definition pinMessage (messageId : string) (st : MemStorage)
    : option Message * MemStorage :=
  match messages st !! messageId with
  | None => (None, st)
  | Some message =>
      let message' := msg_set_isPinned true message in
      let st := set_messages <[messageId := message']> st in
      let st :=
        match groups st !! msg_groupId message' with
        | Some group =>
            if includes messageId (pinnedMessages group) then st
            else
              set_groups
                <[msg_groupId message' :=
                    group_set_pinnedMessages (push (pinnedMessages group) messageId) group]>
                st
        | None => st
        end in
      (Some message', st)
  end.

Definition unpinMessage (messageId : string) (st : MemStorage)
    : option Message * MemStorage :=
  match messages st !! messageId with
  | None => (None, st)
  | Some message =>
      let message' := msg_set_isPinned false message in
      let st := set_messages <[messageId := message']> st in
      let st :=
        match groups st !! msg_groupId message' with
        | Some group =>
            set_groups
              <[msg_groupId message' :=
                  group_set_pinnedMessages
                    (without messageId (pinnedMessages group)) group]> st
        | None => st
        end in
      (Some message', st)
  end.

(** ** Events: registration *)

Definition event_set_currentParticipants (c : Z) (e : Event) : Event :=
  mkEvent (event_id e) (event_title e) (event_date e) (event_location e)
    (maxParticipants e) c (cancelled e).

(** [event.maxParticipants && event.currentParticipants >= event.maxParticipants]:
    an absent and a zero [maxParticipants] are both falsy. *)
Definition isFull (e : Event) : bool :=
  match maxParticipants e with
  | None => false
  | Some m => if decide (m = 0%Z) then false
              else bool_decide (m ≤ currentParticipants e)%Z
  end.

Definition createEvent (title location : string) (date : Z)
    (maxP : option Z) (st : MemStorage) : Event * MemStorage :=
  let '(id, st) := randomUUID st in
  let newEvent := mkEvent id title date location maxP 0 false in
  (newEvent, set_events <[id := newEvent]> st).

Definition registerForEvent (eventId userId : string) (st : MemStorage)
    : option Event * MemStorage :=
  match events st !! eventId with
  | None => (None, st)
  | Some event =>
      if cancelled event then (None, st)
      else if isFull event then (None, st)
      else
        let st :=
          match eventRegistrations st !! eventId with
          | None => set_eventRegistrations <[eventId := ∅]> st
          | Some _ => st
          end in
        let registrations := default ∅ (eventRegistrations st !! eventId) in
        if decide (userId ∈ registrations) then (Some event, st)
        else
          let registrations' := {[ userId ]} ∪ registrations in
          let event' :=
            event_set_currentParticipants (Z.of_nat (size registrations')) event in
          (Some event',
           set_events <[eventId := event']>
             (set_eventRegistrations <[eventId := registrations']> st))
  end.

Definition unregisterFromEvent (eventId userId : string) (st : MemStorage)
    : option Event * MemStorage :=
  match events st !! eventId with
  | None => (None, st)
  | Some event =>
      match eventRegistrations st !! eventId with
      | Some registrations =>
          if decide (userId ∈ registrations) then
            let registrations' := registrations ∖ {[ userId ]} in
            let event' :=
              event_set_currentParticipants (Z.of_nat (size registrations')) event in
            (Some event',
             set_events <[eventId := event']>
               (set_eventRegistrations <[eventId := registrations']> st))
          else (Some event, st)
      | None => (Some event, st)
      end
  end.

(** ** Notifications *)

Definition createNotification (n : InsertNotification) (now : Z)
    (st : MemStorage) : Notification * MemStorage :=
  let '(id, st) := randomUUID st in
  let newNotification :=
    mkNotification id (in_userId n) (in_title n) (in_message n) (in_type n)
      false now (in_link n) (in_eventId n) (in_reminderType n) in
  (newNotification, set_notifications (λ ns, push ns newNotification) st).

(** [sort((a, b) => b.createdAt - a.createdAt)]: newest first; the sort of
    the source is stable, as is this insertion sort. *)
Fixpoint insertNewestFirst (n : Notification) (l : list Notification)
    : list Notification :=
  match l with
  | [] => [n]
  | m :: l' =>
      if decide (notif_createdAt m ≤ notif_createdAt n)%Z then n :: m :: l'
      else m :: insertNewestFirst n l'
  end.

Definition sortNewestFirst (l : list Notification) : list Notification :=
  foldr insertNewestFirst [] l.

Definition getNotifications (userId : string) (st : MemStorage)
    : list Notification :=
  sortNewestFirst
    (filter (λ n, notif_userId n = userId) (notifications st)).

(** ** The reminder sweep *)

Definition msPerHour : Z := 1000 * 60 * 60.

(** [hoursUntil = timeDiff / (1000 * 60 * 60)], as an exact rational.  The
    source divides in double precision; for a whole number of milliseconds
    the quotient is at least 2.7e-7 away from [23.9], [24.1], [0.9] and
    [1.1] unless it is equal to one of them, so the comparisons below agree
    with those of the source. *)
Definition hoursUntil (timeDiff : Z) : Qc :=
  (Qc_of_Z timeDiff / Qc_of_Z msPerHour)%Qc.

Definition tenths (n : Z) : Qc := (Qc_of_Z n / Qc_of_Z 10)%Qc.

(** [hoursUntil > 23.9 && hoursUntil < 24.1] *)
Definition in24hWindow (h : Qc) : bool :=
  bool_decide (tenths 239 < h)%Qc && bool_decide (h < tenths 241)%Qc.

(** [hoursUntil > 0.9 && hoursUntil < 1.1] *)
Definition in1hWindow (h : Qc) : bool :=
  bool_decide (tenths 9 < h)%Qc && bool_decide (h < tenths 11)%Qc.

Definition reminderTypeString (type : ReminderType) : string :=
  match type with R24h => "24h" | R1h => "1h" end.

(** [`${event.id}-${userId}-${type}`] *)
Definition reminderKey (eventId userId : string) (type : ReminderType) : string :=
  eventId +:+ "-" +:+ userId +:+ "-" +:+ reminderTypeString type.

(** Whether the character [-] occurs in a string. *)
Fixpoint containsDash (s : string) : bool :=
  match s with
  | EmptyString => false
  | String c s' => if decide (String c "" = "-") then true else containsDash s'
  end.

Definition reminderPreference (type : ReminderType)
    (p : NotificationPreferences) : bool :=
  match type with R24h => eventReminders24h p | R1h => eventReminders1h p end.

Definition reminderMessage (event : Event) (type : ReminderType) : string :=
  match type with
  | R24h => event_title event +:+ " starts in 24 hours at " +:+ event_location event
  | R1h => event_title event +:+ " starts in 1 hour at " +:+ event_location event
  end.

(** The body of [registrations.forEach] in [sendReminderNotifications]. *)
Definition remindUser (event : Event) (type : ReminderType) (now : Z)
    (st : MemStorage) (userId : string) : MemStorage :=
  let key := reminderKey (event_id event) userId type in
  if decide (key ∈ sentReminders st) then st
  else
    match users st !! userId with
    | None => st
    | Some user =>
        if negb (reminderPreference type (notificationPreferences user)) then st
        else
          let '(notificationId, st) := randomUUID st in
          let st :=
            set_notifications
              (λ ns, push ns
                 (mkNotification notificationId userId
                    ("Reminder: " +:+ event_title event)
                    (reminderMessage event type) NReminder false now
                    (Some ("/events/" +:+ event_id event))
                    (Some (event_id event)) (Some type))) st in
          set_sentReminders (λ s, {[ key ]} ∪ s) st
    end.

Definition sendReminderNotifications (event : Event) (type : ReminderType)
    (now : Z) (st : MemStorage) : MemStorage :=
  match eventRegistrations st !! event_id event with
  | None => st
  | Some registrations => foldl (remindUser event type now) st (elements registrations)
  end.

(** The body of the loop over [this.events.values()]. *)
Definition sweepEvent (now : Z) (st : MemStorage) (event : Event) : MemStorage :=
  let timeDiff := (event_date event - now)%Z in
  let h := hoursUntil timeDiff in
  let st := if in24hWindow h then sendReminderNotifications event R24h now st else st in
  if in1hWindow h then sendReminderNotifications event R1h now st else st.

(** One firing of the interval callback of [scheduleEventReminders]. *)
Definition reminderSweep (now : Z) (st : MemStorage) : MemStorage :=
  foldl (sweepEvent now) st (map_to_list (events st)).*2.

(** ** The push channel *)

(** A connection handle; two handles are the same object iff equal. *)
Definition WebSocket := nat.

(** The payload [verifyToken] returns. *)
Record Decoded := mkDecoded {
  decoded_id : string;
  decoded_role : string;
  decoded_fullName : string
}.

Inductive Frame :=
  | FNotifications (data : list Notification)
  | FNotification (data : Notification)
  | FMessageCreated (data : Message)
  | FTypingUpdate (groupId : string) (typing : list (string * string)).

Inductive Effect :=
  | Send (ws : WebSocket) (frame : Frame)
  | Close (ws : WebSocket) (code : Z) (reason : string).

Record TypingEntry := mkTypingEntry {
  typing_userName : string;
  typing_timeout : nat
}.

(** The module-level state of the routes file: the two global maps, the
    sockets whose [readyState] is [OPEN], and the pending timeouts. *)
Record Server := mkServer {
  userConnections : gmap string WebSocket;
  typingUsers : gmap string (gmap string TypingEntry);
  openSockets : gset WebSocket;
  timers : gset nat;
  nextTimer : nat
}.

Definition set_userConnections
    (f : gmap string WebSocket → gmap string WebSocket) (srv : Server) :=
  mkServer (f (userConnections srv)) (typingUsers srv) (openSockets srv)
    (timers srv) (nextTimer srv).

(** [ws.send(..)] guarded by [ws && ws.readyState === WebSocket.OPEN]. *)
Definition sendIfOpen (srv : Server) (userId : string) (frame : Frame)
    : list Effect :=
  match userConnections srv !! userId with
  | Some ws => if decide (ws ∈ openSockets srv) then [Send ws frame] else []
  | None => []
  end.

Definition broadcastNotification (srv : Server) (userId : string)
    (notification : Notification) : list Effect :=
  sendIfOpen srv userId (FNotification notification).

Definition broadcastToGroup (srv : Server) (message : Frame)
    (members : list string) : list Effect :=
  mbind (λ memberId, sendIfOpen srv memberId message) members.

Definition typingList (groupTyping : gmap string TypingEntry)
    : list (string * string) :=
  (λ '(id, u), (id, typing_userName u)) <$> map_to_list groupTyping.

Section Handshake.

(** [verifyToken] of the auth module checks a JWT signature; the
    handlers only depend on its result. *)
Variable verifyToken : string → option Decoded.

(** [url.searchParams.get("token")] is [null] or a string, and
    [!token] holds for [null] and for the empty string. *)
Definition tokenMissing (token : option string) : bool :=
  match token with
  | None => true
  | Some t => bool_decide (t = "")
  end.

(** [wss.on("connection", ..)] up to the first frame. *)
Definition onConnection (ws : WebSocket) (token : option string)
    (st : MemStorage) (srv : Server) : option Decoded * Server * list Effect :=
  if tokenMissing token then
    (None, srv, [Close ws 1008 "Authentication required"])
  else
    match verifyToken (default "" token) with
    | None => (None, srv, [Close ws 1008 "Invalid token"])
    | Some decoded =>
        let srv := set_userConnections <[decoded_id decoded := ws]> srv in
        let notifications := getNotifications (decoded_id decoded) st in
        (Some decoded, srv, [Send ws (FNotifications notifications)])
    end.

End Handshake.

(** The [typing_start] branch of [ws.on("message", ..)]. *)
Definition onTypingStart (decoded : Decoded) (groupId : string)
    (st : MemStorage) (srv : Server) : Server * list Effect :=
  match getGroup groupId st with
  | None => (srv, [])
  | Some group =>
      let groupTyping := default ∅ (typingUsers srv !! groupId) in
      let cleared :=
        match groupTyping !! decoded_id decoded with
        | Some entry => timers srv ∖ {[ typing_timeout entry ]}
        | None => timers srv
        end in
      let timeout := nextTimer srv in
      let groupTyping :=
        <[decoded_id decoded := mkTypingEntry (decoded_fullName decoded) timeout]>
          groupTyping in
      let srv :=
        mkServer (userConnections srv) (<[groupId := groupTyping]> (typingUsers srv))
          (openSockets srv) ({[ timeout ]} ∪ cleared) (S (nextTimer srv)) in
      (srv,
       broadcastToGroup srv (FTypingUpdate groupId (typingList groupTyping))
         (without (decoded_id decoded) (members group)))
  end.

(** The [typing_stop] branch of [ws.on("message", ..)]. *)
Definition onTypingStop (decoded : Decoded) (groupId : string)
    (st : MemStorage) (srv : Server) : Server * list Effect :=
  match getGroup groupId st with
  | None => (srv, [])
  | Some group =>
      match typingUsers srv !! groupId with
      | None => (srv, [])
      | Some groupTyping =>
          let '(groupTyping, pending) :=
            match groupTyping !! decoded_id decoded with
            | Some userData =>
                (delete (decoded_id decoded) groupTyping,
                 timers srv ∖ {[ typing_timeout userData ]})
            | None => (groupTyping, timers srv)
            end in
          let srv :=
            mkServer (userConnections srv) (<[groupId := groupTyping]> (typingUsers srv))
              (openSockets srv) pending (nextTimer srv) in
          (srv,
           broadcastToGroup srv (FTypingUpdate groupId (typingList groupTyping))
             (without (decoded_id decoded) (members group)))
      end
  end.

(** The loop body of the close handler, on one [groupTyping] map. *)
Definition dropTyping (userId : string) (groupTyping : gmap string TypingEntry)
    : gmap string TypingEntry :=
  match groupTyping !! userId with
  | Some _ => delete userId groupTyping
  | None => groupTyping
  end.

(** The timeouts the close handler passes to [clearTimeout]. *)
Definition typingTimeoutsOf (userId : string)
    (typing : gmap string (gmap string TypingEntry)) : gset nat :=
  map_fold
    (λ _ groupTyping acc,
       match groupTyping !! userId with
       | Some entry => {[ typing_timeout entry ]} ∪ acc
       | None => acc
       end) ∅ typing.

(** [ws.on("close", ..)]: the handler closes over [decoded] only and does
    not look at [ws]; the socket that raised the event is no longer open. *)
Definition onClose (ws : WebSocket) (decoded : Decoded) (srv : Server)
    : Server * list Effect :=
  (mkServer (delete (decoded_id decoded) (userConnections srv))
     (dropTyping (decoded_id decoded) <$> typingUsers srv)
     (openSockets srv ∖ {[ ws ]})
     (timers srv ∖ typingTimeoutsOf (decoded_id decoded) (typingUsers srv))
     (nextTimer srv),
   []).

(** [ws.on("error", ..)] *)
Definition onError (ws : WebSocket) (decoded : Decoded) (srv : Server)
    : Server * list Effect :=
  (set_userConnections (delete (decoded_id decoded)) srv, []).

(** ** POST /api/groups/:id/messages *)

(** [req.user], set by [authMiddleware]. *)
Record AuthUser := mkAuthUser {
  auth_id : string;
  auth_fullName : string;
  auth_role : UserRole
}.

Inductive Response :=
  | NotFound (message : string)
  | Forbidden (message : string)
  | BadRequest
  | Created (message : Message).

Definition status (r : Response) : nat :=
  match r with
  | NotFound _ => 404 | Forbidden _ => 403 | BadRequest => 400 | Created _ => 201
  end.

(** [insertMessageSchema.safeParse({ ...req.body, groupId: id })]: the
    body must carry a string [content]. *)
Definition parseInsertMessage (content : option string) (id : string)
    : option InsertMessage :=
  mkInsertMessage id <$> content.

Section MessagePost.

(** [s.length] and [s.substring(start, end)] of a JS string count UTF-16
    code units.  A [string] of this development holds a text without
    fixing how many code units each of its characters takes, so the two
    are parameters. *)
Variable jsLength : string → nat.
Variable jsSubstring : nat → nat → string → string.

Definition messagePreview (fullName content : string) : string :=
  fullName +:+ ": " +:+ jsSubstring 0 50 content
    +:+ (if decide (50 < jsLength content)%nat then "..." else "").

(** The body of the loop over [group.members] that follows the broadcast. *)
Definition notifyMember (srv : Server) (user : AuthUser) (group : Group)
    (id : string) (message : Message) (now : Z)
    (acc : MemStorage * list Effect) (memberId : string)
    : MemStorage * list Effect :=
  if decide (memberId ≠ auth_id user) then
    let '(notification, st) :=
      createNotification
        (mkInsertNotification memberId
           ("New message in " +:+ group_name group)
           (messagePreview (auth_fullName user) (msg_content message))
           NMessage (Some ("/groups/" +:+ id)) None None)
        now acc.1 in
    (st, acc.2 ++ broadcastNotification srv memberId notification)
  else acc.

Definition postGroupMessage (id : string) (user : AuthUser)
    (content : option string) (now : Z) (srv : Server) (st : MemStorage)
    : Response * MemStorage * list Effect :=
  match getGroup id st with
  | None => (NotFound "Group not found", st, [])
  | Some group =>
      if negb (includes (auth_id user) (members group)) then
        (Forbidden "You must be a member to send messages", st, [])
      else
        match parseInsertMessage content id with
        | None => (BadRequest, st, [])
        | Some data =>
            let '(message, st) :=
              createMessage data (auth_id user) (auth_fullName user) now st in
            let sent := broadcastToGroup srv (FMessageCreated message) (members group) in
            let '(st, sent) :=
              foldl (notifyMember srv user group id message now) (st, sent)
                (members group) in
            (Created message, st, sent)
        end
  end.

End MessagePost.

(** [length] and [substring] on texts of ASCII characters, which take one
    code unit each. *)
Definition asciiLength (s : string) : nat := String.length s.
Definition asciiSubstring (start end_ : nat) (s : string) : string :=
  String.substring start (end_ - start) s.

(** ** Sequences of operations *)

(** [n] consecutive [likeMessage] calls by one user on one message. *)
Fixpoint likeTimes (n : nat) (messageId userId : string) (st : MemStorage)
    : MemStorage :=
  match n with
  | 0 => st
  | S n => likeTimes n messageId userId (likeMessage messageId userId st).2
  end.

(** Pin, unpin and delete requests, in the order they reach the store. *)
Inductive PinOp :=
  | OpPin (messageId : string)
  | OpUnpin (messageId : string)
  | OpDelete (messageId : string).

Definition runPinOp (st : MemStorage) (op : PinOp) : MemStorage :=
  match op with
  | OpPin messageId => (pinMessage messageId st).2
  | OpUnpin messageId => (unpinMessage messageId st).2
  | OpDelete messageId => (deleteMessage messageId st).2
  end.

Definition runPinOps (ops : list PinOp) (st : MemStorage) : MemStorage :=
  foldl runPinOp st ops.

(** The [isPinned] flag of every stored message agrees with the pinned
    list of its group. *)
Definition pinsAgree (st : MemStorage) : Prop :=
  ∀ messageId m g,
    messages st !! messageId = Some m →
    groups st !! msg_groupId m = Some g →
    isPinned m = true ↔ messageId ∈ pinnedMessages g.

Definition pinsNoDup (st : MemStorage) : Prop :=
  ∀ groupId g, groups st !! groupId = Some g → NoDup (pinnedMessages g).

(** How often [x] occurs in an array. *)
Definition occurrences (x : string) (l : list string) : nat :=
  length (filter (λ y, y = x) l).

(** Register and unregister requests, in the order they reach the store. *)
Inductive RegOp :=
  | OpRegister (eventId userId : string)
  | OpUnregister (eventId userId : string).

Definition runRegOp (st : MemStorage) (op : RegOp) : MemStorage :=
  match op with
  | OpRegister eventId userId => (registerForEvent eventId userId st).2
  | OpUnregister eventId userId => (unregisterFromEvent eventId userId st).2
  end.

Definition runRegOps (ops : list RegOp) (st : MemStorage) : MemStorage :=
  foldl runRegOp st ops.

(** The registration set of an event; an event without an entry in
    [eventRegistrations] has no registrations. *)
Definition registrationsOf (eventId : string) (st : MemStorage) : gset string :=
  default ∅ (eventRegistrations st !! eventId).

(** [currentParticipants] of every stored event is the size of its
    registration set. *)
Definition participantsAgree (st : MemStorage) : Prop :=
  map_Forall
    (λ eventId event,
       currentParticipants event = Z.of_nat (size (registrationsOf eventId st)))
    (events st).

(** Membership requests, in the order they reach the store. *)
Inductive GroupOp :=
  | OpJoin (groupId userId : string)
  | OpLeave (groupId userId : string)
  | OpSetRole (groupId userId : string) (role : AssignableRole).

Definition runGroupOp (st : MemStorage) (op : GroupOp) : MemStorage :=
  match op with
  | OpJoin groupId userId => (joinGroup groupId userId st).2
  | OpLeave groupId userId => (leaveGroup groupId userId st).2
  | OpSetRole groupId userId role => (setMemberRole groupId userId role st).2
  end.

Definition runGroupOps (ops : list GroupOp) (st : MemStorage) : MemStorage :=
  foldl runGroupOp st ops.

(** No two members of the group have the role [creator]. *)
Definition atMostOneCreator (g : Group) : Prop :=
  ∀ a b,
    memberRoles g !! a = Some Creator →
    memberRoles g !! b = Some Creator → a = b.

Definition creatorsUnique (st : MemStorage) : Prop :=
  map_Forall (λ _ g, atMostOneCreator g) (groups st).

(** A reminder notification of the given kind for one (event, user) pair. *)
Definition isReminderFor (eventId userId : string) (type : ReminderType)
    (n : Notification) : Prop :=
  notif_type n = NReminder ∧ notif_eventId n = Some eventId ∧
  notif_userId n = userId ∧ notif_reminderType n = Some type.

#[global] Instance isReminderFor_dec eventId userId type n :
  Decision (isReminderFor eventId userId type n).
Proof. unfold isReminderFor. apply _. Defined.

Definition remindersFor (eventId userId : string) (type : ReminderType)
    (st : MemStorage) : list Notification :=
  filter (isReminderFor eventId userId type) (notifications st).

(** No other (event, registered user, type) triple of the store is
    mapped to the reminder key of the 24h reminder of this pair.  The key
    is a concatenation with ["-"]; identifiers drawn by [randomUUID] in
    the source have a fixed length, which rules a clash out. *)
Definition noKeyClash (st : MemStorage) (eventId userId : string) : Prop :=
  ∀ k event registrations userId' type,
    events st !! k = Some event →
    eventRegistrations st !! event_id event = Some registrations →
    userId' ∈ registrations →
    reminderKey (event_id event) userId' type = reminderKey eventId userId R24h →
    event_id event = eventId ∧ userId' = userId ∧ type = R24h.

(** ** Concrete scenarios *)

(** A group with two members, Xavier (its creator) and Yara. *)
Definition demoGroup : Group :=
  mkGroup "g" "Chess" 2 ["x"; "y"] {[ "x" := Creator; "y" := Member ]}
    (Some "x") 0 2 ["m1"] None.

Definition demoMessage1 : Message :=
  mkMessage "m1" "g" "x" "Xavier" "opening theory" 10 None 0 [] ∅ true.

Definition demoMessage2 : Message :=
  mkMessage "m2" "g" "y" "Yara" "endgames" 20 None 0 [] ∅ false.

Definition demoUser (id name : string) : User :=
  mkUser id name Student ["g"] (mkPrefs true true true).

(** An event that starts 24 hours after time [0], with one registration. *)
Definition demoEvent : Event :=
  mkEvent "e1" "Chess night" 86400000 "Hall B" (Some 30%Z) 1 false.

(** An event at capacity whose only participant is Yara. *)
Definition fullEvent : Event :=
  mkEvent "e2" "Simul" 86400000 "Hall C" (Some 1%Z) 1 false.

(** An event whose [maxParticipants] is [0]. *)
Definition zeroCapEvent : Event :=
  mkEvent "e3" "Open day" 86400000 "Lawn" (Some 0%Z) 0 false.

Definition demoStore : MemStorage :=
  mkStorage
    {[ "x" := demoUser "x" "Xavier"; "y" := demoUser "y" "Yara" ]}
    {[ "g" := demoGroup ]}
    {[ "m1" := demoMessage1; "m2" := demoMessage2 ]}
    {[ "e1" := demoEvent; "e2" := fullEvent; "e3" := zeroCapEvent ]}
    []
    {[ "e1" := {[ "y" ]}; "e2" := {[ "y" ]} ]}
    ∅ 0.

Definition userX : AuthUser := mkAuthUser "x" "Xavier" Student.
Definition decodedX : Decoded := mkDecoded "x" "student" "Xavier".
Definition decodedY : Decoded := mkDecoded "y" "student" "Yara".

(** Both members are connected, on sockets [1] and [2]. *)
Definition demoServer : Server :=
  mkServer {[ "x" := 1; "y" := 2 ]} ∅ {[ 1; 2 ]} ∅ 0.

(** A token check that accepts the two demo tokens. *)
Definition demoVerifyToken (token : string) : option Decoded :=
  if decide (token = "token-x") then Some decodedX
  else if decide (token = "token-y") then Some decodedY
  else None.

(** Xavier connects on socket [1], then again on socket [3]. *)
Definition replacedServer : Server :=
  (onConnection demoVerifyToken 3 (Some "token-x") demoStore
     (onConnection demoVerifyToken 1 (Some "token-x") demoStore
        (mkServer ∅ ∅ {[ 1; 3 ]} ∅ 0)).1.2).1.2.

(** Xavier has started typing in the group while Yara is connected. *)
Definition typingServer : Server :=
  (onTypingStart decodedX "g" demoStore demoServer).1.

(** ** Bookkeeping for the reminder sweep

    While the sweep runs over a store that started as [st0], the data it
    reads stays as in [st0], and the reminder of the pair under study is
    either not yet sent ([c] such notifications, key absent) or already
    sent ([c + 1] notifications, key present). *)

Definition sameData (st0 st : MemStorage) : Prop :=
  users st = users st0 ∧ events st = events st0 ∧
  eventRegistrations st = eventRegistrations st0.

Definition notYetSent (st0 : MemStorage) (eventId userId : string) (c : nat)
    (st : MemStorage) : Prop :=
  sameData st0 st ∧
  (reminderKey eventId userId R24h ∉ sentReminders st) ∧
  length (remindersFor eventId userId R24h st) = c.

Definition alreadySent (st0 : MemStorage) (eventId userId : string) (c : nat)
    (st : MemStorage) : Prop :=
  sameData st0 st ∧
  reminderKey eventId userId R24h ∈ sentReminders st ∧
  length (remindersFor eventId userId R24h st) = S c.

Definition inFlight (st0 : MemStorage) (eventId userId : string) (c : nat)
    (st : MemStorage) : Prop :=
  notYetSent st0 eventId userId c st ∨ alreadySent st0 eventId userId c st.

(** A call [remindUser event type now _ userId'] the sweep can make. *)
Definition reachableCall (st0 : MemStorage) (event : Event) (userId' : string)
    : Prop :=
  ∃ k registrations,
    events st0 !! k = Some event ∧
    eventRegistrations st0 !! event_id event = Some registrations ∧
    userId' ∈ registrations.

(** * Further operations of the store and of the routes *)

(** ** Arrays: [slice] and the stable [sort] *)

(** The relative index [slice] computes from an integer argument: a
    negative argument counts from the end, and both are clamped to the
    array. *)
Definition sliceIndex (i : Z) (len : nat) : nat :=
  if decide (i < 0)%Z then Z.to_nat (Z.max (Z.of_nat len + i) 0)
  else Nat.min (Z.to_nat i) len.

(** [l.slice(start, end)] *)
Definition slice {A} (start end_ : Z) (l : list A) : list A :=
  let k := sliceIndex start (length l) in
  let final := sliceIndex end_ (length l) in
  take (final - k) (drop k l).

(** [l.sort(cmp)], which is stable: [before x y] is [cmp(x, y) <= 0]. *)
Fixpoint insertSorted {A} (before : A → A → bool) (x : A) (l : list A)
    : list A :=
  match l with
  | [] => [x]
  | y :: l' => if before x y then x :: y :: l' else y :: insertSorted before x l'
  end.

Definition stableSort {A} (before : A → A → bool) (l : list A) : list A :=
  foldr (insertSorted before) [] l.

(** ** Messages: edit and read *)

Definition editMessage (messageId content : string) (now : Z) (st : MemStorage)
    : option Message * MemStorage :=
  match messages st !! messageId with
  | None => (None, st)
  | Some message =>
      let message' :=
        mkMessage (msg_id message) (msg_groupId message) (msg_authorId message)
          (msg_authorName message) content (msg_createdAt message) (Some now)
          (likes message) (likedBy message) (reactions message)
          (isPinned message) in
      (Some message', set_messages <[messageId := message']> st)
  end.

(** [(a, b) => a.createdAt - b.createdAt <= 0] *)
Definition olderFirst (a b : Message) : bool :=
  bool_decide (msg_createdAt a ≤ msg_createdAt b)%Z.

(** The messages of a group, oldest first: [allMessages] of [getMessages]. *)
Definition groupMessages (groupId : string) (st : MemStorage) : list Message :=
  stableSort olderFirst
    (filter (λ msg, msg_groupId msg = groupId) (map_to_list (messages st)).*2).

Record MessagePage := mkMessagePage {
  page_messages : list Message;
  page_total : Z;
  page_hasMore : bool
}.

Definition getMessages (groupId : string) (page limit : Z) (st : MemStorage)
    : MessagePage :=
  let allMessages := groupMessages groupId st in
  let total := Z.of_nat (length allMessages) in
  let start := Z.max 0 (total - page * limit) in
  let end_ := Z.max 0 (total - (page - 1) * limit) in
  mkMessagePage (slice start end_ allMessages) total (bool_decide (0 < start)%Z).

(** Pages [p], [p - 1], ..., [1] of a group, one after the other. *)
Fixpoint newestPages (groupId : string) (limit : Z) (st : MemStorage) (p : nat)
    : list Message :=
  match p with
  | 0 => []
  | S p' =>
      page_messages (getMessages groupId (Z.of_nat p) limit st)
        ++ newestPages groupId limit st p'
  end.

(** The stored messages of a group, as a part of the [messages] map. *)
Definition storedIn (groupId : string) (st : MemStorage)
    : gmap string Message :=
  filter (λ entry, msg_groupId entry.2 = groupId) (messages st).

(** The [messagesCount] of every group is the number of its stored
    messages, the [total] that [getMessages] reports. *)
Definition countsAgree (st : MemStorage) : Prop :=
  ∀ groupId g,
    groups st !! groupId = Some g →
    messagesCount g = page_total (getMessages groupId 1 1 st).

(** No identifier that [randomUUID] has yet to hand out names a message. *)
Definition uuidsUnused (st : MemStorage) : Prop :=
  ∀ n, (uuids st ≤ n)%N → messages st !! ("uuid-" +:+ pretty n) = None.

(** The calls of the message methods of the store, in the order they
    reach it. *)
Inductive MessageOp :=
  | MsgCreate (message : InsertMessage) (userId authorName : string) (now : Z)
  | MsgEdit (messageId content : string) (now : Z)
  | MsgDelete (messageId : string)
  | MsgLike (messageId userId : string)
  | MsgReact (messageId emoji userId : string)
  | MsgPin (messageId : string)
  | MsgUnpin (messageId : string).

Definition runMessageOp (st : MemStorage) (op : MessageOp) : MemStorage :=
  match op with
  | MsgCreate message userId authorName now =>
      (createMessage message userId authorName now st).2
  | MsgEdit messageId content now => (editMessage messageId content now st).2
  | MsgDelete messageId => (deleteMessage messageId st).2
  | MsgLike messageId userId => (likeMessage messageId userId st).2
  | MsgReact messageId emoji userId => (addReaction messageId emoji userId st).2
  | MsgPin messageId => (pinMessage messageId st).2
  | MsgUnpin messageId => (unpinMessage messageId st).2
  end.

Definition runMessageOps (ops : list MessageOp) (st : MemStorage) : MemStorage :=
  foldl runMessageOp st ops.

(** ** Groups: members and deletion *)

Definition getGroupMembers (groupId : string) (st : MemStorage) : list User :=
  match groups st !! groupId with
  | None => []
  | Some group => omap (λ memberId, users st !! memberId) (members group)
  end.

Definition deleteGroup (id : string) (st : MemStorage) : bool * MemStorage :=
  (bool_decide (is_Some (groups st !! id)), set_groups (delete id) st).

(** Every group of the store has a duplicate-free member array whose
    length is [memberCount], and role entries for members only. *)
Definition groupWellFormed (g : Group) : Prop :=
  NoDup (members g) ∧
  memberCount g = Z.of_nat (length (members g)) ∧
  ∀ userId, is_Some (memberRoles g !! userId) → userId ∈ members g.

Definition groupsWellFormed (st : MemStorage) : Prop :=
  map_Forall (λ _ g, groupWellFormed g) (groups st).

(** A stored user lists a group in [joinedGroups] exactly when the stored
    group lists the user in [members]. *)
Definition membershipAgrees (st : MemStorage) : Prop :=
  ∀ userId user groupId group,
    users st !! userId = Some user →
    groups st !! groupId = Some group →
    groupId ∈ user_joinedGroups user ↔ userId ∈ members group.

(** ** Events: capacity *)


(** ** Notifications: read flags *)

Definition notif_set_read (n : Notification) : Notification :=
  mkNotification (notif_id n) (notif_userId n) (notif_title n)
    (notif_message n) (notif_type n) true (notif_createdAt n) (notif_link n)
    (notif_eventId n) (notif_reminderType n).

(** The [notifications] map has one entry per id; the entry under [id], if
    any, is marked. *)
Definition markNotificationRead (id : string) (st : MemStorage) : MemStorage :=
  set_notifications
    (fmap (λ n, if decide (notif_id n = id) then notif_set_read n else n)) st.

Definition markAllNotificationsRead (userId : string) (st : MemStorage)
    : MemStorage :=
  set_notifications
    (fmap (λ n, if decide (notif_userId n = userId) then notif_set_read n else n))
    st.

(** [notifications.filter((n) => !n.read).length] of the dashboard route. *)
Definition unreadNotifications (userId : string) (st : MemStorage) : nat :=
  length (filter (λ n, notif_read n = false) (getNotifications userId st)).

(** ** The push channel: broadcast to all, typing expiry *)

Definition broadcastToAll (srv : Server) (message : Frame) : list Effect :=
  mbind
    (λ '(_, ws), if decide (ws ∈ openSockets srv) then [Send ws message] else [])
    (map_to_list (userConnections srv)).

(** The callback [onTypingStart] passes to [setTimeout], when it fires as
    pending timeout [timeout].  It closes over [decoded], [groupId] and
    the group object that [getGroup] returned at [typing_start].  That is
    the object the store holds and changes in place ([joinGroup] pushes to
    its [members], [leaveGroup] assigns them), so the callback sees it as
    it is when the timer fires: [live] is that object then, which is
    the group stored under [groupId] at that time unless [deleteGroup]
    has taken it out of the store. *)
Definition onTypingTimeout (decoded : Decoded) (groupId : string) (live : Group)
    (timeout : nat) (srv : Server) : Server * list Effect :=
  let groupTyping :=
    delete (decoded_id decoded) (default ∅ (typingUsers srv !! groupId)) in
  let srv :=
    mkServer (userConnections srv) (<[groupId := groupTyping]> (typingUsers srv))
      (openSockets srv) (timers srv ∖ {[ timeout ]}) (nextTimer srv) in
  (srv,
   broadcastToGroup srv (FTypingUpdate groupId (typingList groupTyping))
     (members live)).

(** ** The reminder sweep: what a pass may add *)

Definition inWindow (type : ReminderType) (h : Qc) : bool :=
  match type with R24h => in24hWindow h | R1h => in1hWindow h end.

(** A reminder that is due at time [now] in store [st]: an unread
    reminder for a user registered for an event of the store that is in
    the window of the reminder's type, who is stored, has the preference
    of that type on, and has not been sent this reminder. *)
Definition dueReminder (st : MemStorage) (now : Z) (n : Notification) : Prop :=
  notif_type n = NReminder ∧ notif_read n = false ∧ notif_createdAt n = now ∧
  ∃ k event type registrations user,
    events st !! k = Some event ∧
    notif_eventId n = Some (event_id event) ∧
    notif_reminderType n = Some type ∧
    inWindow type (hoursUntil (event_date event - now)) = true ∧
    eventRegistrations st !! event_id event = Some registrations ∧
    notif_userId n ∈ registrations ∧
    users st !! notif_userId n = Some user ∧
    reminderPreference type (notificationPreferences user) = true ∧
    reminderKey (event_id event) (notif_userId n) type ∉ sentReminders st.

(** What a sweep pass that started in [st0] has done when it is in [st]:
    it has appended due reminders and recorded keys, nothing else. *)
Definition sweepProgress (st0 : MemStorage) (now : Z) (st : MemStorage) : Prop :=
  users st = users st0 ∧ groups st = groups st0 ∧ messages st = messages st0 ∧
  events st = events st0 ∧ eventRegistrations st = eventRegistrations st0 ∧
  sentReminders st0 ⊆ sentReminders st ∧
  ∃ new, notifications st = notifications st0 ++ new ∧
         Forall (dueReminder st0 now) new.

(** The call [remindUser event type _ st userId] does nothing in [st]. *)
Definition settled (st : MemStorage) (event : Event) (type : ReminderType)
    (userId : string) : Prop :=
  reminderKey (event_id event) userId type ∈ sentReminders st ∨
  users st !! userId = None ∨
  ∃ user, users st !! userId = Some user ∧
          reminderPreference type (notificationPreferences user) = false.

(** Every reminder call of a pass at [now] over the events of [st0] does
    nothing in [st]. *)
Definition passSettled (st0 : MemStorage) (now : Z) (event : Event)
    (st : MemStorage) : Prop :=
  ∀ type registrations userId,
    inWindow type (hoursUntil (event_date event - now)) = true →
    eventRegistrations st0 !! event_id event = Some registrations →
    userId ∈ registrations →
    settled st event type userId.

(** ** The message, membership and registration routes *)

(** What a route answers: a JSON body with status 200, or a status and
    an error message. *)
Inductive Reply (A : Type) :=
  | Json (body : A)
  | Failure (status : nat) (message : string).
Arguments Json {A} body.
Arguments Failure {A} status message.

Definition replyStatus {A} (r : Reply A) : nat :=
  match r with Json _ => 200 | Failure status _ => status end.

(** The frames these routes broadcast. *)
Inductive RouteFrame :=
  | FMessageEdited (data : option Message)
  | FMessageDeleted (messageId groupId : string)
  | FMessageLiked (data : option Message)
  | FMessageReacted (data : option Message)
  | FMessagePinned (data : option Message)
  | FMessageUnpinned (data : option Message)
  | FMemberJoined (groupId : string) (user : User)
  | FMemberLeft (groupId userId : string)
  | FMemberRoleChanged (groupId memberId : string) (role : AssignableRole)
  | FEventRegistrationUpdate (data : Event).

(** [broadcastToGroup] and [broadcastToAll] for these frames: the socket
    of a user receives the frame if it is registered and open. *)
Definition socketIfOpen (srv : Server) (userId : string) : list WebSocket :=
  match userConnections srv !! userId with
  | Some ws => if decide (ws ∈ openSockets srv) then [ws] else []
  | None => []
  end.

Definition pushToGroup (srv : Server) (frame : RouteFrame)
    (members : list string) : list (WebSocket * RouteFrame) :=
  (λ ws, (ws, frame)) <$> mbind (socketIfOpen srv) members.

Definition pushToAll (srv : Server) (frame : RouteFrame)
    : list (WebSocket * RouteFrame) :=
  (λ ws, (ws, frame)) <$>
    mbind (λ '(_, ws), if decide (ws ∈ openSockets srv) then [ws] else [])
      (map_to_list (userConnections srv)).

(** [userRole === "creator" || userRole === "admin"] *)
Definition isGroupAdmin (userRole : option GroupRole) : bool :=
  bool_decide (userRole = Some Creator ∨ userRole = Some Admin).

(** [userRole === "creator" || userRole === "admin" || userRole === "moderator"] *)
Definition isGroupModerator (userRole : option GroupRole) : bool :=
  bool_decide (userRole = Some Creator ∨ userRole = Some Admin
               ∨ userRole = Some Moderator).

Definition isPlatformAdmin (user : AuthUser) : bool :=
  bool_decide (auth_role user = PlatformAdmin).

Section MessageRoutes.

(** [String.prototype.trim] *)
Variable trim : string → string.

(** PATCH /api/messages/:id; [content] is the body's [content] if it is
    a string. *)
Definition editMessageRoute (id : string) (user : AuthUser)
    (content : option string) (now : Z) (srv : Server) (st : MemStorage)
    : Reply (option Message) * MemStorage * list (WebSocket * RouteFrame) :=
  match content with
  | None => (Failure 400 "Message content is required", st, [])
  | Some content =>
      if decide (content = "" ∨ String.length (trim content) = 0) then
        (Failure 400 "Message content is required", st, [])
      else
        match getMessage id st with
        | None => (Failure 404 "Message not found", st, [])
        | Some message =>
            match getGroup (msg_groupId message) st with
            | None => (Failure 404 "Group not found", st, [])
            | Some group =>
                let isAuthor := bool_decide (msg_authorId message = auth_id user) in
                let userRole :=
                  getMemberRole (msg_groupId message) (auth_id user) st in
                if negb isAuthor && negb (isGroupAdmin userRole)
                   && negb (isPlatformAdmin user)
                then
                  (Failure 403 "You don't have permission to edit this message",
                   st, [])
                else
                  let '(updatedMessage, st) := editMessage id (trim content) now st in
                  (Json updatedMessage, st,
                   pushToGroup srv (FMessageEdited updatedMessage) (members group))
            end
        end
  end.

End MessageRoutes.

(** DELETE /api/messages/:id *)
Definition deleteMessageRoute (id : string) (user : AuthUser)
    (srv : Server) (st : MemStorage)
    : Reply string * MemStorage * list (WebSocket * RouteFrame) :=
  match getMessage id st with
  | None => (Failure 404 "Message not found", st, [])
  | Some message =>
      match getGroup (msg_groupId message) st with
      | None => (Failure 404 "Group not found", st, [])
      | Some group =>
          let isAuthor := bool_decide (msg_authorId message = auth_id user) in
          let userRole := getMemberRole (msg_groupId message) (auth_id user) st in
          if negb isAuthor && negb (isGroupModerator userRole)
             && negb (isPlatformAdmin user)
          then
            (Failure 403 "You don't have permission to delete this message", st, [])
          else
            let st := (deleteMessage id st).2 in
            (Json "Message deleted successfully", st,
             pushToGroup srv (FMessageDeleted id (msg_groupId message))
               (members group))
      end
  end.

(** POST /api/messages/:id/like *)
Definition likeMessageRoute (id : string) (user : AuthUser)
    (srv : Server) (st : MemStorage)
    : Reply (option Message) * MemStorage * list (WebSocket * RouteFrame) :=
  match getMessage id st with
  | None => (Failure 404 "Message not found", st, [])
  | Some message =>
      match getGroup (msg_groupId message) st with
      | None => (Failure 404 "Group not found", st, [])
      | Some group =>
          if negb (includes (auth_id user) (members group)) then
            (Failure 403 "You must be a member to like messages", st, [])
          else
            let '(updatedMessage, st) := likeMessage id (auth_id user) st in
            (Json updatedMessage, st,
             pushToGroup srv (FMessageLiked updatedMessage) (members group))
      end
  end.

(** POST /api/messages/:id/react; [emoji] is the body's [emoji] if it is
    a string.  What [addReaction] throws is caught by the handler, which
    answers 500. *)
Definition reactMessageRoute (id : string) (user : AuthUser)
    (emoji : option string) (srv : Server) (st : MemStorage)
    : Reply (option Message) * MemStorage * list (WebSocket * RouteFrame) :=
  match emoji with
  | None => (Failure 400 "Emoji is required", st, [])
  | Some emoji =>
      if decide (emoji = "") then (Failure 400 "Emoji is required", st, [])
      else
        match getMessage id st with
        | None => (Failure 404 "Message not found", st, [])
        | Some message =>
            match getGroup (msg_groupId message) st with
            | None => (Failure 404 "Group not found", st, [])
            | Some group =>
                if negb (includes (auth_id user) (members group)) then
                  (Failure 403 "You must be a member to react to messages", st, [])
                else
                  match addReaction id emoji (auth_id user) st with
                  | (Throws, st) =>
                      (Failure 500 "Internal server error", st, [])
                  | (Returns updatedMessage, st) =>
                      (Json updatedMessage, st,
                       pushToGroup srv (FMessageReacted updatedMessage)
                         (members group))
                  end
            end
        end
  end.

(** POST /api/messages/:id/pin *)
Definition pinMessageRoute (id : string) (user : AuthUser)
    (srv : Server) (st : MemStorage)
    : Reply (option Message) * MemStorage * list (WebSocket * RouteFrame) :=
  match getMessage id st with
  | None => (Failure 404 "Message not found", st, [])
  | Some message =>
      match getGroup (msg_groupId message) st with
      | None => (Failure 404 "Group not found", st, [])
      | Some group =>
          let userRole := getMemberRole (msg_groupId message) (auth_id user) st in
          if negb (isGroupAdmin userRole) && negb (isPlatformAdmin user) then
            (Failure 403 "Only admins can pin messages", st, [])
          else
            let '(updatedMessage, st) := pinMessage id st in
            (Json updatedMessage, st,
             pushToGroup srv (FMessagePinned updatedMessage) (members group))
      end
  end.

(** DELETE /api/messages/:id/pin *)
Definition unpinMessageRoute (id : string) (user : AuthUser)
    (srv : Server) (st : MemStorage)
    : Reply (option Message) * MemStorage * list (WebSocket * RouteFrame) :=
  match getMessage id st with
  | None => (Failure 404 "Message not found", st, [])
  | Some message =>
      match getGroup (msg_groupId message) st with
      | None => (Failure 404 "Group not found", st, [])
      | Some group =>
          let userRole := getMemberRole (msg_groupId message) (auth_id user) st in
          if negb (isGroupAdmin userRole) && negb (isPlatformAdmin user) then
            (Failure 403 "Only admins can unpin messages", st, [])
          else
            let '(updatedMessage, st) := unpinMessage id st in
            (Json updatedMessage, st,
             pushToGroup srv (FMessageUnpinned updatedMessage) (members group))
      end
  end.

(** POST /api/groups/:id/join.  The group the store returns is the stored
    object after the change, so the broadcast goes to the members
    including the one who joined. *)
Definition joinGroupRoute (id : string) (user : AuthUser)
    (srv : Server) (st : MemStorage)
    : Reply (Group * User) * MemStorage * list (WebSocket * RouteFrame) :=
  match joinGroup id (auth_id user) st with
  | (None, st) => (Failure 404 "Group not found", st, [])
  | (Some group, st) =>
      match getUser (auth_id user) st with
      | None => (Failure 404 "User not found", st, [])
      | Some updatedUser =>
          (Json (group, updatedUser), st,
           pushToGroup srv (FMemberJoined id updatedUser) (members group))
      end
  end.

(** POST /api/groups/:id/leave *)
Definition leaveGroupRoute (id : string) (user : AuthUser)
    (srv : Server) (st : MemStorage)
    : Reply (Group * User) * MemStorage * list (WebSocket * RouteFrame) :=
  match leaveGroup id (auth_id user) st with
  | (None, st) => (Failure 404 "Group not found", st, [])
  | (Some group, st) =>
      match getUser (auth_id user) st with
      | None => (Failure 404 "User not found", st, [])
      | Some updatedUser =>
          (Json (group, updatedUser), st,
           pushToGroup srv (FMemberLeft id (auth_id user)) (members group))
      end
  end.

(** PATCH /api/groups/:id/members/:memberId/role; [role] is the body's
    [role] if it is one of ["admin"], ["moderator"], ["member"].  The
    [group] whose members receive the frame is the stored object, which
    [setMemberRole] updates in place without touching [members]. *)
Definition setMemberRoleRoute (id memberId : string) (user : AuthUser)
    (role : option AssignableRole) (srv : Server) (st : MemStorage)
    : Reply (option Group) * MemStorage * list (WebSocket * RouteFrame) :=
  match role with
  | None => (Failure 400 "Invalid role", st, [])
  | Some role =>
      match getGroup id st with
      | None => (Failure 404 "Group not found", st, [])
      | Some group =>
          let userRole := getMemberRole id (auth_id user) st in
          if negb (bool_decide (userRole = Some Creator))
             && negb (isPlatformAdmin user)
          then
            (Failure 403 "Only group creator can change member roles", st, [])
          else
            let '(updatedGroup, st) := setMemberRole id memberId role st in
            (Json updatedGroup, st,
             pushToGroup srv (FMemberRoleChanged id memberId role)
               (members group))
      end
  end.

Section EventRoutes.

(** [new Date(event.date).toLocaleDateString()] *)
Variable toLocaleDateString : Z → string.

(** POST /api/events/:id/register *)
Definition registerRoute (id : string) (user : AuthUser) (now : Z)
    (srv : Server) (st : MemStorage)
    : Reply Event * MemStorage * list Effect * list (WebSocket * RouteFrame) :=
  match registerForEvent id (auth_id user) st with
  | (None, st) => (Failure 400 "Cannot register for event", st, [], [])
  | (Some event, st) =>
      let '(st, sent) :=
        match getUser (auth_id user) st with
        | Some stored =>
            if eventRegistration (notificationPreferences stored) then
              let '(notification, st) :=
                createNotification
                  (mkInsertNotification (auth_id user) "Registration Confirmed"
                     ("You've successfully registered for " +:+ event_title event
                        +:+ " on " +:+ toLocaleDateString (event_date event))
                     NEvent (Some ("/events/" +:+ event_id event))
                     (Some (event_id event)) None)
                  now st in
              (st, broadcastNotification srv (auth_id user) notification)
            else (st, [])
        | None => (st, [])
        end in
      (Json event, st, sent, pushToAll srv (FEventRegistrationUpdate event))
  end.

(** POST /api/events/:id/unregister *)
Definition unregisterRoute (id : string) (user : AuthUser)
    (srv : Server) (st : MemStorage)
    : Reply Event * MemStorage * list (WebSocket * RouteFrame) :=
  match unregisterFromEvent id (auth_id user) st with
  | (None, st) => (Failure 404 "Event not found", st, [])
  | (Some event, st) =>
      (Json event, st, pushToAll srv (FEventRegistrationUpdate event))
  end.

End EventRoutes.

(** The confirmations of a registration held by a user for an event. *)
Definition confirmationsFor (eventId userId : string) (st : MemStorage)
    : list Notification :=
  filter
    (λ n, notif_type n = NEvent ∧ notif_userId n = userId ∧
          notif_eventId n = Some eventId)
    (notifications st).

(** ** Further concrete scenarios *)

(** A platform administrator who is in no group. *)
Definition adminZ : AuthUser := mkAuthUser "z" "Zed" PlatformAdmin.

(** A [trim] that finds nothing to strip, and a fixed date format. *)
Definition demoTrim (s : string) : string := s.
Definition demoDateString (date : Z) : string := "day " +:+ pretty date.

(** * Properties *)

(** ** Arrays *)

Lemma indexOf_None x l : indexOf x l = None ↔ x ∉ l.
Proof.
  induction l as [|y l IH]; simpl.
  - split; [intros _; apply not_elem_of_nil | done].
  - case_decide as Hy.
    + subst. split; [done | intros []; constructor].
    + rewrite fmap_None, IH, not_elem_of_cons. intuition congruence.
Qed.

Lemma indexOf_Some x l i : indexOf x l = Some i → l !! i = Some x.
Proof.
  revert i. induction l as [|y l IH]; intros i; simpl; [done|].
  case_decide as Hy.
  - intros [= <-]. by subst.
  - destruct (indexOf x l) as [j|] eqn:E; simpl; [|done].
    intros [= <-]. simpl. by apply IH.
Qed.

Lemma NoDup_splice1 (l : list string) i : NoDup l → NoDup (splice1 i l).
Proof. unfold splice1. eauto using sublist_NoDup, sublist_delete. Qed.

Lemma NoDup_splice1_gone (l : list string) i x :
  NoDup l → l !! i = Some x → x ∉ splice1 i l.
Proof.
  unfold splice1. revert i. induction l as [|y l IH]; intros i Hnd Hi; [done|].
  apply NoDup_cons in Hnd as [Hy Hnd].
  destruct i as [|i]; simpl in *.
  - by injection Hi as ->.
  - apply not_elem_of_cons. split; [|by eapply IH].
    intros ->. apply Hy. by eapply list_elem_of_lookup_2.
Qed.

Lemma includes_true x l : includes x l = true ↔ x ∈ l.
Proof. unfold includes. apply bool_decide_eq_true. Qed.

Lemma includes_false x l : includes x l = false ↔ x ∉ l.
Proof. unfold includes. apply bool_decide_eq_false. Qed.

Lemma elem_of_without x y l : y ∈ without x l ↔ y ≠ x ∧ y ∈ l.
Proof. unfold without. by rewrite list_elem_of_filter. Qed.

Lemma NoDup_without x l : NoDup l → NoDup (without x l).
Proof. apply NoDup_filter. Qed.

Lemma NoDup_push (x : string) l : NoDup l → x ∉ l → NoDup (push l x).
Proof.
  intros Hnd Hx. unfold push. apply NoDup_app.
  split_and!; [done | | apply NoDup_singleton].
  by intros y Hy ->%list_elem_of_singleton.
Qed.

Lemma elem_of_push (x y : string) l : y ∈ push l x ↔ y ∈ l ∨ y = x.
Proof. unfold push. rewrite elem_of_app, list_elem_of_singleton. done. Qed.

Lemma occurrences_absent x l : x ∉ l → occurrences x l = 0.
Proof.
  unfold occurrences. induction l as [|y l IH]; intros Hx; [done|].
  apply not_elem_of_cons in Hx as [Hxy Hx].
  rewrite filter_cons, decide_False by done. by apply IH.
Qed.

Lemma occurrences_NoDup x l : NoDup l → x ∈ l → occurrences x l = 1.
Proof.
  induction 1 as [|y l Hy Hnd IH]; intros Hx.
  - by apply elem_of_nil in Hx.
  - unfold occurrences. rewrite filter_cons. case_decide as E.
    + subst y. simpl. f_equal. by apply occurrences_absent.
    + apply IH. apply elem_of_cons in Hx as [->|]; done.
Qed.

(** ** Likes (C7) *)

(** A new message has no likes, no reactions and is not pinned. *)
Lemma createMessage_starts_unliked data userId authorName now st :
  likedBy (createMessage data userId authorName now st).1 = [] ∧
  reactions (createMessage data userId authorName now st).1 = ∅ ∧
  isPinned (createMessage data userId authorName now st).1 = false.
Proof.
  unfold createMessage. simpl. by destruct (groups st !! im_groupId data).
Qed.

Lemma toggleLike_likes u m :
  likes (toggleLike u m) = Z.of_nat (length (likedBy (toggleLike u m))).
Proof. unfold toggleLike. by destruct (indexOf u (likedBy m)). Qed.

Lemma toggleLike_NoDup u m : NoDup (likedBy m) → NoDup (likedBy (toggleLike u m)).
Proof.
  intros Hnd. unfold toggleLike.
  destruct (indexOf u (likedBy m)) as [i|] eqn:E; simpl.
  - by apply NoDup_splice1.
  - apply indexOf_None in E. unfold push. apply NoDup_app.
    split_and!; [done | | apply NoDup_singleton].
    intros x Hx ->%list_elem_of_singleton. done.
Qed.

Lemma toggleLike_flips u m :
  NoDup (likedBy m) →
  includes u (likedBy (toggleLike u m)) = negb (includes u (likedBy m)).
Proof.
  intros Hnd. unfold toggleLike.
  destruct (indexOf u (likedBy m)) as [i|] eqn:E; simpl.
  - apply indexOf_Some in E.
    assert (u ∈ likedBy m) as ->%includes_true by by eapply list_elem_of_lookup_2.
    apply includes_false. by apply NoDup_splice1_gone.
  - apply indexOf_None in E.
    apply includes_false in E as ->. apply includes_true.
    unfold push. set_solver.
Qed.

(** C7.  For a stored message whose [likedBy] array has no duplicates (it
    is empty at creation and [likeMessage] is the only operation that
    writes it, keeping it duplicate-free), [n] consecutive [likeMessage]
    calls by one user leave the message stored, flip the membership of
    that user in [likedBy] once per call (so it is present after an odd
    number of calls exactly when it was absent before), and after every
    call [likes] is the length of [likedBy]. *)
Theorem likeMessage_alternates st messageId userId m n :
  messages st !! messageId = Some m →
  NoDup (likedBy m) →
  ∃ m',
    messages (likeTimes n messageId userId st) !! messageId = Some m' ∧
    includes userId (likedBy m')
      = xorb (includes userId (likedBy m)) (Nat.odd n) ∧
    (0 < n → likes m' = Z.of_nat (length (likedBy m'))) ∧
    NoDup (likedBy m').
Proof.
  revert st m. induction n as [|n IH]; intros st m Hm Hnd.
  - exists m. simpl. rewrite xorb_false_r. split_and!; [done..|lia|done].
  - simpl. unfold likeMessage at 1. rewrite Hm. simpl.
    destruct (IH (set_messages <[messageId := toggleLike userId m]> st)
                (toggleLike userId m)) as (m' & H1 & H2 & H3 & H4).
    { simpl. apply lookup_insert_eq. }
    { by apply toggleLike_NoDup. }
    exists m'. split_and!; [done| |intros _|done].
    + rewrite H2, toggleLike_flips by done. rewrite Nat.odd_succ, <- Nat.negb_odd.
      by destruct (includes userId (likedBy m)), (Nat.odd n).
    + destruct n as [|n]; [|apply H3; lia].
      simpl in H1. rewrite lookup_insert_eq in H1. injection H1 as <-.
      apply toggleLike_likes.
Qed.

(** Witness for C7: three likes by Xavier on the second demo message. *)
Lemma likeMessage_alternates_witness :
  ∃ m',
    messages (likeTimes 3 "m2" "x" demoStore) !! "m2" = Some m' ∧
    includes "x" (likedBy m')
      = xorb (includes "x" (likedBy demoMessage2)) (Nat.odd 3) ∧
    (0 < 3 → likes m' = Z.of_nat (length (likedBy m'))) ∧
    NoDup (likedBy m').
Proof.
  apply (likeMessage_alternates demoStore "m2" "x" demoMessage2 3);
    [reflexivity | constructor].
Defined.

(** ** Reactions (C8) *)

(** C8.  For a stored message without an entry for [emoji] in
    [reactions]: when [emoji] is a name the [reactions] object inherits
    (["constructor"], ["toString"], ["__proto__"], ...), the first
    [addReaction] throws and stores nothing, so the two calls never bring
    the object back to an absent entry by removing the user; for every
    other [emoji] the first call stores the one-element array of the user
    and the second removes the user and deletes the emptied key, leaving
    [reactions] as before the two calls. *)
Theorem addReaction_throws_on_inherited_key st messageId emoji userId m :
  messages st !! messageId = Some m →
  reactions m !! emoji = None →
  (emoji ∈ objectPrototypeKeys →
   addReaction messageId emoji userId st = (Throws, st)) ∧
  ((emoji ∉ objectPrototypeKeys) →
   ∃ m1 st1 m2 st2,
     addReaction messageId emoji userId st = (Returns (Some m1), st1) ∧
     reactions m1 !! emoji = Some [userId] ∧
     addReaction messageId emoji userId st1 = (Returns (Some m2), st2) ∧
     messages st2 !! messageId = Some m2 ∧
     reactions m2 !! emoji = None ∧
     reactions m2 = reactions m).
Proof.
  intros Hm He. split.
  - intros Hin%includes_true.
    unfold addReaction, toggleReaction, inheritedKey.
    by rewrite Hm, bool_decide_eq_true_2, Hin.
  - intros Hout%includes_false.
    assert (toggleReaction emoji userId (reactions m)
            = Returns (<[emoji := [userId]]> (reactions m))) as E1.
    { unfold toggleReaction, inheritedKey. rewrite Hout, andb_false_r.
      rewrite He, lookup_insert_eq. simpl. by rewrite insert_insert_eq. }
    assert (toggleReaction emoji userId (<[emoji := [userId]]> (reactions m))
            = Returns (reactions m)) as E2.
    { unfold toggleReaction, inheritedKey. rewrite Hout, andb_false_r.
      rewrite lookup_insert_eq. cbv zeta.
      rewrite !lookup_insert_eq. simpl. rewrite decide_True by done. simpl.
      rewrite delete_insert_eq. by rewrite delete_id. }
    eexists _, _, _, _. split_and!.
    + unfold addReaction. by rewrite Hm, E1.
    + simpl. apply lookup_insert_eq.
    + unfold addReaction. simpl. rewrite lookup_insert_eq. simpl.
      by rewrite E2.
    + simpl. apply lookup_insert_eq.
    + done.
    + done.
Qed.

(** Witness for C8: Yara reacts to the first demo message with the emoji
    ["constructor"], and twice with ["thumbsup"]. *)
Lemma addReaction_throws_on_inherited_key_witness :
  messages demoStore !! "m1" = Some demoMessage1 ∧
  reactions demoMessage1 !! "constructor" = None ∧
  addReaction "m1" "constructor" "y" demoStore = (Throws, demoStore).
Proof.
  split_and!; [reflexivity..|].
  apply (addReaction_throws_on_inherited_key demoStore "m1" "constructor" "y"
           demoMessage1); [reflexivity..|].
  apply list_elem_of_here.
Defined.

(** ** Pins (C5) *)

Lemma pinMessage_keeps st messageId :
  pinsAgree st → pinsNoDup st →
  pinsAgree (pinMessage messageId st).2 ∧ pinsNoDup (pinMessage messageId st).2.
Proof.
  intros Ha Hn. unfold pinMessage.
  destruct (messages st !! messageId) as [m0|] eqn:Hm0; [|done]. simpl.
  destruct (groups st !! msg_groupId m0) as [g0|] eqn:Hg0; simpl.
  - destruct (includes messageId (pinnedMessages g0)) eqn:Hin; simpl.
    + apply includes_true in Hin. split; [|done].
      intros i m g Hm Hg. simpl in *.
      destruct (decide (i = messageId)) as [->|Hne].
      * rewrite lookup_insert_eq in Hm. injection Hm as <-. simpl in *.
        rewrite Hg0 in Hg. injection Hg as <-. done.
      * rewrite lookup_insert_ne in Hm by done. eauto.
    + apply includes_false in Hin. split.
      * intros i m g Hm Hg. simpl in *.
        destruct (decide (i = messageId)) as [->|Hne].
        -- rewrite lookup_insert_eq in Hm. injection Hm as <-. simpl in *.
           rewrite lookup_insert_eq in Hg. injection Hg as <-. simpl.
           rewrite elem_of_push. tauto.
        -- rewrite lookup_insert_ne in Hm by done.
           destruct (decide (msg_groupId m = msg_groupId m0)) as [E|E].
           ++ rewrite E, lookup_insert_eq in Hg. injection Hg as <-. simpl.
              assert (groups st !! msg_groupId m = Some g0) as Hg' by by rewrite E.
              rewrite elem_of_push, (Ha _ _ _ Hm Hg'). tauto.
           ++ rewrite lookup_insert_ne in Hg by done. eauto.
      * intros gid g Hg. simpl in *.
        destruct (decide (gid = msg_groupId m0)) as [->|E].
        -- rewrite lookup_insert_eq in Hg. injection Hg as <-. simpl.
           apply NoDup_push; eauto.
        -- rewrite lookup_insert_ne in Hg by done. eauto.
  - split; [|done]. intros i m g Hm Hg. simpl in *.
    destruct (decide (i = messageId)) as [->|Hne].
    + rewrite lookup_insert_eq in Hm. injection Hm as <-. simpl in *. congruence.
    + rewrite lookup_insert_ne in Hm by done. eauto.
Qed.

Lemma unpinMessage_keeps st messageId :
  pinsAgree st → pinsNoDup st →
  pinsAgree (unpinMessage messageId st).2 ∧ pinsNoDup (unpinMessage messageId st).2.
Proof.
  intros Ha Hn. unfold unpinMessage.
  destruct (messages st !! messageId) as [m0|] eqn:Hm0; [|done]. simpl.
  destruct (groups st !! msg_groupId m0) as [g0|] eqn:Hg0; simpl.
  - split.
    + intros i m g Hm Hg. simpl in *.
      destruct (decide (i = messageId)) as [->|Hne].
      * rewrite lookup_insert_eq in Hm. injection Hm as <-. simpl in *.
        rewrite lookup_insert_eq in Hg. injection Hg as <-. simpl.
        rewrite elem_of_without. split; [done | by intros [? _]].
      * rewrite lookup_insert_ne in Hm by done.
        destruct (decide (msg_groupId m = msg_groupId m0)) as [E|E].
        -- rewrite E, lookup_insert_eq in Hg. injection Hg as <-. simpl.
           assert (groups st !! msg_groupId m = Some g0) as Hg' by by rewrite E.
           rewrite elem_of_without, (Ha _ _ _ Hm Hg'). tauto.
        -- rewrite lookup_insert_ne in Hg by done. eauto.
    + intros gid g Hg. simpl in *.
      destruct (decide (gid = msg_groupId m0)) as [->|E].
      * rewrite lookup_insert_eq in Hg. injection Hg as <-. simpl.
        apply NoDup_without; eauto.
      * rewrite lookup_insert_ne in Hg by done. eauto.
  - split; [|done]. intros i m g Hm Hg. simpl in *.
    destruct (decide (i = messageId)) as [->|Hne].
    + rewrite lookup_insert_eq in Hm. injection Hm as <-. simpl in *. congruence.
    + rewrite lookup_insert_ne in Hm by done. eauto.
Qed.

Lemma deleteMessage_keeps st messageId :
  pinsAgree st → pinsNoDup st →
  pinsAgree (deleteMessage messageId st).2 ∧ pinsNoDup (deleteMessage messageId st).2.
Proof.
  intros Ha Hn. unfold deleteMessage.
  destruct (messages st !! messageId) as [m0|] eqn:Hm0; [|done]. simpl.
  destruct (groups st !! msg_groupId m0) as [g0|] eqn:Hg0; simpl.
  - split.
    + intros i m g Hm Hg. simpl in *.
      apply lookup_delete_Some in Hm as [Hne Hm].
      destruct (decide (msg_groupId m = msg_groupId m0)) as [E|E].
      * rewrite E, lookup_insert_eq in Hg. injection Hg as <-. simpl.
        assert (groups st !! msg_groupId m = Some g0) as Hg' by by rewrite E.
        rewrite elem_of_without, (Ha _ _ _ Hm Hg').
        split; [intros ?; split; [congruence | done] | by intros [_ ?]].
      * rewrite lookup_insert_ne in Hg by done. eauto.
    + intros gid g Hg. simpl in *.
      destruct (decide (gid = msg_groupId m0)) as [->|E].
      * rewrite lookup_insert_eq in Hg. injection Hg as <-. simpl.
        apply NoDup_without; eauto.
      * rewrite lookup_insert_ne in Hg by done. eauto.
  - split; [|done]. intros i m g Hm Hg. simpl in *.
    apply lookup_delete_Some in Hm as [Hne Hm]. eauto.
Qed.

(** The invariant holds in the empty store, and [createMessage] keeps it
    as long as the identifier it draws is not in a pinned list. *)
Lemma emptyStorage_pins : pinsAgree emptyStorage ∧ pinsNoDup emptyStorage.
Proof. split; [intros i m g Hm _ | intros i g Hm]; simpl in Hm; by rewrite lookup_empty in Hm. Qed.

Lemma createMessage_keeps data userId authorName now st :
  pinsAgree st → pinsNoDup st →
  (∀ groupId g, groups st !! groupId = Some g →
     (randomUUID st).1 ∉ pinnedMessages g) →
  pinsAgree (createMessage data userId authorName now st).2 ∧
  pinsNoDup (createMessage data userId authorName now st).2.
Proof.
  intros Ha Hn Hfresh. unfold createMessage.
  set (id := (randomUUID st).1) in *. simpl.
  destruct (groups st !! im_groupId data) as [g0|] eqn:Hg0; simpl.
  - split.
    + intros i m g Hm Hg. simpl in *.
      assert (∃ g1, groups st !! msg_groupId m = Some g1 ∧
                    pinnedMessages g = pinnedMessages g1) as (g1 & Hg1 & ->).
      { destruct (decide (msg_groupId m = im_groupId data)) as [E|E].
        - rewrite E, lookup_insert_eq in Hg. injection Hg as <-.
          exists g0. by rewrite E.
        - rewrite lookup_insert_ne in Hg by done. eauto. }
      destruct (decide (i = id)) as [->|Hne].
      * rewrite lookup_insert_eq in Hm. injection Hm as <-. simpl in *.
        split; [done|]. intros Hin. by apply Hfresh in Hg1.
      * rewrite lookup_insert_ne in Hm by done. eauto.
    + intros gid g Hg. simpl in *.
      destruct (decide (gid = im_groupId data)) as [->|E].
      * rewrite lookup_insert_eq in Hg. injection Hg as <-. simpl. eauto.
      * rewrite lookup_insert_ne in Hg by done. eauto.
  - split; [|done]. intros i m g Hm Hg. simpl in *.
    destruct (decide (i = id)) as [->|Hne].
    + rewrite lookup_insert_eq in Hm. injection Hm as <-. simpl in *.
      split; [done|]. intros Hin. by apply Hfresh in Hg.
    + rewrite lookup_insert_ne in Hm by done. eauto.
Qed.

Lemma runPinOps_keeps ops st :
  pinsAgree st → pinsNoDup st →
  pinsAgree (runPinOps ops st) ∧ pinsNoDup (runPinOps ops st).
Proof.
  unfold runPinOps. revert st.
  induction ops as [|op ops IH]; intros st Ha Hn; [done|].
  simpl. apply IH; destruct op; simpl;
    by (apply pinMessage_keeps || apply unpinMessage_keeps
        || apply deleteMessage_keeps).
Qed.

Lemma pinMessage_pinned st messageId m g :
  messages st !! messageId = Some m →
  groups st !! msg_groupId m = Some g →
  ∃ g', groups (pinMessage messageId st).2 !! msg_groupId m = Some g' ∧
        messageId ∈ pinnedMessages g' ∧
        messages (pinMessage messageId st).2 !! messageId
          = Some (msg_set_isPinned true m).
Proof.
  intros Hm Hg. unfold pinMessage. rewrite Hm. simpl. rewrite Hg.
  destruct (includes messageId (pinnedMessages g)) eqn:Hin; simpl.
  - apply includes_true in Hin. rewrite lookup_insert_eq. eauto.
  - rewrite !lookup_insert_eq. eexists. split; [done|]. simpl.
    split; [|done]. apply elem_of_push. by right.
Qed.

(** C5.  In a store where every message's [isPinned] flag agrees with
    the presence of its id in the pinned list of its group, and pinned
    lists have no duplicates, the same holds after any sequence of
    [pinMessage], [unpinMessage] and [deleteMessage] calls; pinning a
    message twice leaves its id in the pinned list of its group exactly
    once; and deleting a message removes it from the store and its id
    from the pinned list of its group. *)
Theorem pinned_flag_agrees_with_pinned_list st :
  pinsAgree st → pinsNoDup st →
  (∀ ops, pinsAgree (runPinOps ops st) ∧ pinsNoDup (runPinOps ops st)) ∧
  (∀ messageId m g,
     messages st !! messageId = Some m →
     groups st !! msg_groupId m = Some g →
     ∃ g',
       groups (runPinOps [OpPin messageId; OpPin messageId] st) !! msg_groupId m
         = Some g' ∧
       occurrences messageId (pinnedMessages g') = 1) ∧
  (∀ messageId m g,
     messages st !! messageId = Some m →
     groups st !! msg_groupId m = Some g →
     ∃ g',
       groups (runPinOps [OpDelete messageId] st) !! msg_groupId m = Some g' ∧
       (messageId ∉ pinnedMessages g') ∧
       messages (runPinOps [OpDelete messageId] st) !! messageId = None).
Proof.
  intros Ha Hn. split_and!.
  - intros ops. by apply runPinOps_keeps.
  - intros i m g Hm Hg.
    destruct (pinMessage_pinned st i m g Hm Hg) as (g1 & Hg1 & _ & Hm1).
    destruct (pinMessage_pinned _ i _ g1 Hm1 Hg1) as (g2 & Hg2 & Hin & _).
    exists g2. split; [done|].
    apply occurrences_NoDup; [|done].
    destruct (runPinOps_keeps [OpPin i; OpPin i] st Ha Hn) as [_ Hn2].
    by eapply Hn2.
  - intros i m g Hm Hg. simpl. unfold deleteMessage. rewrite Hm. simpl. rewrite Hg.
    simpl. rewrite !lookup_insert_eq. eexists. split; [done|]. simpl.
    split; [|apply lookup_delete_eq].
    rewrite elem_of_without. by intros [? _].
Qed.

(** The demo store satisfies the pin invariant. *)
Lemma demoStore_pinsAgree : pinsAgree demoStore.
Proof.
  intros i m g Hm Hg. simpl in Hm.
  apply lookup_insert_Some in Hm as [[<- <-]|[_ Hm]].
  - injection Hg as <-. simpl. split; [intros _; by apply list_elem_of_singleton | done].
  - apply lookup_singleton_Some in Hm as [<- <-].
    injection Hg as <-. simpl. split; [done | by intros ?%list_elem_of_singleton].
Qed.

Lemma demoStore_pinsNoDup : pinsNoDup demoStore.
Proof.
  intros i g Hg. simpl in Hg. apply lookup_singleton_Some in Hg as [<- <-].
  simpl. apply NoDup_singleton.
Qed.

(** Witness for C5, on the demo store. *)
Lemma pinned_flag_agrees_with_pinned_list_witness :
  pinsAgree demoStore ∧ pinsNoDup demoStore ∧
  pinsAgree (runPinOps [OpPin "m2"; OpDelete "m1"; OpUnpin "m2"] demoStore) ∧
  (∃ g',
     groups (runPinOps [OpPin "m2"; OpPin "m2"] demoStore) !! "g" = Some g' ∧
     occurrences "m2" (pinnedMessages g') = 1) ∧
  (∃ g',
     groups (runPinOps [OpDelete "m1"] demoStore) !! "g" = Some g' ∧
     ("m1" ∉ pinnedMessages g') ∧
     messages (runPinOps [OpDelete "m1"] demoStore) !! "m1" = None).
Proof.
  destruct (pinned_flag_agrees_with_pinned_list demoStore
              demoStore_pinsAgree demoStore_pinsNoDup) as (Hseq & Htwice & Hdel).
  split_and!.
  - exact demoStore_pinsAgree.
  - exact demoStore_pinsNoDup.
  - exact (proj1 (Hseq [OpPin "m2"; OpDelete "m1"; OpUnpin "m2"])).
  - exact (Htwice "m2" demoMessage2 demoGroup eq_refl eq_refl).
  - exact (Hdel "m1" demoMessage1 demoGroup eq_refl eq_refl).
Defined.

(** ** Event registration (C10) *)

Lemma isFull_true e :
  isFull e = true ↔
  ∃ mx, maxParticipants e = Some mx ∧ mx ≠ 0%Z ∧ (mx ≤ currentParticipants e)%Z.
Proof.
  unfold isFull. destruct (maxParticipants e) as [mx|].
  - case_decide as E.
    + split; [done|]. intros (? & [= <-] & ? & ?). done.
    + rewrite bool_decide_eq_true. split; [eauto|].
      by intros (? & [= <-] & ? & ?).
  - split; [done|]. by intros (? & ? & _).
Qed.

Lemma registerForEvent_keeps eventId userId st :
  participantsAgree st → participantsAgree (registerForEvent eventId userId st).2.
Proof.
  intros Hp. unfold registerForEvent.
  destruct (events st !! eventId) as [event|] eqn:He; [|done].
  destruct (cancelled event); [done|].
  destruct (isFull event); [done|].
  destruct (eventRegistrations st !! eventId) as [regs|] eqn:Hr; simpl.
  - rewrite Hr. simpl. case_decide as Hu; [done|]. simpl.
    intros i e Hi. simpl in *. unfold registrationsOf. simpl.
    destruct (decide (i = eventId)) as [->|Hne].
    + rewrite lookup_insert_eq in Hi. injection Hi as <-.
      by rewrite lookup_insert_eq.
    + rewrite lookup_insert_ne in Hi by done.
      rewrite lookup_insert_ne by done. by apply Hp.
  - rewrite lookup_insert_eq. simpl.
    rewrite decide_False by set_solver. simpl.
    intros i e Hi. simpl in *. unfold registrationsOf. simpl.
    destruct (decide (i = eventId)) as [->|Hne].
    + rewrite lookup_insert_eq in Hi. injection Hi as <-.
      by rewrite lookup_insert_eq.
    + rewrite lookup_insert_ne in Hi by done.
      rewrite !lookup_insert_ne by done. by apply Hp.
Qed.

Lemma unregisterFromEvent_keeps eventId userId st :
  participantsAgree st → participantsAgree (unregisterFromEvent eventId userId st).2.
Proof.
  intros Hp. unfold unregisterFromEvent.
  destruct (events st !! eventId) as [event|] eqn:He; [|done].
  destruct (eventRegistrations st !! eventId) as [regs|] eqn:Hr; [|done].
  case_decide as Hu; [|done]. simpl.
  intros i e Hi. simpl in *. unfold registrationsOf. simpl.
  destruct (decide (i = eventId)) as [->|Hne].
  - rewrite lookup_insert_eq in Hi. injection Hi as <-.
    by rewrite lookup_insert_eq.
  - rewrite lookup_insert_ne in Hi by done.
    rewrite lookup_insert_ne by done. by apply Hp.
Qed.

(** The invariant holds in the empty store, and [createEvent] keeps it
    as long as the identifier it draws has no registrations yet. *)
Lemma emptyStorage_participantsAgree : participantsAgree emptyStorage.
Proof. apply map_Forall_empty. Qed.

Lemma createEvent_keeps title location date maxP st :
  participantsAgree st →
  eventRegistrations st !! (randomUUID st).1 = None →
  participantsAgree (createEvent title location date maxP st).2.
Proof.
  intros Hp Hfresh. unfold createEvent, participantsAgree. simpl.
  apply map_Forall_insert_2.
  - unfold registrationsOf. simpl. simpl in Hfresh. by rewrite Hfresh.
  - intros i e Hi. unfold registrationsOf. simpl. by apply Hp.
Qed.

Lemma runRegOps_keeps ops st :
  participantsAgree st → participantsAgree (runRegOps ops st).
Proof.
  unfold runRegOps. revert st.
  induction ops as [|op ops IH]; intros st Hp; [done|].
  simpl. apply IH. destruct op; simpl;
    by (apply registerForEvent_keeps || apply unregisterFromEvent_keeps).
Qed.

(** C10 (as amended).  [registerForEvent] returns nothing and leaves the
    store unchanged when the event does not exist, is cancelled, or has a
    non-zero [maxParticipants] that [currentParticipants] has reached;
    for an event that passes these guards, registering a user who is
    already registered returns the event and leaves the store unchanged;
    and in a store where [currentParticipants] of every event is the
    size of its registration set, this still holds after any sequence of
    register and unregister calls. *)
Theorem registerForEvent_guards_and_idempotence st eventId userId :
  participantsAgree st →
  (events st !! eventId = None →
     registerForEvent eventId userId st = (None, st)) ∧
  (∀ event, events st !! eventId = Some event →
     cancelled event = true ∨
     (∃ mx, maxParticipants event = Some mx ∧ mx ≠ 0%Z ∧
            (mx ≤ currentParticipants event)%Z) →
     registerForEvent eventId userId st = (None, st)) ∧
  (∀ event, events st !! eventId = Some event →
     cancelled event = false → isFull event = false →
     userId ∈ registrationsOf eventId st →
     registerForEvent eventId userId st = (Some event, st)) ∧
  (∀ ops, participantsAgree (runRegOps ops st)).
Proof.
  intros Hp. split_and!.
  - intros He. unfold registerForEvent. by rewrite He.
  - intros event He Hg. unfold registerForEvent. rewrite He.
    destruct (cancelled event) eqn:Hc; [done|].
    destruct Hg as [?|Hf]; [done|]. apply isFull_true in Hf. by rewrite Hf.
  - intros event He Hc Hf Hu. unfold registerForEvent, registrationsOf in *.
    rewrite He, Hc, Hf.
    destruct (eventRegistrations st !! eventId) as [regs|] eqn:Hr; simpl in *.
    + rewrite Hr. simpl. by rewrite decide_True.
    + set_solver.
  - intros ops. by apply runRegOps_keeps.
Qed.

(** The demo store satisfies the participants invariant. *)
Lemma demoStore_participantsAgree : participantsAgree demoStore.
Proof.
  unfold participantsAgree. simpl.
  repeat apply map_Forall_insert_2; [reflexivity.. | apply map_Forall_empty].
Qed.

(** Counterexample for C10 as stated.  Yara is registered for an event
    at capacity: registering her again returns nothing, not the event.
    And an event whose [maxParticipants] is [0], with [currentParticipants]
    at [0], accepts a registration. *)
Lemma registerForEvent_when_full_or_zero_capacity :
  "y" ∈ registrationsOf "e2" demoStore ∧
  registerForEvent "e2" "y" demoStore = (None, demoStore) ∧
  maxParticipants zeroCapEvent = Some 0%Z ∧
  (0 ≤ currentParticipants zeroCapEvent)%Z ∧
  (registerForEvent "e3" "x" demoStore).1
    = Some (event_set_currentParticipants 1 zeroCapEvent).
Proof.
  split_and!; [apply elem_of_singleton| | | |]; reflexivity.
Qed.

(** Witness for C10, on the demo store. *)
Lemma registerForEvent_guards_and_idempotence_witness :
  registerForEvent "e1" "y" demoStore = (Some demoEvent, demoStore) ∧
  registerForEvent "e2" "x" demoStore = (None, demoStore) ∧
  participantsAgree
    (runRegOps [OpRegister "e1" "x"; OpUnregister "e1" "y"; OpRegister "e3" "y"]
       demoStore).
Proof.
  destruct (registerForEvent_guards_and_idempotence demoStore "e1" "y"
              demoStore_participantsAgree) as (_ & _ & Hidem & Hseq).
  destruct (registerForEvent_guards_and_idempotence demoStore "e2" "x"
              demoStore_participantsAgree) as (_ & Hguard & _ & _).
  split_and!.
  - apply (Hidem demoEvent); [reflexivity.. | ].
    apply elem_of_singleton. reflexivity.
  - apply (Hguard fullEvent); [reflexivity|].
    right. exists 1%Z. split_and!; [reflexivity | done | reflexivity].
  - apply Hseq.
Defined.

(** ** Group roles (C4) *)

Lemma joinGroup_groups groupId userId st g :
  groups st !! groupId = Some g →
  groups (joinGroup groupId userId st).2 =
    if includes userId (members g) then groups st
    else <[groupId :=
             group_set_membership (push (members g) userId)
               (<[userId := Member]> (memberRoles g)) g]> (groups st).
Proof.
  intros Hg. unfold joinGroup. rewrite Hg.
  destruct (includes userId (members g)); [done|]. simpl.
  unfold getUser. simpl. destruct (users st !! userId) as [u|]; [|done].
  by destruct (includes groupId (user_joinedGroups u)).
Qed.

Lemma leaveGroup_groups groupId userId st g :
  groups st !! groupId = Some g →
  groups (leaveGroup groupId userId st).2 =
    <[groupId :=
        group_set_membership (without userId (members g))
          (delete userId (memberRoles g)) g]> (groups st).
Proof.
  intros Hg. unfold leaveGroup. rewrite Hg. simpl.
  unfold getUser. simpl. by destruct (users st !! userId).
Qed.

Lemma atMostOneCreator_insert g userId r g' :
  r ≠ Creator →
  atMostOneCreator g →
  memberRoles g' = <[userId := r]> (memberRoles g) →
  atMostOneCreator g'.
Proof.
  intros Hr Hg E a b. rewrite E.
  destruct (decide (a = userId)) as [->|Ha]; [rewrite lookup_insert_eq; congruence|].
  destruct (decide (b = userId)) as [->|Hb]; [rewrite (lookup_insert_eq _ userId); congruence|].
  rewrite !lookup_insert_ne by done. apply Hg.
Qed.

Lemma atMostOneCreator_delete g userId g' :
  atMostOneCreator g →
  memberRoles g' = delete userId (memberRoles g) →
  atMostOneCreator g'.
Proof.
  intros Hg E a b. rewrite E.
  intros [_ Ha]%lookup_delete_Some [_ Hb]%lookup_delete_Some. by apply Hg.
Qed.

Lemma runGroupOp_keeps op st : creatorsUnique st → creatorsUnique (runGroupOp st op).
Proof.
  intros Hc. destruct op as [gid u|gid u|gid u r]; simpl.
  - destruct (groups st !! gid) as [g|] eqn:Hg.
    + unfold creatorsUnique. rewrite (joinGroup_groups _ _ _ g Hg).
      destruct (includes u (members g)); [done|].
      apply map_Forall_insert_2; [|done].
      eapply (atMostOneCreator_insert g u Member); [done|by eapply Hc|done].
    + unfold joinGroup. by rewrite Hg.
  - destruct (groups st !! gid) as [g|] eqn:Hg.
    + unfold creatorsUnique. rewrite (leaveGroup_groups _ _ _ g Hg).
      apply map_Forall_insert_2; [|done].
      eapply (atMostOneCreator_delete g u); [by eapply Hc|done].
    + unfold leaveGroup. by rewrite Hg.
  - unfold setMemberRole. destruct (groups st !! gid) as [g|] eqn:Hg; [|done].
    destruct (includes u (members g)); [|done]. simpl.
    apply map_Forall_insert_2; [|done].
    eapply (atMostOneCreator_insert g u (role_of r)); [by destruct r|by eapply Hc|done].
Qed.

Lemma runGroupOps_keeps ops st :
  creatorsUnique st → creatorsUnique (runGroupOps ops st).
Proof.
  unfold runGroupOps. revert st.
  induction ops as [|op ops IH]; intros st Hc; [done|].
  simpl. by apply IH, runGroupOp_keeps.
Qed.

(** C4 (as amended).  [createGroup] gives the new group exactly one role
    entry, [creator] for the creating user.  [leaveGroup] deletes the role
    entry of the leaving user, whatever the role, and changes no other
    entry: the creator's entry survives every leave by another user and
    is removed when the creator leaves.  In a store where no group has
    two [creator] entries, none has after any sequence of [joinGroup],
    [leaveGroup] and [setMemberRole] calls. *)
Theorem leaveGroup_removes_only_the_leaver st :
  creatorsUnique st →
  (∀ name userId now,
     memberRoles (createGroup name userId now st).1 = {[ userId := Creator ]}) ∧
  (∀ groupId userId g,
     groups st !! groupId = Some g →
     ∃ g',
       (leaveGroup groupId userId st).1 = Some g' ∧
       groups (leaveGroup groupId userId st).2 !! groupId = Some g' ∧
       memberRoles g' !! userId = None ∧
       ∀ other, other ≠ userId →
         memberRoles g' !! other = memberRoles g !! other) ∧
  (∀ ops, creatorsUnique (runGroupOps ops st)).
Proof.
  intros Hc. split_and!.
  - intros name userId now. unfold createGroup. simpl.
    unfold getUser. simpl. by destruct (users st !! userId).
  - intros groupId userId g Hg. eexists. split_and!.
    + unfold leaveGroup. rewrite Hg. simpl. unfold getUser. simpl.
      by destruct (users st !! userId).
    + rewrite (leaveGroup_groups _ _ _ g Hg). apply lookup_insert_eq.
    + simpl. apply lookup_delete_eq.
    + intros other Hne. simpl. by apply lookup_delete_ne.
  - intros ops. by apply runGroupOps_keeps.
Qed.

(** The demo store has one creator per group. *)
Lemma demoStore_creatorsUnique : creatorsUnique demoStore.
Proof.
  unfold creatorsUnique. simpl. apply map_Forall_singleton.
  intros a b Ha Hb. simpl in *.
  apply lookup_insert_Some in Ha as [[<- _]|[_ Ha]];
    [|by apply lookup_singleton_Some in Ha as [_ ?]].
  apply lookup_insert_Some in Hb as [[<- _]|[_ Hb]]; [done|].
  by apply lookup_singleton_Some in Hb as [_ ?].
Qed.

(** Counterexample for C4 as stated.  Xavier is the creator of the demo
    group; after he leaves, his entry is gone and the group has no
    [creator] entry at all. *)
Lemma creator_leaving_removes_creator_entry :
  memberRoles demoGroup !! "x" = Some Creator ∧
  ∃ g',
    (leaveGroup "g" "x" demoStore).1 = Some g' ∧
    groups (leaveGroup "g" "x" demoStore).2 !! "g" = Some g' ∧
    memberRoles g' !! "x" = None ∧
    memberRoles g' = {[ "y" := Member ]}.
Proof. split; [reflexivity|]. eexists. split_and!; reflexivity. Qed.

(** Witness for C4, on the demo store. *)
Lemma leaveGroup_removes_only_the_leaver_witness :
  memberRoles (createGroup "Go" "y" 40 demoStore).1 = {[ "y" := Creator ]} ∧
  (∃ g',
     (leaveGroup "g" "y" demoStore).1 = Some g' ∧
     groups (leaveGroup "g" "y" demoStore).2 !! "g" = Some g' ∧
     memberRoles g' !! "y" = None ∧
     ∀ other, other ≠ "y" →
       memberRoles g' !! other = memberRoles demoGroup !! other) ∧
  creatorsUnique
    (runGroupOps [OpJoin "g" "z"; OpSetRole "g" "x" AsAdmin; OpLeave "g" "x"]
       demoStore).
Proof.
  destruct (leaveGroup_removes_only_the_leaver demoStore
              demoStore_creatorsUnique) as (Hcreate & Hleave & Hseq).
  split_and!.
  - apply Hcreate.
  - apply (Hleave "g" "y" demoGroup). reflexivity.
  - apply Hseq.
Defined.

(** ** Reminder sweep (C6) *)

(** The reminder key determines the (event, user, type) triple among
    events whose identifiers have one length, as those drawn by
    [randomUUID] in the source have. *)

Lemma append_inj_length s1 s2 t1 t2 :
  String.length s1 = String.length s2 →
  s1 +:+ t1 = s2 +:+ t2 → s1 = s2 ∧ t1 = t2.
Proof.
  revert s2. induction s1 as [|c s1 IH]; intros [|d s2] Hlen Heq;
    simpl in *; try done.
  injection Hlen as Hlen. injection Heq as -> Heq.
  destruct (IH s2 Hlen Heq) as [-> ->]. done.
Qed.

Lemma containsDash_append s t :
  containsDash (s +:+ "-" +:+ t) = true.
Proof.
  induction s as [|c s IH]; simpl; [done|]. by case_decide.
Qed.

Lemma reminderSuffix_inj u u' type type' :
  u +:+ "-" +:+ reminderTypeString type = u' +:+ "-" +:+ reminderTypeString type' →
  u = u' ∧ type = type'.
Proof.
  revert u'. induction u as [|c u IH]; intros [|d u'] Heq; simpl in *.
  - by destruct type, type'.
  - injection Heq as <- Heq.
    pose proof (containsDash_append u' (reminderTypeString type')) as Hd.
    rewrite <- Heq in Hd. by destruct type.
  - injection Heq as -> Heq.
    pose proof (containsDash_append u (reminderTypeString type)) as Hd.
    rewrite Heq in Hd. by destruct type'.
  - injection Heq as -> Heq. by destruct (IH u' Heq) as [-> ->].
Qed.

Lemma reminderKey_inj eventId eventId' userId userId' type type' :
  String.length eventId = String.length eventId' →
  reminderKey eventId userId type = reminderKey eventId' userId' type' →
  eventId = eventId' ∧ userId = userId' ∧ type = type'.
Proof.
  intros Hlen Heq. unfold reminderKey in Heq.
  apply append_inj_length in Heq as [-> Heq]; [|done].
  injection Heq as Heq. apply reminderSuffix_inj in Heq as [-> ->]. done.
Qed.

Lemma noKeyClash_same_length st eventId userId :
  map_Forall
    (λ _ event, String.length (event_id event) = String.length eventId)
    (events st) →
  noKeyClash st eventId userId.
Proof.
  intros Hlen k event regs u type Hev _ _ Hkey.
  apply reminderKey_inj in Hkey; [done|]. by eapply Hlen.
Qed.

Section ReminderDedup.

Variables (st0 : MemStorage) (eventId userId : string) (user : User) (c : nat).
Hypothesis Huser : users st0 !! userId = Some user.
Hypothesis Hpref : eventReminders24h (notificationPreferences user) = true.
Hypothesis Hclash : noKeyClash st0 eventId userId.

Local Abbreviation key0 := (reminderKey eventId userId R24h).
Local Abbreviation count st := (length (remindersFor eventId userId R24h st)).

Lemma count_push st n :
  length (filter (isReminderFor eventId userId R24h) (push (notifications st) n))
  = (count st + if decide (isReminderFor eventId userId R24h n) then 1 else 0)%nat.
Proof.
  unfold push, remindersFor. rewrite filter_app, length_app.
  f_equal. rewrite filter_cons, filter_nil. by case_decide.
Qed.

Lemma remindUser_alreadySent event type now st userId' :
  alreadySent st0 eventId userId c st → alreadySent st0 eventId userId c (remindUser event type now st userId').
Proof.
  intros (Hsame & Hkey & Hcount). unfold remindUser.
  case_decide as Hk; [done|].
  destruct (users st !! userId') as [u|]; [|done].
  destruct (reminderPreference type (notificationPreferences u)); [|done].
  simpl. split_and!; [done| simpl; set_solver |].
  unfold remindersFor at 1. simpl. rewrite count_push.
  rewrite decide_False; [rewrite Hcount; lia|].
  intros (_ & [= He] & Hu & [= Ht]). simpl in *. subst. done.
Qed.

Lemma remindUser_notYetSent event type now st userId' :
  reachableCall st0 event userId' →
  notYetSent st0 eventId userId c st →
  let st' := remindUser event type now st userId' in
  (notYetSent st0 eventId userId c st' ∨ alreadySent st0 eventId userId c st') ∧
  (event_id event = eventId → userId' = userId → type = R24h → alreadySent st0 eventId userId c st').
Proof.
  intros (k & regs & Hev & Hregs & Hin) (Hsame & Hkey & Hcount).
  unfold remindUser.
  destruct (decide (event_id event = eventId ∧ userId' = userId ∧ type = R24h))
    as [(He & Hu & Ht)|Hne].
  - rewrite Hu, Ht, He. rewrite decide_False by done.
    destruct Hsame as (Husers & ? & ?). rewrite Husers, Huser. simpl.
    rewrite Hpref. simpl.
    assert (alreadySent st0 eventId userId c
      (set_sentReminders (λ s, {[key0]} ∪ s)
         (set_notifications
            (λ ns, push ns
               (mkNotification (randomUUID st).1 userId
                  ("Reminder: " +:+ event_title event)
                  (reminderMessage event R24h) NReminder false now
                  (Some ("/events/" +:+ eventId))
                  (Some eventId) (Some R24h)))
            (randomUUID st).2))) as Hdone.
    { split_and!; [done| simpl; set_solver |].
      unfold remindersFor at 1. simpl. rewrite count_push.
      rewrite decide_True by done. rewrite Hcount. lia. }
    split; [by right | done].
  - split; [|intros; tauto].
    case_decide as Hk; [by left|].
    destruct Hsame as (Husers & Hevents & Hregs').
    destruct (users st !! userId') as [u|]; [|by left].
    destruct (reminderPreference type (notificationPreferences u)); [|by left].
    simpl. left. split_and!; [done| |].
    + simpl. intros [Hk'%elem_of_singleton|?]%elem_of_union; [|done].
      apply Hne. eapply Hclash; eauto.
    + unfold remindersFor at 1. simpl. rewrite count_push.
      rewrite decide_False; [rewrite Hcount; lia|].
      intros (_ & [= He] & Hu & [= Ht]). simpl in *. by apply Hne.
Qed.

Lemma remindUser_inFlight event type now st userId' :
  reachableCall st0 event userId' →
  inFlight st0 eventId userId c st →
  let st' := remindUser event type now st userId' in
  inFlight st0 eventId userId c st' ∧
  (event_id event = eventId → userId' = userId → type = R24h → alreadySent st0 eventId userId c st').
Proof.
  intros Hcall [Hb|Ha].
  - by apply remindUser_notYetSent.
  - pose proof (remindUser_alreadySent event type now st userId' Ha).
    split; [by right | done].
Qed.

Lemma remindUsers_alreadySent event type now l st :
  alreadySent st0 eventId userId c st → alreadySent st0 eventId userId c (foldl (remindUser event type now) st l).
Proof.
  revert st. induction l as [|u l IH]; intros st Ha; [done|].
  simpl. by apply IH, remindUser_alreadySent.
Qed.

Lemma remindUsers_inFlight event type now l st :
  (∀ u, u ∈ l → reachableCall st0 event u) →
  inFlight st0 eventId userId c st →
  let st' := foldl (remindUser event type now) st l in
  inFlight st0 eventId userId c st' ∧
  (event_id event = eventId → type = R24h → userId ∈ l → alreadySent st0 eventId userId c st').
Proof.
  revert st. induction l as [|u l IH]; intros st Hcalls Hst; simpl.
  - split; [done|]. intros _ _ Hin. by apply elem_of_nil in Hin.
  - destruct (remindUser_inFlight event type now st u) as [Hfl Htarget];
      [apply Hcalls; left | done |].
    destruct (IH (remindUser event type now st u)) as [Hfl' Htarget'];
      [intros; apply Hcalls; by right | done |].
    split; [done|]. intros He Ht [Heq|Hin]%elem_of_cons.
    + by apply remindUsers_alreadySent, Htarget.
    + by apply Htarget'.
Qed.

Lemma sendReminderNotifications_alreadySent event type now st :
  alreadySent st0 eventId userId c st → alreadySent st0 eventId userId c (sendReminderNotifications event type now st).
Proof.
  intros Ha. unfold sendReminderNotifications.
  destruct (eventRegistrations st !! event_id event); [|done].
  by apply remindUsers_alreadySent.
Qed.

Lemma sendReminderNotifications_inFlight event type now st k :
  events st0 !! k = Some event →
  inFlight st0 eventId userId c st →
  let st' := sendReminderNotifications event type now st in
  inFlight st0 eventId userId c st' ∧
  (event_id event = eventId → type = R24h →
   userId ∈ registrationsOf eventId st0 → alreadySent st0 eventId userId c st').
Proof.
  intros Hev Hst. unfold sendReminderNotifications.
  assert (eventRegistrations st = eventRegistrations st0) as ->.
  { by destruct Hst as [((_ & _ & ?) & _)|((_ & _ & ?) & _)]. }
  destruct (eventRegistrations st0 !! event_id event) as [regs|] eqn:Hregs.
  - destruct (remindUsers_inFlight event type now (elements regs) st)
      as [Hfl Htarget]; [|done|].
    { intros u Hu%elem_of_elements. exists k, regs. done. }
    split; [done|]. intros He Ht Hin. apply Htarget; [done..|].
    apply elem_of_elements. unfold registrationsOf in Hin.
    by rewrite <- He, Hregs in Hin.
  - split; [done|]. intros He _ Hin. unfold registrationsOf in Hin.
    rewrite <- He, Hregs in Hin. set_solver.
Qed.

Lemma sweepEvent_alreadySent now st event :
  alreadySent st0 eventId userId c st → alreadySent st0 eventId userId c (sweepEvent now st event).
Proof.
  intros Ha. unfold sweepEvent.
  destruct (in24hWindow _), (in1hWindow _);
    repeat apply sendReminderNotifications_alreadySent; done.
Qed.

Lemma sweepEvent_inFlight now st event k :
  events st0 !! k = Some event →
  inFlight st0 eventId userId c st →
  let st' := sweepEvent now st event in
  inFlight st0 eventId userId c st' ∧
  (event_id event = eventId →
   in24hWindow (hoursUntil (event_date event - now)) = true →
   userId ∈ registrationsOf eventId st0 → alreadySent st0 eventId userId c st').
Proof.
  intros Hev Hst. unfold sweepEvent.
  destruct (in24hWindow _) eqn:H24.
  - destruct (sendReminderNotifications_inFlight event R24h now st k Hev Hst)
      as [Hfl Htarget].
    destruct (in1hWindow _).
    + destruct (sendReminderNotifications_inFlight event R1h now _ k Hev Hfl)
        as [Hfl' _].
      split; [done|]. intros He _ Hin.
      by apply sendReminderNotifications_alreadySent, Htarget.
    + split; [done|]. intros He _ Hin. by apply Htarget.
  - destruct (in1hWindow _).
    + destruct (sendReminderNotifications_inFlight event R1h now st k Hev Hst)
        as [Hfl' _].
      split; [done|]. by intros.
    + split; [done|]. by intros.
Qed.

Lemma sweepEvents_alreadySent now l st :
  alreadySent st0 eventId userId c st → alreadySent st0 eventId userId c (foldl (sweepEvent now) st l).
Proof.
  revert st. induction l as [|e l IH]; intros st Ha; [done|].
  simpl. by apply IH, sweepEvent_alreadySent.
Qed.

Lemma sweepEvents_inFlight now l st :
  (∀ e, e ∈ l → ∃ k, events st0 !! k = Some e) →
  inFlight st0 eventId userId c st →
  let st' := foldl (sweepEvent now) st l in
  inFlight st0 eventId userId c st' ∧
  (∀ event, event ∈ l → event_id event = eventId →
     in24hWindow (hoursUntil (event_date event - now)) = true →
     userId ∈ registrationsOf eventId st0 → alreadySent st0 eventId userId c st').
Proof.
  revert st. induction l as [|e l IH]; intros st Hl Hst; simpl.
  - split; [done|]. intros event Hin. by apply elem_of_nil in Hin.
  - destruct (Hl e) as [k Hk]; [left|].
    destruct (sweepEvent_inFlight now st e k Hk Hst) as [Hfl Htarget].
    destruct (IH (sweepEvent now st e)) as [Hfl' Htarget'];
      [intros; apply Hl; by right | done |].
    split; [done|]. intros event [->|Hin]%elem_of_cons He Hw Hreg.
    + by apply sweepEvents_alreadySent, Htarget.
    + by eapply Htarget'.
Qed.

Lemma reminderSweep_alreadySent now st :
  alreadySent st0 eventId userId c st → alreadySent st0 eventId userId c (reminderSweep now st).
Proof. apply sweepEvents_alreadySent. Qed.

Lemma reminderSweep_sends now st k event :
  events st0 !! k = Some event →
  event_id event = eventId →
  in24hWindow (hoursUntil (event_date event - now)) = true →
  userId ∈ registrationsOf eventId st0 →
  inFlight st0 eventId userId c st → alreadySent st0 eventId userId c (reminderSweep now st).
Proof.
  intros Hev He Hw Hreg Hst. unfold reminderSweep.
  assert (events st = events st0) as ->.
  { by destruct Hst as [((_ & ? & _) & _)|((_ & ? & _) & _)]. }
  destruct (sweepEvents_inFlight now (map_to_list (events st0)).*2 st)
    as [_ Htarget]; [|done|].
  { intros e ((k' & e') & -> & Hin)%list_elem_of_fmap.
    exists k'. by apply elem_of_map_to_list in Hin. }
  apply (Htarget event); [|done..].
  apply list_elem_of_fmap. exists (k, event). split; [done|].
  by apply elem_of_map_to_list.
Qed.

End ReminderDedup.

(** C6.  Take an event of the store that is not cancelled, a user
    registered for it whose 24-hour reminder preference is on, and two
    consecutive sweep passes whose hours-until-start both lie in
    (23.9, 24.1).  If the reminder key of the pair was not yet recorded
    (and no other registration of the store is mapped to the same key),
    the first pass creates exactly one reminder notification of type 24h
    for the pair and records the key, and the second pass creates none. *)
Theorem reminder_sent_exactly_once st now1 now2 k event userId user :
  events st !! k = Some event →
  cancelled event = false →
  userId ∈ registrationsOf (event_id event) st →
  users st !! userId = Some user →
  eventReminders24h (notificationPreferences user) = true →
  in24hWindow (hoursUntil (event_date event - now1)) = true →
  in24hWindow (hoursUntil (event_date event - now2)) = true →
  reminderKey (event_id event) userId R24h ∉ sentReminders st →
  noKeyClash st (event_id event) userId →
  let st1 := reminderSweep now1 st in
  let st2 := reminderSweep now2 st1 in
  length (remindersFor (event_id event) userId R24h st1)
    = S (length (remindersFor (event_id event) userId R24h st)) ∧
  reminderKey (event_id event) userId R24h ∈ sentReminders st1 ∧
  length (remindersFor (event_id event) userId R24h st2)
    = S (length (remindersFor (event_id event) userId R24h st)).
Proof.
  intros Hev _ Hreg Huser Hpref Hw1 Hw2 Hkey Hclash st1 st2.
  set (c := length (remindersFor (event_id event) userId R24h st)).
  assert (alreadySent st (event_id event) userId c st1) as H1.
  { eapply (reminderSweep_sends st (event_id event) userId user c); eauto.
    left. split_and!; done. }
  assert (alreadySent st (event_id event) userId c st2) as H2.
  { by eapply reminderSweep_alreadySent. }
  destruct H1 as (_ & ? & ?), H2 as (_ & _ & ?). done.
Qed.

(** Reminder keys of the demo store do not clash with Yara's. *)
Lemma demoStore_noKeyClash : noKeyClash demoStore "e1" "y".
Proof.
  apply noKeyClash_same_length. simpl.
  repeat apply map_Forall_insert_2; [reflexivity.. | apply map_Forall_empty].
Qed.

(** Witness for C6: sweeps at time 0 and five minutes later. *)
Lemma reminder_sent_exactly_once_witness :
  let st1 := reminderSweep 0 demoStore in
  let st2 := reminderSweep 300000 st1 in
  length (remindersFor "e1" "y" R24h st1)
    = S (length (remindersFor "e1" "y" R24h demoStore)) ∧
  reminderKey "e1" "y" R24h ∈ sentReminders st1 ∧
  length (remindersFor "e1" "y" R24h st2)
    = S (length (remindersFor "e1" "y" R24h demoStore)).
Proof.
  apply (reminder_sent_exactly_once demoStore 0 300000 "e1" demoEvent "y"
           (demoUser "y" "Yara")).
  - reflexivity.
  - reflexivity.
  - apply elem_of_singleton. reflexivity.
  - reflexivity.
  - reflexivity.
  - reflexivity.
  - reflexivity.
  - apply not_elem_of_empty.
  - exact demoStore_noKeyClash.
Defined.

(** ** Handshake (C9) *)

Lemma insertNewestFirst_Permutation n l : insertNewestFirst n l ≡ₚ n :: l.
Proof.
  induction l as [|m l IH]; simpl; [done|].
  case_decide; [done|]. rewrite IH. apply Permutation_swap.
Qed.

Lemma sortNewestFirst_Permutation l : sortNewestFirst l ≡ₚ l.
Proof.
  induction l as [|n l IH]; simpl; [done|].
  by rewrite insertNewestFirst_Permutation, IH.
Qed.

Lemma getNotifications_Permutation userId st :
  getNotifications userId st
  ≡ₚ filter (λ n, notif_userId n = userId) (notifications st).
Proof. apply sortNewestFirst_Permutation. Qed.

(** C9.  When the token is missing (absent or empty) or rejected by
    [verifyToken], the handshake closes the socket with code 1008 and
    leaves the session registry as it was.  When the token is accepted,
    the handshake stores the socket under the user's id and sends, as its
    only frame, a [notifications] frame carrying [getNotifications] of
    that user, which holds exactly the user's notifications of the store. *)
Theorem handshake_closes_or_sends_notifications
    (verifyToken : string → option Decoded) ws token st srv :
  (tokenMissing token = true ∨ verifyToken (default "" token) = None →
   ∃ reason,
     onConnection verifyToken ws token st srv
       = (None, srv, [Close ws 1008 reason])) ∧
  (∀ decoded,
     tokenMissing token = false →
     verifyToken (default "" token) = Some decoded →
     onConnection verifyToken ws token st srv
       = (Some decoded,
          set_userConnections <[decoded_id decoded := ws]> srv,
          [Send ws (FNotifications (getNotifications (decoded_id decoded) st))]) ∧
     getNotifications (decoded_id decoded) st
       ≡ₚ filter (λ n, notif_userId n = decoded_id decoded) (notifications st)).
Proof.
  split.
  - intros H. unfold onConnection.
    destruct (tokenMissing token); [eauto|].
    destruct H as [? | ->]; [done|eauto].
  - intros decoded Hm Hv. unfold onConnection. rewrite Hm, Hv.
    split; [done|]. apply getNotifications_Permutation.
Qed.

(** Witness for C9: no token, a forged token, and Yara's token. *)
Lemma handshake_closes_or_sends_notifications_witness :
  (∃ reason,
     onConnection demoVerifyToken 7 None demoStore demoServer
       = (None, demoServer, [Close 7 1008 reason])) ∧
  (∃ reason,
     onConnection demoVerifyToken 7 (Some "forged") demoStore demoServer
       = (None, demoServer, [Close 7 1008 reason])) ∧
  onConnection demoVerifyToken 7 (Some "token-y") demoStore demoServer
    = (Some decodedY, set_userConnections <["y" := 7]> demoServer,
       [Send 7 (FNotifications (getNotifications "y" demoStore))]).
Proof.
  split_and!.
  - apply (handshake_closes_or_sends_notifications
             demoVerifyToken 7 None demoStore demoServer).
    left. reflexivity.
  - apply (handshake_closes_or_sends_notifications
             demoVerifyToken 7 (Some "forged") demoStore demoServer).
    right. reflexivity.
  - apply (handshake_closes_or_sends_notifications
             demoVerifyToken 7 (Some "token-y") demoStore demoServer);
      reflexivity.
Defined.

(** ** Session registry (C2) *)

(** C2 (as amended).  The close handler and the error handler of a
    connection delete the registry entry of the user the connection
    authenticated as, whichever socket is stored there; entries of other
    users are untouched. *)
Theorem close_removes_registry_entry ws decoded srv :
  userConnections (onClose ws decoded srv).1 !! decoded_id decoded = None ∧
  userConnections (onError ws decoded srv).1 !! decoded_id decoded = None ∧
  (∀ other, other ≠ decoded_id decoded →
     userConnections (onClose ws decoded srv).1 !! other
       = userConnections srv !! other).
Proof.
  simpl. split_and!; [apply lookup_delete_eq..|].
  intros other Hne. by apply lookup_delete_ne.
Qed.

(** Counterexample for C2 as stated.  Xavier connects on socket 1 and
    then on socket 3, which replaces socket 1 in the registry; the close
    event of socket 1 removes the entry that holds socket 3. *)
Lemma close_of_replaced_connection_evicts_new_one :
  userConnections replacedServer !! "x" = Some 3 ∧
  userConnections (onClose 1 decodedX replacedServer).1 !! "x" = None.
Proof. split; reflexivity. Qed.

(** Witness for C2. *)
Lemma close_removes_registry_entry_witness :
  userConnections (onClose 1 decodedX replacedServer).1 !! "x" = None ∧
  userConnections (onError 1 decodedX replacedServer).1 !! "x" = None ∧
  userConnections (onClose 1 decodedX demoServer).1 !! "y"
    = userConnections demoServer !! "y".
Proof.
  destruct (close_removes_registry_entry 1 decodedX replacedServer)
    as (Hclose & Herror & _).
  destruct (close_removes_registry_entry 1 decodedX demoServer)
    as (_ & _ & Hother).
  split_and!; [exact Hclose | exact Herror | by apply Hother].
Defined.

(** ** Typing entries on disconnect (C3) *)

Lemma dropTyping_lookup userId groupTyping :
  dropTyping userId groupTyping !! userId = None.
Proof.
  unfold dropTyping. destruct (groupTyping !! userId) eqn:E; [|done].
  apply lookup_delete_eq.
Qed.

Lemma dropTyping_other userId other groupTyping :
  other ≠ userId →
  dropTyping userId groupTyping !! other = groupTyping !! other.
Proof.
  intros Hne. unfold dropTyping. destruct (groupTyping !! userId); [|done].
  by apply lookup_delete_ne.
Qed.

Lemma typingTimeoutsOf_elem userId typing groupId groupTyping entry :
  typing !! groupId = Some groupTyping →
  groupTyping !! userId = Some entry →
  typing_timeout entry ∈ typingTimeoutsOf userId typing.
Proof.
  unfold typingTimeoutsOf. revert groupId groupTyping entry.
  induction typing as [|k gt m Hk Hfold IH] using map_first_key_ind.
  - intros ???. by rewrite lookup_empty.
  - intros groupId groupTyping entry Hl He.
    rewrite map_fold_insert_first_key by done.
    destruct (decide (groupId = k)) as [->|Hne].
    + rewrite lookup_insert_eq in Hl. injection Hl as ->. rewrite He.
      apply elem_of_union. left. by apply elem_of_singleton.
    + rewrite lookup_insert_ne in Hl by done.
      specialize (IH _ _ _ Hl He).
      destruct (gt !! userId); [apply elem_of_union; by right | done].
Qed.

(** What the close handler does for typing entries: it removes the entry of
    the user from every group, clears the expiry timeout of every removed
    entry, and sends no frame. *)
Lemma onClose_drops_typing_without_broadcast ws decoded srv :
  (∀ groupId groupTyping,
     typingUsers (onClose ws decoded srv).1 !! groupId = Some groupTyping →
     groupTyping !! decoded_id decoded = None) ∧
  (∀ groupId groupTyping entry,
     typingUsers srv !! groupId = Some groupTyping →
     groupTyping !! decoded_id decoded = Some entry →
     typing_timeout entry ∉ timers (onClose ws decoded srv).1) ∧
  (onClose ws decoded srv).2 = [].
Proof.
  split_and!; [| |done].
  - intros groupId groupTyping. simpl. rewrite lookup_fmap.
    destruct (typingUsers srv !! groupId) as [gt|]; [|done]. simpl.
    intros [= <-]. apply dropTyping_lookup.
  - intros groupId groupTyping entry Hg He. simpl.
    pose proof (typingTimeoutsOf_elem _ _ _ _ _ Hg He) as Hin.
    intros [_ Hout]%elem_of_difference. by apply Hout.
Qed.

(** C3.  Xavier is typing in the demo group and Yara is connected on an
    open socket.  When Xavier's connection closes, his typing entry is
    removed and its timeout cleared, but no [typing_update] frame is sent:
    Yara is not told that he stopped.  The [typing_stop] path, at the same
    state, does send Yara the updated (empty) list. *)
Lemma close_handler_sends_no_typing_update :
  typingUsers typingServer !! "g" = Some {[ "x" := mkTypingEntry "Xavier" 0 ]} ∧
  userConnections typingServer !! "y" = Some 2 ∧
  2 ∈ openSockets typingServer ∧
  (onClose 1 decodedX typingServer).2 = [] ∧
  typingUsers (onClose 1 decodedX typingServer).1 !! "g" = Some ∅ ∧
  timers (onClose 1 decodedX typingServer).1 = ∅ ∧
  (onTypingStop decodedX "g" demoStore typingServer).2
    = [Send 2 (FTypingUpdate "g" [])].
Proof. split_and!; reflexivity. Qed.

(** ** Message creation (C1) *)

Lemma createMessage_notifications data userId authorName now st :
  notifications (createMessage data userId authorName now st).2 = notifications st.
Proof.
  unfold createMessage. simpl.
  by destruct (groups st !! im_groupId data).
Qed.

Lemma elem_of_sendIfOpen srv userId frame e :
  e ∈ sendIfOpen srv userId frame ↔
  ∃ ws, userConnections srv !! userId = Some ws ∧ ws ∈ openSockets srv ∧
        e = Send ws frame.
Proof.
  unfold sendIfOpen. destruct (userConnections srv !! userId) as [ws|].
  - case_decide as Hopen.
    + rewrite list_elem_of_singleton. split; [eauto|].
      by intros (? & [= <-] & _ & ->).
    + split; [by intros ?%elem_of_nil|]. by intros (? & [= <-] & ? & _).
  - split; [by intros ?%elem_of_nil|]. by intros (? & ? & _).
Qed.

Lemma elem_of_broadcastToGroup srv frame members e :
  e ∈ broadcastToGroup srv frame members ↔
  ∃ memberId, memberId ∈ members ∧ e ∈ sendIfOpen srv memberId frame.
Proof.
  unfold broadcastToGroup. rewrite list_elem_of_bind.
  split; intros (memberId & H1 & H2); exists memberId; by split.
Qed.

(** The pushes of the notifications [new], each to its own user. *)
Lemma elem_of_pushes srv new e :
  e ∈ new ≫= (λ n, broadcastNotification srv (notif_userId n) n) ↔
  ∃ n ws, n ∈ new ∧ userConnections srv !! notif_userId n = Some ws ∧
          ws ∈ openSockets srv ∧ e = Send ws (FNotification n).
Proof.
  rewrite list_elem_of_bind. unfold broadcastNotification. split.
  - intros (n & (ws & Hc & Ho & ->)%elem_of_sendIfOpen & Hin).
    by exists n, ws.
  - intros (n & ws & Hin & Hc & Ho & ->). exists n. split; [|done].
    apply elem_of_sendIfOpen. by exists ws.
Qed.

Lemma notifyMember_notifications jsLength jsSubstring srv user group id message now acc memberId :
  ∃ new,
    notifications
      (notifyMember jsLength jsSubstring srv user group id message now acc
         memberId).1
      = notifications acc.1 ++ new ∧
    notif_userId <$> new = without (auth_id user) [memberId] ∧
    Forall (λ n, notif_type n = NMessage ∧ notif_read n = false) new ∧
    (notifyMember jsLength jsSubstring srv user group id message now acc
       memberId).2
      = acc.2 ++ (new ≫= λ n, broadcastNotification srv (notif_userId n) n).
Proof.
  unfold notifyMember, without. rewrite filter_cons, filter_nil.
  case_decide as Hne; simpl.
  - eexists [_]. split_and!; [done|done|by constructor|].
    simpl. by rewrite app_nil_r.
  - exists []. simpl. by rewrite !app_nil_r.
Qed.

Lemma notifyMembers_notifications jsLength jsSubstring srv user group id message now l acc :
  ∃ new,
    notifications
      (foldl (notifyMember jsLength jsSubstring srv user group id message now)
         acc l).1
      = notifications acc.1 ++ new ∧
    notif_userId <$> new = without (auth_id user) l ∧
    Forall (λ n, notif_type n = NMessage ∧ notif_read n = false) new ∧
    (foldl (notifyMember jsLength jsSubstring srv user group id message now)
       acc l).2
      = acc.2 ++ (new ≫= λ n, broadcastNotification srv (notif_userId n) n).
Proof.
  revert acc. induction l as [|memberId l IH]; intros acc; simpl.
  - exists []. simpl. by rewrite !app_nil_r.
  - destruct (notifyMember_notifications jsLength jsSubstring srv user group id message now acc
                memberId) as (new1 & Hn1 & Hu1 & Ht1 & Hs1).
    destruct (IH (notifyMember jsLength jsSubstring srv user group id message
                    now acc memberId))
      as (new2 & Hn2 & Hu2 & Ht2 & Hs2).
    exists (new1 ++ new2). split_and!.
    + by rewrite Hn2, Hn1, app_assoc.
    + rewrite fmap_app, Hu1, Hu2. unfold without.
      by rewrite <- filter_app.
    + by apply Forall_app.
    + by rewrite Hs2, Hs1, bind_app, app_assoc.
Qed.

(** C1 (as amended).  When the handler of POST /api/groups/:id/messages
    answers 201, the notifications of the store grow by one unread
    Notification of type [message] for every entry of [group.members]
    other than the sender, in member order, and by nothing else: none is
    created for the sender.  What the handler sends is the
    [message_created] broadcast to the group followed by the push of each
    of these notifications to its member: a member who is connected on an
    open socket receives the notification created for that member, and no
    other notification frame is sent. *)
Theorem postGroupMessage_notifies_other_members
    (jsLength : string → nat) (jsSubstring : nat → nat → string → string)
    id user content now srv st res st' sent :
  postGroupMessage jsLength jsSubstring id user content now srv st
    = (res, st', sent) →
  status res = 201 →
  ∃ group message new,
    getGroup id st = Some group ∧
    res = Created message ∧
    notifications st' = notifications st ++ new ∧
    notif_userId <$> new = without (auth_id user) (members group) ∧
    Forall (λ n, notif_type n = NMessage ∧ notif_read n = false) new ∧
    sent = broadcastToGroup srv (FMessageCreated message) (members group)
             ++ (new ≫= λ n, broadcastNotification srv (notif_userId n) n) ∧
    (∀ n ws, n ∈ new → userConnections srv !! notif_userId n = Some ws →
             ws ∈ openSockets srv → Send ws (FNotification n) ∈ sent) ∧
    (∀ ws n, Send ws (FNotification n) ∈ sent →
             n ∈ new ∧ userConnections srv !! notif_userId n = Some ws ∧
             ws ∈ openSockets srv).
Proof.
  unfold postGroupMessage. intros Hpost Hstatus.
  destruct (getGroup id st) as [group|]; [|by injection Hpost as <- _ _].
  destruct (negb _); [by injection Hpost as <- _ _|].
  destruct (parseInsertMessage content id) as [data|];
    [|by injection Hpost as <- _ _].
  destruct (createMessage data (auth_id user) (auth_fullName user) now st)
    as [message st1] eqn:Hcreate.
  destruct (foldl _ _ _) as [st2 sent2] eqn:Hfold.
  injection Hpost as <- <- <-.
  destruct (notifyMembers_notifications jsLength jsSubstring srv user group id message now
              (members group)
              (st1, broadcastToGroup srv (FMessageCreated message) (members group)))
    as (new & Hn & Hu & Ht & Hs).
  rewrite Hfold in Hn, Hs. simpl in Hn, Hs.
  exists group, message, new. split_and!; [done|done| |done|done|done| |].
  - rewrite Hn. f_equal.
    pose proof (createMessage_notifications data (auth_id user)
                  (auth_fullName user) now st) as E.
    by rewrite Hcreate in E.
  - intros n ws Hin Hc Ho. rewrite Hs. apply elem_of_app. right.
    apply elem_of_pushes. eauto 6.
  - intros ws n. rewrite Hs. intros [Hb|Hp]%elem_of_app.
    + apply elem_of_broadcastToGroup in Hb as (memberId & _ & Hb).
      apply elem_of_sendIfOpen in Hb as (? & _ & _ & [=]).
    + apply elem_of_pushes in Hp as (n' & ws' & Hin & Hc & Ho & [= -> ->]).
      done.
Qed.

(** Counterexample for C1 as stated.  Xavier and Yara are members of the
    demo group; Yara has no notification; after Xavier's message is
    created (status 201) a Notification of type [message] exists for her. *)
Lemma message_creation_notifies_other_member :
  status
    (postGroupMessage asciiLength asciiSubstring "g" userX (Some "hello") 30
       demoServer demoStore).1.1
    = 201 ∧
  includes "y" (members demoGroup) = true ∧
  filter (λ n, notif_userId n = "y") (notifications demoStore) = [] ∧
  notif_type <$>
    filter (λ n, notif_userId n = "y")
      (notifications
         (postGroupMessage asciiLength asciiSubstring "g" userX (Some "hello")
            30 demoServer demoStore).1.2)
    = [NMessage].
Proof. split_and!; reflexivity. Qed.

(** Witness for C1, on the demo store, where Yara is connected on the
    open socket [2]. *)
Lemma postGroupMessage_notifies_other_members_witness :
  ∃ group message new,
    getGroup "g" demoStore = Some group ∧
    (postGroupMessage asciiLength asciiSubstring "g" userX (Some "hello") 30
       demoServer demoStore).1.1 = Created message ∧
    notifications
      (postGroupMessage asciiLength asciiSubstring "g" userX (Some "hello") 30
         demoServer demoStore).1.2
      = notifications demoStore ++ new ∧
    notif_userId <$> new = without "x" (members group) ∧
    Forall (λ n, notif_type n = NMessage ∧ notif_read n = false) new ∧
    (postGroupMessage asciiLength asciiSubstring "g" userX (Some "hello") 30
       demoServer demoStore).2
      = broadcastToGroup demoServer (FMessageCreated message) (members group)
          ++ (new ≫= λ n, broadcastNotification demoServer (notif_userId n) n) ∧
    (∀ n ws, n ∈ new → userConnections demoServer !! notif_userId n = Some ws →
             ws ∈ openSockets demoServer →
             Send ws (FNotification n)
               ∈ (postGroupMessage asciiLength asciiSubstring "g" userX
                    (Some "hello") 30 demoServer demoStore).2) ∧
    (∀ ws n,
       Send ws (FNotification n)
         ∈ (postGroupMessage asciiLength asciiSubstring "g" userX
              (Some "hello") 30 demoServer demoStore).2 →
       n ∈ new ∧ userConnections demoServer !! notif_userId n = Some ws ∧
       ws ∈ openSockets demoServer).
Proof.
  apply (postGroupMessage_notifies_other_members asciiLength asciiSubstring
           "g" userX (Some "hello") 30 demoServer demoStore
           (postGroupMessage asciiLength asciiSubstring "g" userX
              (Some "hello") 30 demoServer demoStore).1.1
           (postGroupMessage asciiLength asciiSubstring "g" userX
              (Some "hello") 30 demoServer demoStore).1.2
           (postGroupMessage asciiLength asciiSubstring "g" userX
              (Some "hello") 30 demoServer demoStore).2);
    reflexivity.
Defined.

(** * Further properties

    ** Group membership *)

Lemma without_push_fresh x l : x ∉ l → without x (push l x) = l.
Proof.
  intros Hx. unfold without, push. rewrite filter_app, filter_cons, filter_nil.
  rewrite decide_False by (intros H; by apply H). rewrite app_nil_r.
  induction l as [|y l IH]; [done|].
  apply not_elem_of_cons in Hx as [Hxy Hx].
  rewrite filter_cons, decide_True by done. by rewrite IH.
Qed.

Lemma joinGroup_users groupId userId st g :
  groups st !! groupId = Some g →
  users (joinGroup groupId userId st).2 =
    if includes userId (members g) then users st
    else match users st !! userId with
         | Some user =>
             if includes groupId (user_joinedGroups user) then users st
             else <[userId := user_set_joinedGroups
                                (push (user_joinedGroups user) groupId) user]>
                    (users st)
         | None => users st
         end.
Proof.
  intros Hg. unfold joinGroup. rewrite Hg.
  destruct (includes userId (members g)); [done|]. simpl.
  unfold getUser. simpl. destruct (users st !! userId) as [u|]; [|done].
  by destruct (includes groupId (user_joinedGroups u)).
Qed.

Lemma leaveGroup_users groupId userId st g :
  groups st !! groupId = Some g →
  users (leaveGroup groupId userId st).2 =
    match users st !! userId with
    | Some user =>
        <[userId := user_set_joinedGroups
                      (without groupId (user_joinedGroups user)) user]> (users st)
    | None => users st
    end.
Proof.
  intros Hg. unfold leaveGroup. rewrite Hg. simpl.
  unfold getUser. simpl. by destruct (users st !! userId).
Qed.

Lemma joinGroup_missing groupId userId st :
  groups st !! groupId = None → joinGroup groupId userId st = (None, st).
Proof. intros Hg. unfold joinGroup. by rewrite Hg. Qed.

Lemma leaveGroup_missing groupId userId st :
  groups st !! groupId = None → leaveGroup groupId userId st = (None, st).
Proof. intros Hg. unfold leaveGroup. by rewrite Hg. Qed.

Lemma storage_eq (st1 st2 : MemStorage) :
  users st1 = users st2 → groups st1 = groups st2 →
  messages st1 = messages st2 → events st1 = events st2 →
  notifications st1 = notifications st2 →
  eventRegistrations st1 = eventRegistrations st2 →
  sentReminders st1 = sentReminders st2 → uuids st1 = uuids st2 →
  st1 = st2.
Proof. destruct st1, st2. simpl. by intros -> -> -> -> -> -> -> ->. Qed.

Lemma joinGroup_frame groupId userId st :
  messages (joinGroup groupId userId st).2 = messages st ∧
  events (joinGroup groupId userId st).2 = events st ∧
  notifications (joinGroup groupId userId st).2 = notifications st ∧
  eventRegistrations (joinGroup groupId userId st).2 = eventRegistrations st ∧
  sentReminders (joinGroup groupId userId st).2 = sentReminders st ∧
  uuids (joinGroup groupId userId st).2 = uuids st.
Proof.
  unfold joinGroup. destruct (groups st !! groupId) as [g|]; [|done].
  destruct (includes userId (members g)); [done|]. simpl.
  unfold getUser. simpl. destruct (users st !! userId) as [u|]; [|done].
  by destruct (includes groupId (user_joinedGroups u)).
Qed.

Lemma leaveGroup_frame groupId userId st :
  messages (leaveGroup groupId userId st).2 = messages st ∧
  events (leaveGroup groupId userId st).2 = events st ∧
  notifications (leaveGroup groupId userId st).2 = notifications st ∧
  eventRegistrations (leaveGroup groupId userId st).2 = eventRegistrations st ∧
  sentReminders (leaveGroup groupId userId st).2 = sentReminders st ∧
  uuids (leaveGroup groupId userId st).2 = uuids st.
Proof.
  unfold leaveGroup. destruct (groups st !! groupId) as [g|]; [|done].
  simpl. unfold getUser. simpl. by destruct (users st !! userId).
Qed.

Lemma groupWellFormed_join g userId :
  groupWellFormed g → userId ∉ members g →
  groupWellFormed
    (group_set_membership (push (members g) userId)
       (<[userId := Member]> (memberRoles g)) g).
Proof.
  intros (Hnd & Hc & Hr) Hu. split_and!; simpl.
  - by apply NoDup_push.
  - done.
  - intros v Hv. apply elem_of_push.
    destruct (decide (v = userId)) as [->|Hne]; [by right|left].
    rewrite lookup_insert_ne in Hv by done. by apply Hr.
Qed.

Lemma groupWellFormed_leave g userId :
  groupWellFormed g →
  groupWellFormed
    (group_set_membership (without userId (members g))
       (delete userId (memberRoles g)) g).
Proof.
  intros (Hnd & Hc & Hr). split_and!; simpl.
  - by apply NoDup_without.
  - done.
  - intros v [r Hv]. apply lookup_delete_Some in Hv as [Hne Hv].
    apply elem_of_without. split; [done|]. apply Hr. eauto.
Qed.

Lemma runGroupOp_wellFormed op st :
  groupsWellFormed st → groupsWellFormed (runGroupOp st op).
Proof.
  intros Hw. destruct op as [gid u|gid u|gid u r]; simpl.
  - destruct (groups st !! gid) as [g|] eqn:Hg;
      [|by rewrite joinGroup_missing].
    unfold groupsWellFormed. rewrite (joinGroup_groups _ _ _ g Hg).
    destruct (includes u (members g)) eqn:Hin; [done|].
    apply includes_false in Hin.
    apply map_Forall_insert_2; [|done].
    apply groupWellFormed_join; [by eapply Hw | done].
  - destruct (groups st !! gid) as [g|] eqn:Hg;
      [|by rewrite leaveGroup_missing].
    unfold groupsWellFormed. rewrite (leaveGroup_groups _ _ _ g Hg).
    apply map_Forall_insert_2; [|done].
    apply groupWellFormed_leave. by eapply Hw.
  - unfold setMemberRole. destruct (groups st !! gid) as [g|] eqn:Hg; [|done].
    destruct (includes u (members g)) eqn:Hin; [|done]. simpl.
    apply includes_true in Hin.
    apply map_Forall_insert_2; [|done].
    destruct (Hw gid g Hg) as (Hnd & Hc & Hr).
    split_and!; [done..|]. simpl. intros v Hv.
    destruct (decide (v = u)) as [->|Hne]; [done|].
    rewrite lookup_insert_ne in Hv by done. by apply Hr.
Qed.

(** X1.  If every group of the store has a duplicate-free member array
    whose length is its memberCount and role entries for members only,
    the same holds after any sequence of joinGroup, leaveGroup and
    setMemberRole calls, and the group createGroup returns is of that
    form. *)
Theorem group_membership_stays_well_formed st :
  groupsWellFormed st →
  (∀ ops, groupsWellFormed (runGroupOps ops st)) ∧
  (∀ name userId now,
     groupWellFormed (createGroup name userId now st).1).
Proof.
  intros Hw. split.
  - intros ops. unfold runGroupOps. revert st Hw.
    induction ops as [|op ops IH]; intros st Hw; [done|].
    simpl. by apply IH, runGroupOp_wellFormed.
  - intros name userId now. unfold createGroup. simpl. unfold getUser. simpl.
    assert (groupWellFormed
      (mkGroup ("uuid-" +:+ pretty (uuids st)) name 1 [userId]
         {[userId := Creator]} (Some userId) 0 0 [] (Some now))) as H.
    { split_and!; simpl; [apply NoDup_singleton | done |].
      intros v [r Hv]. apply lookup_singleton_Some in Hv as [<- _].
      by apply list_elem_of_singleton. }
    by destruct (users st !! userId).
Qed.

(** X2.  Joining a group twice leaves the store as joining once does;
    and when the user was no member, had no role entry and did not list
    the group, and memberCount was the number of members, leaving right
    after joining gives back the store as it was. *)
Theorem joinGroup_idempotent_and_undone_by_leaveGroup st groupId userId g :
  groups st !! groupId = Some g →
  (joinGroup groupId userId (joinGroup groupId userId st).2).2
    = (joinGroup groupId userId st).2 ∧
  (userId ∉ members g →
   memberRoles g !! userId = None →
   memberCount g = Z.of_nat (length (members g)) →
   (∀ user, users st !! userId = Some user → groupId ∉ user_joinedGroups user) →
   (leaveGroup groupId userId (joinGroup groupId userId st).2).2 = st).
Proof.
  intros Hg. split.
  - unfold joinGroup at 2 3. rewrite Hg.
    destruct (includes userId (members g)) eqn:Hin; simpl.
    + unfold joinGroup. by rewrite Hg, Hin.
    + set (g' := group_set_membership _ _ g).
      set (st1 := match getUser userId _ with Some _ => _ | None => _ end).
      assert (groups st1 !! groupId = Some g') as Hg1.
      { unfold st1, getUser. simpl. destruct (users st !! userId) as [u|].
        - destruct (includes groupId (user_joinedGroups u)); simpl;
            apply lookup_insert_eq.
        - simpl. apply lookup_insert_eq. }
      unfold joinGroup. rewrite Hg1.
      assert (includes userId (members g') = true) as ->; [|done].
      apply includes_true. simpl. apply elem_of_push. by right.
  - intros Hu Hr Hc Hjg.
    assert (groups (joinGroup groupId userId st).2 !! groupId
            = Some (group_set_membership (push (members g) userId)
                      (<[userId := Member]> (memberRoles g)) g)) as Hg1.
    { rewrite (joinGroup_groups _ _ _ g Hg).
      apply includes_false in Hu. rewrite Hu. apply lookup_insert_eq. }
    pose proof (leaveGroup_groups groupId userId _ _ Hg1) as Hgroups.
    pose proof (leaveGroup_users groupId userId _ _ Hg1) as Husers.
    rewrite (joinGroup_groups _ _ _ g Hg) in Hgroups.
    rewrite (joinGroup_users _ _ _ g Hg) in Husers.
    apply includes_false in Hu as Hu'. rewrite Hu' in Hgroups, Husers.
    assert (groups (leaveGroup groupId userId (joinGroup groupId userId st).2).2
            = groups st) as Eg.
    { rewrite Hgroups. rewrite insert_insert_eq. simpl.
      rewrite without_push_fresh by done.
      rewrite delete_insert_eq, delete_id by done.
      apply insert_id. rewrite Hg. f_equal. destruct g. simpl in *. by rewrite Hc. }
    assert (users (leaveGroup groupId userId (joinGroup groupId userId st).2).2
            = users st) as Eu.
    { rewrite Husers. destruct (users st !! userId) as [user|] eqn:Hus.
      - specialize (Hjg user eq_refl). apply includes_false in Hjg as Hjg'.
        rewrite Hjg'. rewrite lookup_insert_eq, insert_insert_eq. simpl.
        rewrite without_push_fresh by done.
        apply insert_id. rewrite Hus. f_equal. by destruct user.
      - by rewrite Hus. }
    destruct (leaveGroup_frame groupId userId (joinGroup groupId userId st).2)
      as (E1 & E2 & E3 & E4 & E5 & E6).
    destruct (joinGroup_frame groupId userId st) as (F1 & F2 & F3 & F4 & F5 & F6).
    apply storage_eq; congruence.
Qed.

Lemma joinGroup_membershipAgrees groupId userId st :
  membershipAgrees st → membershipAgrees (joinGroup groupId userId st).2.
Proof.
  intros Hm. destruct (groups st !! groupId) as [g|] eqn:Hg;
    [|by rewrite joinGroup_missing].
  intros u user gid group Hu Hgr.
  rewrite (joinGroup_users _ _ _ g Hg) in Hu.
  rewrite (joinGroup_groups _ _ _ g Hg) in Hgr.
  destruct (includes userId (members g)) eqn:Hin; [by apply Hm|].
  apply includes_false in Hin.
  assert (∃ user0, users st !! u = Some user0 ∧
            (∀ x, x ∈ user_joinedGroups user ↔
                  x ∈ user_joinedGroups user0 ∨ (u = userId ∧ x = groupId)))
    as (user0 & Hu0 & Hjg).
  { destruct (users st !! userId) as [usr|] eqn:Husr.
    - destruct (includes groupId (user_joinedGroups usr)) eqn:Hj.
      + exists user. split; [done|]. intros x. split; [tauto|].
        intros [?|[-> ->]]; [done|]. apply includes_true in Hj. congruence.
      + destruct (decide (u = userId)) as [->|Hne].
        * rewrite lookup_insert_eq in Hu. injection Hu as <-.
          exists usr. split; [done|]. intros x. simpl. rewrite elem_of_push.
          tauto.
        * rewrite lookup_insert_ne in Hu by done.
          exists user. split; [done|]. intros x. tauto.
    - exists user. split; [done|]. intros x. split; [tauto|].
      intros [?|[-> _]]; [done|congruence]. }
  rewrite Hjg.
  destruct (decide (gid = groupId)) as [->|Hne].
  - rewrite lookup_insert_eq in Hgr. injection Hgr as <-. simpl.
    rewrite elem_of_push, (Hm _ _ _ _ Hu0 Hg). tauto.
  - rewrite lookup_insert_ne in Hgr by done.
    rewrite (Hm _ _ _ _ Hu0 Hgr). tauto.
Qed.

Lemma leaveGroup_membershipAgrees groupId userId st :
  membershipAgrees st → membershipAgrees (leaveGroup groupId userId st).2.
Proof.
  intros Hm. destruct (groups st !! groupId) as [g|] eqn:Hg;
    [|by rewrite leaveGroup_missing].
  intros u user gid group Hu Hgr.
  rewrite (leaveGroup_users _ _ _ g Hg) in Hu.
  rewrite (leaveGroup_groups _ _ _ g Hg) in Hgr.
  assert (∃ user0, users st !! u = Some user0 ∧
            (∀ x, x ∈ user_joinedGroups user ↔
                  x ∈ user_joinedGroups user0 ∧ ¬ (u = userId ∧ x = groupId)))
    as (user0 & Hu0 & Hjg).
  { destruct (users st !! userId) as [usr|] eqn:Husr.
    - destruct (decide (u = userId)) as [->|Hne].
      + rewrite lookup_insert_eq in Hu. injection Hu as <-.
        exists usr. split; [done|]. intros x. simpl. rewrite elem_of_without.
        tauto.
      + rewrite lookup_insert_ne in Hu by done.
        exists user. split; [done|]. intros x. tauto.
    - exists user. split; [done|]. intros x. split; [|tauto].
      intros ?. split; [done|]. intros [-> _]. congruence. }
  rewrite Hjg.
  destruct (decide (gid = groupId)) as [->|Hne].
  - rewrite lookup_insert_eq in Hgr. injection Hgr as <-. simpl.
    rewrite elem_of_without, (Hm _ _ _ _ Hu0 Hg). tauto.
  - rewrite lookup_insert_ne in Hgr by done.
    rewrite (Hm _ _ _ _ Hu0 Hgr). tauto.
Qed.

Lemma setMemberRole_membershipAgrees groupId userId role st :
  membershipAgrees st → membershipAgrees (setMemberRole groupId userId role st).2.
Proof.
  intros Hm. unfold setMemberRole.
  destruct (groups st !! groupId) as [g|] eqn:Hg; [|done].
  destruct (includes userId (members g)); [|done]. simpl.
  intros u user gid group Hu Hgr. simpl in *.
  destruct (decide (gid = groupId)) as [->|Hne].
  - rewrite lookup_insert_eq in Hgr. injection Hgr as <-. simpl. by eapply Hm.
  - rewrite lookup_insert_ne in Hgr by done. by eapply Hm.
Qed.

(** X3.  If a stored user lists a group in joinedGroups exactly when the
    stored group lists the user in members, that still holds after any
    sequence of joinGroup, leaveGroup and setMemberRole calls. *)
Theorem joinedGroups_agree_with_members st ops :
  membershipAgrees st → membershipAgrees (runGroupOps ops st).
Proof.
  unfold runGroupOps. revert st.
  induction ops as [|op ops IH]; intros st Hm; [done|].
  simpl. apply IH. destruct op; simpl.
  - by apply joinGroup_membershipAgrees.
  - by apply leaveGroup_membershipAgrees.
  - by apply setMemberRole_membershipAgrees.
Qed.

(** ** Reading messages *)

Lemma sliceIndex_within (i : Z) (len : nat) :
  (0 ≤ i ≤ Z.of_nat len)%Z → sliceIndex i len = Z.to_nat i.
Proof. intros H. unfold sliceIndex. case_decide; lia. Qed.

Lemma sliceIndex_beyond (i : Z) (len : nat) :
  (Z.of_nat len ≤ i)%Z → sliceIndex i len = len.
Proof. intros H. unfold sliceIndex. case_decide; lia. Qed.

Lemma slice_within {A} (a b : Z) (l : list A) :
  (0 ≤ a ≤ Z.of_nat (length l))%Z → (0 ≤ b ≤ Z.of_nat (length l))%Z →
  slice a b l = take (Z.to_nat b - Z.to_nat a) (drop (Z.to_nat a) l).
Proof. intros Ha Hb. unfold slice. by rewrite !sliceIndex_within. Qed.

Lemma take_drop_tile {A} (s e : nat) (l : list A) :
  s ≤ e → take (e - s) (drop s l) ++ drop e l = drop s l.
Proof.
  intros H. replace (drop e l) with (drop (e - s) (drop s l)).
  - apply take_drop.
  - rewrite drop_drop. f_equal. lia.
Qed.

Lemma getMessages_page groupId (page limit : Z) st :
  (1 ≤ page)%Z → (0 < limit)%Z →
  let total := Z.of_nat (length (groupMessages groupId st)) in
  page_messages (getMessages groupId page limit st)
  = take (Z.to_nat (total - (page - 1) * limit) - Z.to_nat (total - page * limit))
      (drop (Z.to_nat (total - page * limit)) (groupMessages groupId st)).
Proof.
  intros Hp Hl total. unfold getMessages. simpl. fold total.
  rewrite slice_within by (fold total; nia).
  f_equal; [|f_equal]; lia.
Qed.

(** X4.  For a positive limit, pages p, p-1, ..., 1 of getMessages put
    one after the other are the newest p*limit messages of the group,
    oldest first, without gap or overlap; every page from 1 on holds at
    most limit messages and reports the total of the group, hasMore
    being true exactly when older messages remain; and a page number of
    0 or less gives no messages. *)
Theorem getMessages_pages_tile groupId (limit : Z) st :
  (0 < limit)%Z →
  let allMessages := groupMessages groupId st in
  let total := Z.of_nat (length allMessages) in
  (∀ p : nat,
     newestPages groupId limit st p
     = drop (Z.to_nat (total - Z.of_nat p * limit)) allMessages) ∧
  (∀ page, (1 ≤ page)%Z →
     (Z.of_nat (length (page_messages (getMessages groupId page limit st)))
        ≤ limit)%Z ∧
     page_total (getMessages groupId page limit st) = total ∧
     (page_hasMore (getMessages groupId page limit st) = true
        ↔ (page * limit < total)%Z)) ∧
  (∀ page, (page ≤ 0)%Z →
     page_messages (getMessages groupId page limit st) = []).
Proof.
  intros Hl allMessages total. split_and!.
  - induction p as [|p IH].
    + simpl. rewrite drop_ge; [done|]. fold allMessages. lia.
    + cbn [newestPages]. rewrite IH, getMessages_page by lia.
      fold allMessages total.
      replace ((Z.of_nat (S p) - 1) * limit)%Z with (Z.of_nat p * limit)%Z by lia.
      apply take_drop_tile. nia.
  - intros page Hp. split_and!.
    + rewrite getMessages_page by done. fold allMessages total.
      rewrite length_take. nia.
    + done.
    + unfold getMessages. simpl. fold allMessages total.
      rewrite bool_decide_eq_true. nia.
  - intros page Hp. unfold getMessages, slice. simpl. fold allMessages total.
    rewrite !sliceIndex_beyond by nia.
    by rewrite Nat.sub_diag.
Qed.

Lemma StronglySorted_weaken {A} (R S : A → A → Prop) l :
  (∀ a b, R a b → S a b) → StronglySorted R l → StronglySorted S l.
Proof.
  intros HRS. induction 1 as [|x l Hl IH Hx]; constructor; [done|].
  eapply Forall_impl; [exact Hx|]. auto.
Qed.

Section StableSort.
Context {A : Type} (before : A → A → bool).
Hypothesis before_total : ∀ x y, before x y = true ∨ before y x = true.
Hypothesis before_trans :
  ∀ x y z, before x y = true → before y z = true → before x z = true.

Lemma insertSorted_Permutation x l : insertSorted before x l ≡ₚ x :: l.
Proof.
  induction l as [|y l IH]; simpl; [done|].
  destruct (before x y); [done|]. rewrite IH. apply Permutation_swap.
Qed.

Lemma stableSort_Permutation l : stableSort before l ≡ₚ l.
Proof.
  induction l as [|x l IH]; simpl; [done|].
  by rewrite insertSorted_Permutation, IH.
Qed.

Lemma insertSorted_StronglySorted x l :
  StronglySorted (λ a b, before a b = true) l →
  StronglySorted (λ a b, before a b = true) (insertSorted before x l).
Proof.
  induction 1 as [|y l Hl IH Hy]; simpl.
  - repeat constructor.
  - destruct (before x y) eqn:Hxy.
    + constructor; [by constructor|].
      constructor; [done|]. eapply Forall_impl; [exact Hy|].
      intros z Hz. by eapply before_trans.
    + constructor; [done|].
      rewrite insertSorted_Permutation. constructor; [|done].
      destruct (before_total x y); congruence.
Qed.

Lemma stableSort_StronglySorted l :
  StronglySorted (λ a b, before a b = true) (stableSort before l).
Proof.
  induction l as [|x l IH]; simpl; [constructor|].
  by apply insertSorted_StronglySorted.
Qed.

End StableSort.

Lemma olderFirst_total a b : olderFirst a b = true ∨ olderFirst b a = true.
Proof. unfold olderFirst. rewrite !bool_decide_eq_true. lia. Qed.

Lemma olderFirst_trans a b c :
  olderFirst a b = true → olderFirst b c = true → olderFirst a c = true.
Proof. unfold olderFirst. rewrite !bool_decide_eq_true. lia. Qed.

(** X5.  The messages getMessages pages over are exactly the stored
    messages of the group, ordered by createdAt, oldest first; every
    message of a page is a stored message of that group. *)
Theorem groupMessages_sorted_and_complete groupId st :
  StronglySorted (λ a b, (msg_createdAt a ≤ msg_createdAt b)%Z)
    (groupMessages groupId st) ∧
  (∀ m, m ∈ groupMessages groupId st ↔
        (∃ id, messages st !! id = Some m) ∧ msg_groupId m = groupId) ∧
  (∀ page limit m,
     m ∈ page_messages (getMessages groupId page limit st) →
     (∃ id, messages st !! id = Some m) ∧ msg_groupId m = groupId).
Proof.
  assert (∀ m, m ∈ groupMessages groupId st ↔
        (∃ id, messages st !! id = Some m) ∧ msg_groupId m = groupId) as Hin.
  { intros m. unfold groupMessages. rewrite stableSort_Permutation.
    rewrite list_elem_of_filter, list_elem_of_fmap. split.
    - intros [Hg ([id m'] & -> & Hm)]. apply elem_of_map_to_list in Hm. eauto.
    - intros [[id Hm] Hg]. split; [done|]. exists (id, m).
      split; [done|]. by apply elem_of_map_to_list. }
  split_and!; [|done|].
  - eapply StronglySorted_weaken;
      [|apply (stableSort_StronglySorted olderFirst olderFirst_total olderFirst_trans)].
    intros a b Hab. by apply bool_decide_eq_true in Hab.
  - intros page limit m Hm. apply Hin. unfold getMessages, slice in Hm.
    simpl in Hm. by apply subseteq_take, subseteq_drop in Hm.
Qed.

(** *** Notifications *)

Lemma insertNewestFirst_StronglySorted n l :
  StronglySorted (λ a b, (notif_createdAt b ≤ notif_createdAt a)%Z) l →
  StronglySorted (λ a b, (notif_createdAt b ≤ notif_createdAt a)%Z)
    (insertNewestFirst n l).
Proof.
  induction 1 as [|m l Hl IH Hm]; simpl.
  - repeat constructor.
  - case_decide as Hmn.
    + constructor; [by constructor|].
      constructor; [done|]. eapply Forall_impl; [exact Hm|].
      intros z Hz. simpl in Hz. lia.
    + constructor; [done|].
      rewrite insertNewestFirst_Permutation. constructor; [lia|done].
Qed.

Lemma sortNewestFirst_StronglySorted l :
  StronglySorted (λ a b, (notif_createdAt b ≤ notif_createdAt a)%Z)
    (sortNewestFirst l).
Proof.
  induction l as [|n l IH]; simpl; [constructor|].
  by apply insertNewestFirst_StronglySorted.
Qed.

Lemma insertNewestFirst_fmap (f : Notification → Notification) n l :
  (∀ x, notif_createdAt (f x) = notif_createdAt x) →
  insertNewestFirst (f n) (f <$> l) = f <$> insertNewestFirst n l.
Proof.
  intros Hf. induction l as [|m l IH]; [done|].
  rewrite fmap_cons. cbn [insertNewestFirst]. rewrite !Hf.
  case_decide; [by rewrite !fmap_cons|]. by rewrite fmap_cons, IH.
Qed.

Lemma sortNewestFirst_fmap (f : Notification → Notification) l :
  (∀ x, notif_createdAt (f x) = notif_createdAt x) →
  sortNewestFirst (f <$> l) = f <$> sortNewestFirst l.
Proof.
  intros Hf. induction l as [|n l IH]; [done|].
  rewrite fmap_cons.
  change (sortNewestFirst (f n :: (f <$> l)))
    with (insertNewestFirst (f n) (sortNewestFirst (f <$> l))).
  rewrite IH.
  change (sortNewestFirst (n :: l))
    with (insertNewestFirst n (sortNewestFirst l)).
  by apply insertNewestFirst_fmap.
Qed.

Lemma filter_fmap_keeps {A} (P : A → Prop) `{∀ x, Decision (P x)}
    (f : A → A) (l : list A) :
  (∀ x, P (f x) ↔ P x) → filter P (f <$> l) = f <$> filter P l.
Proof.
  intros Hf. induction l as [|x l IH]; [done|].
  rewrite fmap_cons, !filter_cons. destruct (decide (P x)) as [Hx|Hx].
  - rewrite decide_True by by apply Hf. by rewrite fmap_cons, IH.
  - rewrite decide_False by by rewrite Hf. done.
Qed.

(** X6.  getNotifications returns the notifications of a user newest
    first; a notification that createNotification makes is unread,
    belongs to the user it was made for, shows up in that user's list
    and changes no other user's list. *)
Theorem getNotifications_newest_first userId st :
  StronglySorted (λ a b, (notif_createdAt b ≤ notif_createdAt a)%Z)
    (getNotifications userId st) ∧
  (∀ insert now,
     let created := createNotification insert now st in
     notif_read created.1 = false ∧
     notif_userId created.1 = in_userId insert ∧
     created.1 ∈ getNotifications (in_userId insert) created.2 ∧
     (∀ other, other ≠ in_userId insert →
        getNotifications other created.2 = getNotifications other st)).
Proof.
  split; [apply sortNewestFirst_StronglySorted|].
  intros insert now created. unfold created, createNotification. simpl.
  split_and!; [done..| |].
  - rewrite getNotifications_Permutation. simpl. unfold push.
    rewrite filter_app, elem_of_app. right.
    rewrite filter_cons, decide_True by done. by left.
  - intros other Hne. unfold getNotifications. simpl. unfold push.
    rewrite filter_app, filter_cons, decide_False by (simpl; congruence).
    by rewrite filter_nil, app_nil_r.
Qed.

(** X7.  markAllNotificationsRead marks every notification of the user
    as read, keeps their order and content, leaves the user with no
    unread notification, and changes no other user's notifications nor
    any other part of the store. *)
Theorem markAllNotificationsRead_marks_only_the_user userId st :
  let st' := markAllNotificationsRead userId st in
  getNotifications userId st' = notif_set_read <$> getNotifications userId st ∧
  unreadNotifications userId st' = 0 ∧
  (∀ other, other ≠ userId →
     getNotifications other st' = getNotifications other st) ∧
  users st' = users st ∧ groups st' = groups st ∧ messages st' = messages st ∧
  events st' = events st.
Proof.
  intros st'.
  set (f := λ n, if decide (notif_userId n = userId) then notif_set_read n else n).
  assert (∀ x, notif_createdAt (f x) = notif_createdAt x) as Hdate.
  { intros x. unfold f. by case_decide. }
  assert (∀ u x, notif_userId (f x) = u ↔ notif_userId x = u) as Huser.
  { intros u x. unfold f. by case_decide. }
  assert (getNotifications userId st'
          = notif_set_read <$> getNotifications userId st) as Hmine.
  { unfold getNotifications, st', markAllNotificationsRead. simpl. fold f.
    rewrite filter_fmap_keeps by apply Huser.
    rewrite sortNewestFirst_fmap by done.
    apply Forall_fmap_ext, Forall_forall. intros n Hn.
    rewrite sortNewestFirst_Permutation in Hn.
    apply list_elem_of_filter in Hn as [Hn _]. unfold f. by rewrite decide_True. }
  split_and!; try done.
  - unfold unreadNotifications. rewrite Hmine. clear Hmine.
    induction (getNotifications userId st) as [|n l IH]; [done|].
    rewrite fmap_cons, filter_cons, decide_False by done. exact IH.
  - intros other Hne. unfold getNotifications, st', markAllNotificationsRead.
    simpl. fold f. rewrite filter_fmap_keeps by apply Huser.
    rewrite sortNewestFirst_fmap by done.
    rewrite <- (list_fmap_id (sortNewestFirst _)) at 2.
    apply Forall_fmap_ext, Forall_forall. intros n Hn.
    rewrite sortNewestFirst_Permutation in Hn.
    apply list_elem_of_filter in Hn as [Hn _]. unfold f.
    rewrite decide_False; [done|congruence].
Qed.

(** X8.  markNotificationRead sets the read flag of the notifications
    with the given id and of no other, keeps every notification in its
    place, and leaves the store as it is when no notification has that
    id. *)
Theorem markNotificationRead_marks_only_that_id id st :
  let st' := markNotificationRead id st in
  length (notifications st') = length (notifications st) ∧
  (∀ i n, notifications st !! i = Some n →
     notifications st' !! i
     = Some (if decide (notif_id n = id) then notif_set_read n else n)) ∧
  (∀ n, n ∈ notifications st' → notif_id n = id → notif_read n = true) ∧
  ((∀ n, n ∈ notifications st → notif_id n ≠ id) → st' = st).
Proof.
  intros st'. unfold st', markNotificationRead. simpl. split_and!.
  - by rewrite length_fmap.
  - intros i n Hi. by rewrite list_lookup_fmap, Hi.
  - intros n (m & -> & Hm)%list_elem_of_fmap. by case_decide.
  - intros Hnone. destruct st as [us gs ms es ns rs sr uu]. simpl in *.
    unfold set_notifications. simpl. f_equal.
    rewrite <- (list_fmap_id ns) at 2.
    apply Forall_fmap_ext, Forall_forall. intros n Hn.
    rewrite decide_False; [done|]. by apply Hnone.
Qed.

(** ** Event capacity *)





(** X10.  Registering a user who was not registered, for an open event
    that is not full and whose counter agrees with its registration set,
    returns the event with the counter raised by one and registers the
    user; unregistering right after returns the event as it was and
    leaves every registration set and the rest of the store as they
    were: the store is the one before the two calls when the event
    already had a registration entry, and otherwise differs from it only
    by an empty registration entry for the event. *)
Theorem registerForEvent_undone_by_unregisterFromEvent
    st eventId userId event :
  events st !! eventId = Some event →
  cancelled event = false → isFull event = false →
  userId ∉ registrationsOf eventId st →
  currentParticipants event = Z.of_nat (size (registrationsOf eventId st)) →
  let registered := registerForEvent eventId userId st in
  let undone := unregisterFromEvent eventId userId registered.2 in
  registered.1
    = Some (event_set_currentParticipants
              (currentParticipants event + 1) event) ∧
  userId ∈ registrationsOf eventId registered.2 ∧
  undone.1 = Some event ∧
  undone.2
    = set_eventRegistrations <[eventId := registrationsOf eventId st]> st ∧
  (∀ other, registrationsOf other undone.2 = registrationsOf other st) ∧
  (is_Some (eventRegistrations st !! eventId) → undone.2 = st).
Proof.
  intros He Hc Hf Hu Hsize registered undone.
  set (registrations := registrationsOf eventId st) in *.
  set (st1 := set_eventRegistrations <[eventId := registrations]> st).
  assert (match eventRegistrations st !! eventId with
          | None => set_eventRegistrations <[eventId := ∅]> st
          | Some _ => st
          end = st1) as Hst1.
  { subst st1 registrations. unfold registrationsOf.
    destruct (eventRegistrations st !! eventId) as [regs|] eqn:Hr; simpl; [|done].
    apply storage_eq; simpl; try done. by rewrite insert_id. }
  assert (registered
          = (Some (event_set_currentParticipants
                     (currentParticipants event + 1) event),
             set_events
               <[eventId := event_set_currentParticipants
                              (currentParticipants event + 1) event]>
               (set_eventRegistrations
                  <[eventId := {[userId]} ∪ registrations]> st1))) as Hreg.
  { subst registered. unfold registerForEvent. rewrite He, Hc, Hf, Hst1.
    simpl. rewrite lookup_insert_eq. simpl.
    rewrite decide_False by done.
    rewrite size_union, size_singleton
      by (intros x ->%elem_of_singleton; exact Hu).
    replace (Z.of_nat (1 + size registrations))
      with (currentParticipants event + 1)%Z by lia. done. }
  assert (undone = (Some event, st1)) as Hundone.
  { subst undone. rewrite Hreg. unfold unregisterFromEvent. simpl.
    rewrite !lookup_insert_eq.
    rewrite decide_True by (apply elem_of_union; left; by apply elem_of_singleton).
    assert (({[userId]} ∪ registrations) ∖ {[userId]} = registrations) as ->.
    { apply set_eq. intros x.
      rewrite elem_of_difference, elem_of_union, elem_of_singleton.
      split; [by intros [[?|?] ?]|].
      intros Hx. split; [by right|]. by intros ->. }
    assert (event_set_currentParticipants (Z.of_nat (size registrations))
              (event_set_currentParticipants (currentParticipants event + 1) event)
            = event) as ->.
    { rewrite <- Hsize. by destruct event. }
    f_equal. apply storage_eq; simpl; try done.
    - rewrite insert_insert_eq. by rewrite insert_id.
    - by rewrite !insert_insert_eq. }
  rewrite Hreg, Hundone. simpl. split_and!; [done| |done|done| |].
  - unfold registrationsOf. simpl. rewrite lookup_insert_eq. simpl.
    apply elem_of_union. left. by apply elem_of_singleton.
  - intros other. unfold registrationsOf at 1. simpl.
    destruct (decide (other = eventId)) as [->|Hne].
    + by rewrite lookup_insert_eq.
    + by rewrite lookup_insert_ne.
  - intros [regs Hr]. apply storage_eq; simpl; try done.
    subst registrations. unfold registrationsOf. rewrite Hr. simpl.
    by rewrite insert_id.
Qed.

(** ** The reminder sweep, pass by pass *)

Lemma sweepProgress_refl st now : sweepProgress st now st.
Proof.
  split_and!; try done. exists []. by rewrite app_nil_r.
Qed.

Lemma remindUser_progress st0 now k event type registrations st userId :
  events st0 !! k = Some event →
  inWindow type (hoursUntil (event_date event - now)) = true →
  eventRegistrations st0 !! event_id event = Some registrations →
  userId ∈ registrations →
  sweepProgress st0 now st →
  sweepProgress st0 now (remindUser event type now st userId).
Proof.
  intros Hev Hw Hregs Hin (Hu & Hg & Hm & He & Hr & Hs & new & Hn & Hnew).
  unfold remindUser. case_decide as Hkey; [by split_and!; eauto|].
  destruct (users st !! userId) as [user|] eqn:Huser; [|by split_and!; eauto].
  destruct (reminderPreference type (notificationPreferences user)) eqn:Hpref;
    [|by split_and!; eauto].
  simpl. split_and!; simpl; try done.
  - set_solver.
  - eexists (new ++ [_]). split.
    + unfold push. by rewrite Hn, app_assoc.
    + apply Forall_app. split; [done|]. constructor; [|done].
      split_and!; try done. exists k, event, type, registrations, user.
      simpl. split_and!; try done.
      * by rewrite <- Hu.
      * set_solver.
Qed.

Lemma remindUsers_progress st0 now k event type registrations l st :
  events st0 !! k = Some event →
  inWindow type (hoursUntil (event_date event - now)) = true →
  eventRegistrations st0 !! event_id event = Some registrations →
  (∀ u, u ∈ l → u ∈ registrations) →
  sweepProgress st0 now st →
  sweepProgress st0 now (foldl (remindUser event type now) st l).
Proof.
  intros Hev Hw Hregs. revert st.
  induction l as [|u l IH]; intros st Hl Hst; [done|].
  simpl. apply IH; [intros; apply Hl; by right|].
  eapply remindUser_progress; eauto. apply Hl. by left.
Qed.

Lemma sendReminderNotifications_progress st0 now k event type st :
  events st0 !! k = Some event →
  inWindow type (hoursUntil (event_date event - now)) = true →
  sweepProgress st0 now st →
  sweepProgress st0 now (sendReminderNotifications event type now st).
Proof.
  intros Hev Hw Hst. unfold sendReminderNotifications.
  assert (eventRegistrations st = eventRegistrations st0) as ->
    by by destruct Hst as (_ & _ & _ & _ & ? & _).
  destruct (eventRegistrations st0 !! event_id event) as [regs|] eqn:Hregs;
    [|done].
  eapply remindUsers_progress; eauto.
  intros u. by rewrite elem_of_elements.
Qed.

Lemma sweepEvent_progress st0 now k event st :
  events st0 !! k = Some event →
  sweepProgress st0 now st →
  sweepProgress st0 now (sweepEvent now st event).
Proof.
  intros Hev Hst. unfold sweepEvent.
  destruct (in24hWindow _) eqn:H24, (in1hWindow _) eqn:H1; [| | |done].
  - apply (sendReminderNotifications_progress st0 now k event R1h); [done..|].
    by apply (sendReminderNotifications_progress st0 now k event R24h).
  - by apply (sendReminderNotifications_progress st0 now k event R24h).
  - by apply (sendReminderNotifications_progress st0 now k event R1h).
Qed.

Lemma sweepEvents_progress st0 now l st :
  (∀ e, e ∈ l → ∃ k, events st0 !! k = Some e) →
  sweepProgress st0 now st →
  sweepProgress st0 now (foldl (sweepEvent now) st l).
Proof.
  revert st. induction l as [|e l IH]; intros st Hl Hst; [done|].
  simpl. apply IH; [intros; apply Hl; by right|].
  destruct (Hl e) as [k Hk]; [by left|].
  by eapply sweepEvent_progress.
Qed.

Lemma events_values st e :
  e ∈ (map_to_list (events st)).*2 ↔ ∃ k, events st !! k = Some e.
Proof.
  rewrite list_elem_of_fmap. split.
  - intros ([k e'] & -> & Hin). exists k. by apply elem_of_map_to_list in Hin.
  - intros [k Hk]. exists (k, e). split; [done|]. by apply elem_of_map_to_list.
Qed.

Lemma reminderSweep_progress now st :
  sweepProgress st now (reminderSweep now st).
Proof.
  unfold reminderSweep. apply sweepEvents_progress.
  - intros e. by rewrite events_values.
  - apply sweepProgress_refl.
Qed.

(** X11.  A pass of the reminder sweep changes no user, group, message,
    event or registration, forgets no reminder key, and only appends
    notifications; each appended one is an unread reminder, created at
    the time of the pass, for a registered and stored user of an event
    in the window of the reminder's type, whose preference for that type
    is on and whose key had not been recorded. *)
Theorem reminderSweep_adds_only_due_reminders now st :
  let st' := reminderSweep now st in
  users st' = users st ∧ groups st' = groups st ∧ messages st' = messages st ∧
  events st' = events st ∧ eventRegistrations st' = eventRegistrations st ∧
  sentReminders st ⊆ sentReminders st' ∧
  ∃ new, notifications st' = notifications st ++ new ∧
         Forall (dueReminder st now) new.
Proof. exact (reminderSweep_progress now st). Qed.

(** *** A second pass at the same instant *)

Lemma settled_noop st event type now userId :
  settled st event type userId → remindUser event type now st userId = st.
Proof.
  intros [Hk|[Hu|(user & Hu & Hp)]]; unfold remindUser.
  - by rewrite decide_True.
  - case_decide; [done|]. by rewrite Hu.
  - case_decide; [done|]. by rewrite Hu, Hp.
Qed.

Lemma remindUser_settled_mono st event type now userId event' type' userId' :
  settled st event' type' userId' →
  settled (remindUser event type now st userId) event' type' userId'.
Proof.
  intros Hs. unfold remindUser. case_decide; [done|].
  destruct (users st !! userId) as [user|]; [|done].
  destruct (reminderPreference type (notificationPreferences user)); [|done].
  destruct Hs as [Hk|[Hu|Hp]].
  - left. simpl. set_solver.
  - right. by left.
  - right. by right.
Qed.

Lemma remindUser_settles st event type now userId :
  settled (remindUser event type now st userId) event type userId.
Proof.
  unfold remindUser. case_decide as Hk; [by left|].
  destruct (users st !! userId) as [user|] eqn:Hu; [|right; by left].
  destruct (reminderPreference type (notificationPreferences user)) eqn:Hp.
  - left. simpl. set_solver.
  - right. right. eauto.
Qed.

Lemma remindUsers_settled_mono st event type now l event' type' userId' :
  settled st event' type' userId' →
  settled (foldl (remindUser event type now) st l) event' type' userId'.
Proof.
  revert st. induction l as [|u l IH]; intros st Hs; [done|].
  simpl. by apply IH, remindUser_settled_mono.
Qed.

Lemma remindUsers_settle st event type now l u :
  u ∈ l → settled (foldl (remindUser event type now) st l) event type u.
Proof.
  revert st. induction l as [|v l IH]; intros st Hin; [by apply elem_of_nil in Hin|].
  simpl. apply elem_of_cons in Hin as [->|Hin]; [|by apply IH].
  apply remindUsers_settled_mono, remindUser_settles.
Qed.

Lemma remindUsers_noop st event type now l :
  (∀ u, u ∈ l → settled st event type u) →
  foldl (remindUser event type now) st l = st.
Proof.
  induction l as [|u l IH]; intros Hl; [done|].
  simpl. rewrite settled_noop by (apply Hl; by left).
  apply IH. intros; apply Hl; by right.
Qed.


Lemma remindUser_registrations st event type now userId :
  eventRegistrations (remindUser event type now st userId) = eventRegistrations st.
Proof.
  unfold remindUser. case_decide; [done|].
  destruct (users st !! userId) as [user|]; [|done].
  by destruct (reminderPreference type (notificationPreferences user)).
Qed.

Lemma remindUsers_registrations st event type now l :
  eventRegistrations (foldl (remindUser event type now) st l)
  = eventRegistrations st.
Proof.
  revert st. induction l as [|u l IH]; intros st; [done|].
  simpl. by rewrite IH, remindUser_registrations.
Qed.

Lemma sendReminderNotifications_registrations st event type now :
  eventRegistrations (sendReminderNotifications event type now st)
  = eventRegistrations st.
Proof.
  unfold sendReminderNotifications.
  destruct (eventRegistrations st !! event_id event); [|done].
  apply remindUsers_registrations.
Qed.

Lemma sweepEvent_registrations now st event :
  eventRegistrations (sweepEvent now st event) = eventRegistrations st.
Proof.
  unfold sweepEvent. destruct (in24hWindow _), (in1hWindow _);
    by rewrite ?sendReminderNotifications_registrations.
Qed.

Lemma sendReminderNotifications_settled_mono st event type now event' type' u' :
  settled st event' type' u' →
  settled (sendReminderNotifications event type now st) event' type' u'.
Proof.
  intros Hs. unfold sendReminderNotifications.
  destruct (eventRegistrations st !! event_id event); [|done].
  by apply remindUsers_settled_mono.
Qed.

Lemma sweepEvent_settled_mono now st event event' type' u' :
  settled st event' type' u' → settled (sweepEvent now st event) event' type' u'.
Proof.
  intros Hs. unfold sweepEvent. destruct (in24hWindow _), (in1hWindow _);
    repeat apply sendReminderNotifications_settled_mono; done.
Qed.

Lemma sweepEvents_settled_mono now l st event' type' u' :
  settled st event' type' u' →
  settled (foldl (sweepEvent now) st l) event' type' u'.
Proof.
  revert st. induction l as [|e l IH]; intros st Hs; [done|].
  simpl. by apply IH, sweepEvent_settled_mono.
Qed.

Lemma sendReminderNotifications_settles st event type now registrations u :
  eventRegistrations st !! event_id event = Some registrations →
  u ∈ registrations →
  settled (sendReminderNotifications event type now st) event type u.
Proof.
  intros Hr Hu. unfold sendReminderNotifications. rewrite Hr.
  apply remindUsers_settle. by apply elem_of_elements.
Qed.

Lemma sweepEvent_settles st0 now st event :
  eventRegistrations st = eventRegistrations st0 →
  passSettled st0 now event (sweepEvent now st event).
Proof.
  intros Hregs type registrations u Hw Hr Hu. unfold sweepEvent.
  rewrite <- Hregs in Hr. destruct type; simpl in Hw; rewrite Hw.
  - destruct (in1hWindow _).
    + apply sendReminderNotifications_settled_mono.
      by eapply sendReminderNotifications_settles.
    + by eapply sendReminderNotifications_settles.
  - destruct (in24hWindow _).
    + eapply sendReminderNotifications_settles; [|done].
      by rewrite sendReminderNotifications_registrations.
    + by eapply sendReminderNotifications_settles.
Qed.

Lemma sweepEvents_settle st0 now l st :
  eventRegistrations st = eventRegistrations st0 →
  ∀ e, e ∈ l → passSettled st0 now e (foldl (sweepEvent now) st l).
Proof.
  revert st. induction l as [|e' l IH]; intros st Hregs e Hin;
    [by apply elem_of_nil in Hin|].
  simpl. apply elem_of_cons in Hin as [->|Hin].
  - intros type registrations u Hw Hr Hu.
    apply sweepEvents_settled_mono.
    by eapply (sweepEvent_settles st0 now st e').
  - apply IH; [|done]. by rewrite sweepEvent_registrations.
Qed.

Lemma sweepEvent_noop st0 now st event :
  eventRegistrations st = eventRegistrations st0 →
  passSettled st0 now event st →
  sweepEvent now st event = st.
Proof.
  intros Hregs Hs.
  assert (∀ type, inWindow type (hoursUntil (event_date event - now)) = true →
                  sendReminderNotifications event type now st = st) as Hsend.
  { intros type Hw. unfold sendReminderNotifications.
    destruct (eventRegistrations st !! event_id event) as [regs|] eqn:Hr; [|done].
    apply remindUsers_noop. intros u Hu%elem_of_elements.
    eapply Hs; [done| |done]. by rewrite <- Hregs. }
  unfold sweepEvent.
  destruct (in24hWindow _) eqn:H24.
  - rewrite (Hsend R24h H24). destruct (in1hWindow _) eqn:H1; [|done].
    by rewrite (Hsend R1h H1).
  - destruct (in1hWindow _) eqn:H1; [|done]. by rewrite (Hsend R1h H1).
Qed.

Lemma sweepEvents_noop st0 now l st :
  eventRegistrations st = eventRegistrations st0 →
  (∀ e, e ∈ l → passSettled st0 now e st) →
  foldl (sweepEvent now) st l = st.
Proof.
  intros Hregs. induction l as [|e l IH]; intros Hl; [done|].
  simpl. rewrite (sweepEvent_noop st0) by (done || apply Hl; by left).
  apply IH. intros; apply Hl; by right.
Qed.

(** X12.  A second pass of the reminder sweep at the same instant
    changes nothing. *)
Theorem reminderSweep_twice_at_one_instant now st :
  reminderSweep now (reminderSweep now st) = reminderSweep now st.
Proof.
  pose proof (reminderSweep_progress now st)
    as (_ & _ & _ & Hev & Hregs & _).
  unfold reminderSweep at 1. rewrite Hev.
  apply (sweepEvents_noop st); [done|].
  intros e He. unfold reminderSweep. by apply sweepEvents_settle.
Qed.

(** ** Broadcasts and the typing tracker *)

Lemma length_sendIfOpen srv userId frame :
  length (sendIfOpen srv userId frame) ≤ 1.
Proof.
  unfold sendIfOpen. destruct (userConnections srv !! userId); [|simpl; lia].
  case_decide; simpl; lia.
Qed.

(** X13.  broadcastToGroup sends the frame to exactly the open sockets
    of the listed members that are connected, at most one send per
    listed member; broadcastToAll sends it to exactly the open sockets
    of the registry; broadcastNotification sends a notification frame to
    the open socket of the user, if there is one. *)
Theorem broadcast_reaches_open_sockets_of_the_audience srv frame :
  (∀ members e,
     e ∈ broadcastToGroup srv frame members ↔
     ∃ memberId ws,
       memberId ∈ members ∧ userConnections srv !! memberId = Some ws ∧
       ws ∈ openSockets srv ∧ e = Send ws frame) ∧
  (∀ members,
     length (broadcastToGroup srv frame members) ≤ length members) ∧
  (∀ e,
     e ∈ broadcastToAll srv frame ↔
     ∃ userId ws,
       userConnections srv !! userId = Some ws ∧ ws ∈ openSockets srv ∧
       e = Send ws frame) ∧
  (∀ userId notification e,
     e ∈ broadcastNotification srv userId notification ↔
     ∃ ws, userConnections srv !! userId = Some ws ∧ ws ∈ openSockets srv ∧
           e = Send ws (FNotification notification)).
Proof.
  split_and!.
  - intros members e. unfold broadcastToGroup. rewrite list_elem_of_bind.
    split.
    + intros (m & He & Hm). apply elem_of_sendIfOpen in He as (ws & ? & ? & ?).
      eauto 10.
    + intros (m & ws & Hm & ? & ? & ?). exists m. split; [|done].
      apply elem_of_sendIfOpen. eauto.
  - intros members. unfold broadcastToGroup.
    induction members as [|m members IH]; [done|].
    rewrite bind_cons.
    rewrite length_app. simpl.
    pose proof (length_sendIfOpen srv m frame). lia.
  - intros e. unfold broadcastToAll. rewrite list_elem_of_bind. split.
    + intros ([u ws] & He & Hm). apply elem_of_map_to_list in Hm.
      case_decide; [|by apply elem_of_nil in He].
      apply list_elem_of_singleton in He. eauto 10.
    + intros (u & ws & Hu & Hopen & ->). exists (u, ws). split.
      * rewrite decide_True by done. by apply list_elem_of_singleton.
      * by apply elem_of_map_to_list.
  - intros userId notification e. apply elem_of_sendIfOpen.
Qed.

Lemma elem_of_typingList groupTyping userId userName :
  (userId, userName) ∈ typingList groupTyping ↔
  ∃ entry, groupTyping !! userId = Some entry ∧ userName = typing_userName entry.
Proof.
  unfold typingList. rewrite list_elem_of_fmap. split.
  - intros ([u e] & [= -> ->] & Hin). apply elem_of_map_to_list in Hin. eauto.
  - intros (e & He & ->). exists (userId, e). split; [done|].
    by apply elem_of_map_to_list.
Qed.

Lemma broadcastToGroup_ext srv1 srv2 frame members :
  userConnections srv1 = userConnections srv2 →
  openSockets srv1 = openSockets srv2 →
  broadcastToGroup srv1 frame members = broadcastToGroup srv2 frame members.
Proof.
  intros Hc Ho. unfold broadcastToGroup, sendIfOpen. by rewrite Hc, Ho.
Qed.

(** X14.  In an existing group, typing_start records the user with a
    fresh timeout; typing_stop right after removes the user and cancels
    that timeout, sends the remaining typing users to the connected
    members other than the sender, and leaves the other groups and the
    connection registry as they were. *)
Theorem typing_start_then_stop decoded groupId st srv group :
  getGroup groupId st = Some group →
  let userId := decoded_id decoded in
  let before := default ∅ (typingUsers srv !! groupId) in
  let started := (onTypingStart decoded groupId st srv).1 in
  let stopped := onTypingStop decoded groupId st started in
  typingUsers started !! groupId
    = Some (<[userId := mkTypingEntry (decoded_fullName decoded) (nextTimer srv)]>
              before) ∧
  nextTimer srv ∈ timers started ∧
  typingUsers stopped.1 !! groupId = Some (delete userId before) ∧
  (nextTimer srv ∉ timers stopped.1) ∧
  stopped.2
    = broadcastToGroup srv
        (FTypingUpdate groupId (typingList (delete userId before)))
        (without userId (members group)) ∧
  (∀ name, (userId, name) ∉ typingList (delete userId before)) ∧
  (∀ other, other ≠ groupId →
     typingUsers stopped.1 !! other = typingUsers srv !! other) ∧
  userConnections stopped.1 = userConnections srv.
Proof.
  intros Hg userId before started stopped.
  unfold stopped, started, onTypingStart, onTypingStop. rewrite Hg. simpl.
  rewrite !lookup_insert_eq. fold userId before. simpl.
  split_and!.
  - done.
  - apply elem_of_union. left. by apply elem_of_singleton.
  - by rewrite lookup_insert_eq, delete_insert_eq.
  - intros [_ Hn]%elem_of_difference. apply Hn. by apply elem_of_singleton.
  - rewrite delete_insert_eq. by apply broadcastToGroup_ext.
  - intros name (e & He & _)%elem_of_typingList.
    by rewrite lookup_delete_eq in He.
  - intros other Hne. by rewrite !lookup_insert_ne.
  - done.
Qed.

(** X15.  A second typing_start of the same user in the same group
    cancels the first timeout, arms a new one, touches no other timer
    and leaves the set of typing users as it was. *)
Theorem typing_start_refreshes decoded groupId st srv group :
  getGroup groupId st = Some group →
  let userId := decoded_id decoded in
  let before := default ∅ (typingUsers srv !! groupId) in
  let first := (onTypingStart decoded groupId st srv).1 in
  let second := (onTypingStart decoded groupId st first).1 in
  typingUsers second !! groupId
    = Some (<[userId := mkTypingEntry (decoded_fullName decoded)
                          (S (nextTimer srv))]> before) ∧
  (nextTimer srv ∉ timers second) ∧
  S (nextTimer srv) ∈ timers second ∧
  (∀ t, t ≠ nextTimer srv → t ≠ S (nextTimer srv) →
     t ∈ timers second ↔ t ∈ timers first) ∧
  (∀ u name,
     (u, name) ∈ typingList (default ∅ (typingUsers second !! groupId)) ↔
     (u, name) ∈ typingList (default ∅ (typingUsers first !! groupId))).
Proof.
  intros Hg userId before first second.
  unfold second, first, onTypingStart. rewrite Hg. simpl.
  rewrite !lookup_insert_eq. simpl. rewrite !lookup_insert_eq. simpl.
  fold userId before. split_and!.
  - by rewrite insert_insert_eq.
  - intros [Hn|[_ Hn]%elem_of_difference]%elem_of_union.
    + apply elem_of_singleton in Hn. lia.
    + apply Hn. by apply elem_of_singleton.
  - apply elem_of_union. left. by apply elem_of_singleton.
  - intros t Ht1 Ht2.
    rewrite !elem_of_union, elem_of_difference, !elem_of_singleton,
      elem_of_union, elem_of_singleton. tauto.
  - intros u name. rewrite insert_insert_eq, !elem_of_typingList.
    destruct (decide (u = userId)) as [->|Hne].
    + rewrite !lookup_insert_eq. split; intros (e & [= <-] & ->); eauto.
    + by rewrite !lookup_insert_ne.
Qed.

Lemma runGroupOps_getGroup ops st groupId group :
  getGroup groupId st = Some group →
  ∃ live, getGroup groupId (runGroupOps ops st) = Some live.
Proof.
  unfold runGroupOps, getGroup. revert st group.
  induction ops as [|op ops IH]; intros st group Hg; simpl; [eauto|].
  assert (∃ g, groups (runGroupOp st op) !! groupId = Some g) as [g Hg'].
  { destruct op as [gid uid|gid uid|gid uid role]; simpl.
    - unfold joinGroup. destruct (groups st !! gid) as [g0|] eqn:E; [|eauto].
      destruct (includes uid (members g0)); [eauto|]. simpl.
      assert (∃ g, <[gid := group_set_membership (push (members g0) uid)
                              (<[uid := Member]> (memberRoles g0)) g0]>
                     (groups st) !! groupId = Some g) as [g Hin].
      { destruct (decide (gid = groupId)) as [->|Hne].
        - rewrite lookup_insert_eq. eauto.
        - rewrite lookup_insert_ne by done. eauto. }
      unfold getUser. simpl. destruct (users st !! uid) as [u|]; [|eauto].
      destruct (includes gid (user_joinedGroups u)); eauto.
    - unfold leaveGroup. destruct (groups st !! gid) as [g0|] eqn:E; [|eauto].
      simpl.
      assert (∃ g, <[gid := group_set_membership (without uid (members g0))
                              (delete uid (memberRoles g0)) g0]>
                     (groups st) !! groupId = Some g) as [g Hin].
      { destruct (decide (gid = groupId)) as [->|Hne].
        - rewrite lookup_insert_eq. eauto.
        - rewrite lookup_insert_ne by done. eauto. }
      unfold getUser. simpl. destruct (users st !! uid) as [u|]; eauto.
    - unfold setMemberRole. destruct (groups st !! gid) as [g0|] eqn:E; [|eauto].
      destruct (includes uid (members g0)); [|eauto]. simpl.
      destruct (decide (gid = groupId)) as [->|Hne].
      + rewrite lookup_insert_eq. eauto.
      + rewrite lookup_insert_ne by done. eauto. }
  by eapply IH.
Qed.

(** X16.  typing_start in an existing group arms a timeout for the
    user's entry. When that timeout fires, after any joinGroup,
    leaveGroup and setMemberRole calls in between and in any tracker
    state in which the group still holds that entry, the tracker ends up
    as after a typing_stop at that moment, and the update goes to the
    connected members the group has at that moment, the user who was
    typing included if still a member, whereas typing_stop leaves that
    user out. *)
Theorem typing_expiry_is_a_stop_that_also_reaches_the_sender
    decoded groupId st srv group :
  getGroup groupId st = Some group →
  let userId := decoded_id decoded in
  let timeout := nextTimer srv in
  let armed := mkTypingEntry (decoded_fullName decoded) timeout in
  let started := (onTypingStart decoded groupId st srv).1 in
  (∃ groupTyping,
     typingUsers started !! groupId = Some groupTyping ∧
     groupTyping !! userId = Some armed ∧ timeout ∈ timers started) ∧
  ∀ ops srv' groupTyping,
    typingUsers srv' !! groupId = Some groupTyping →
    groupTyping !! userId = Some armed →
    let st' := runGroupOps ops st in
    let remaining := delete userId groupTyping in
    let frame := FTypingUpdate groupId (typingList remaining) in
    ∃ live,
      getGroup groupId st' = Some live ∧
      let expired := onTypingTimeout decoded groupId live timeout srv' in
      let stopped := onTypingStop decoded groupId st' srv' in
      expired.1 = stopped.1 ∧
      typingUsers expired.1 !! groupId = Some remaining ∧
      (timeout ∉ timers expired.1) ∧
      expired.2 = broadcastToGroup srv' frame (members live) ∧
      stopped.2 = broadcastToGroup srv' frame (without userId (members live)) ∧
      (∀ ws, userId ∈ members live → userConnections srv' !! userId = Some ws →
             ws ∈ openSockets srv' → Send ws frame ∈ expired.2).
Proof.
  intros Hg userId timeout armed started. split.
  - subst started. unfold onTypingStart. rewrite Hg. simpl.
    eexists. rewrite !lookup_insert_eq. split_and!; [done|done|].
    apply elem_of_union. left. by apply elem_of_singleton.
  - intros ops srv' groupTyping Ht He st' remaining frame.
    destruct (runGroupOps_getGroup ops st groupId group Hg) as [live Hlive].
    exists live. split; [done|]. fold st' in Hlive.
    unfold onTypingTimeout, onTypingStop. rewrite Hlive, Ht. fold userId.
    rewrite He. simpl. fold remaining. fold frame.
    assert (∀ members,
      broadcastToGroup
        (mkServer (userConnections srv') (<[groupId := remaining]> (typingUsers srv'))
           (openSockets srv') (timers srv' ∖ {[timeout]}) (nextTimer srv'))
        frame members = broadcastToGroup srv' frame members) as Hext
      by (intros; by apply broadcastToGroup_ext).
    rewrite !Hext.
    split_and!; [done|apply lookup_insert_eq| |done|done|].
    + intros [_ Hn]%elem_of_difference. apply Hn. by apply elem_of_singleton.
    + intros ws Hin Hc Ho. apply elem_of_broadcastToGroup.
      exists userId. split; [done|]. apply elem_of_sendIfOpen. by exists ws.
Qed.

(** ** The message and membership routes *)

Ltac route_cases :=
  repeat match goal with
  | |- context [match ?x with _ => _ end] =>
      match type of x with
      | option _ => destruct x eqn:?
      | bool => destruct x eqn:?
      | sumbool _ _ => destruct x
      | prod _ _ => destruct x eqn:?
      | Outcome _ => destruct x
      end
  end.

Lemma addReaction_Throws id emoji userId st st' :
  addReaction id emoji userId st = (Throws, st') → st' = st.
Proof.
  unfold addReaction. destruct (messages st !! id) as [m|]; [|by intros [=]].
  destruct (toggleReaction emoji userId (reactions m)); by intros [=].
Qed.

(** X17.  A request to edit, delete, like, react to, pin or unpin a
    message, or to change a member's role, that is not answered with
    status 200 leaves the store unchanged and broadcasts nothing. A
    member's reaction with an emoji that names a property the reactions
    object inherits, on a message without an own entry of that name, is
    such a request: it is answered with 500. *)
Theorem refused_requests_change_nothing trim id memberId user content emoji role
    now srv st :
  (replyStatus (editMessageRoute trim id user content now srv st).1.1 ≠ 200 →
   (editMessageRoute trim id user content now srv st).1.2 = st ∧
   (editMessageRoute trim id user content now srv st).2 = []) ∧
  (replyStatus (deleteMessageRoute id user srv st).1.1 ≠ 200 →
   (deleteMessageRoute id user srv st).1.2 = st ∧
   (deleteMessageRoute id user srv st).2 = []) ∧
  (replyStatus (likeMessageRoute id user srv st).1.1 ≠ 200 →
   (likeMessageRoute id user srv st).1.2 = st ∧
   (likeMessageRoute id user srv st).2 = []) ∧
  (replyStatus (reactMessageRoute id user emoji srv st).1.1 ≠ 200 →
   (reactMessageRoute id user emoji srv st).1.2 = st ∧
   (reactMessageRoute id user emoji srv st).2 = []) ∧
  (replyStatus (pinMessageRoute id user srv st).1.1 ≠ 200 →
   (pinMessageRoute id user srv st).1.2 = st ∧
   (pinMessageRoute id user srv st).2 = []) ∧
  (replyStatus (unpinMessageRoute id user srv st).1.1 ≠ 200 →
   (unpinMessageRoute id user srv st).1.2 = st ∧
   (unpinMessageRoute id user srv st).2 = []) ∧
  (replyStatus (setMemberRoleRoute id memberId user role srv st).1.1 ≠ 200 →
   (setMemberRoleRoute id memberId user role srv st).1.2 = st ∧
   (setMemberRoleRoute id memberId user role srv st).2 = []) ∧
  (∀ e m g,
     emoji = Some e → e ∈ objectPrototypeKeys →
     getMessage id st = Some m → reactions m !! e = None →
     getGroup (msg_groupId m) st = Some g → auth_id user ∈ members g →
     replyStatus (reactMessageRoute id user emoji srv st).1.1 = 500).
Proof.
  split_and!; [..|
    intros e m g -> He Hm Hr Hg Hin; unfold reactMessageRoute;
    rewrite Hm, Hg; apply includes_true in Hin; rewrite Hin; simpl;
    unfold addReaction; unfold getMessage in Hm; rewrite Hm;
    unfold toggleReaction, inheritedKey;
    rewrite bool_decide_eq_true_2 by done;
    apply includes_true in He; rewrite He; simpl;
    case_decide as Hempty; [|done];
    rewrite Hempty in He; discriminate He].
  - unfold editMessageRoute. route_cases; simpl; done.
  - unfold deleteMessageRoute. route_cases; simpl; done.
  - unfold likeMessageRoute. route_cases; simpl; done.
  - unfold reactMessageRoute. route_cases; simpl; try done.
    intros _. split; [|done]. by eapply addReaction_Throws.
  - unfold pinMessageRoute. route_cases; simpl; done.
  - unfold unpinMessageRoute. route_cases; simpl; done.
  - unfold setMemberRoleRoute. route_cases; simpl; done.
Qed.

Lemma isGroupAdmin_moderator r : isGroupAdmin r = true → isGroupModerator r = true.
Proof.
  unfold isGroupAdmin, isGroupModerator. rewrite !bool_decide_eq_true. tauto.
Qed.

(** X18.  For a non-blank content: whoever may pin a message may edit
    it, and whoever may edit it may delete it; unpinning is answered
    with the same status as pinning. *)
Theorem moderation_rights_are_nested trim id user content now srv st :
  (∃ c, content = Some c ∧ c ≠ "" ∧ String.length (trim c) ≠ 0) →
  (replyStatus (pinMessageRoute id user srv st).1.1 = 200 →
   replyStatus (editMessageRoute trim id user content now srv st).1.1 = 200) ∧
  (replyStatus (editMessageRoute trim id user content now srv st).1.1 = 200 →
   replyStatus (deleteMessageRoute id user srv st).1.1 = 200) ∧
  replyStatus (unpinMessageRoute id user srv st).1.1
    = replyStatus (pinMessageRoute id user srv st).1.1.
Proof.
  intros (c & -> & Hc & Htrim).
  unfold pinMessageRoute, unpinMessageRoute, editMessageRoute, deleteMessageRoute.
  rewrite decide_False by tauto.
  destruct (getMessage id st) as [m|] eqn:Hm; [|done].
  destruct (getGroup (msg_groupId m) st) as [g|] eqn:Hg; [|done].
  destruct (isGroupAdmin (getMemberRole (msg_groupId m) (auth_id user) st)) eqn:Ha.
  - rewrite (isGroupAdmin_moderator _ Ha). simpl. rewrite !andb_false_r. simpl.
    destruct (pinMessage id st), (unpinMessage id st), (editMessage id (trim c) now st).
    done.
  - simpl. destruct (isPlatformAdmin user) eqn:Hp; simpl.
    + rewrite !andb_false_r.
      destruct (pinMessage id st), (unpinMessage id st),
        (editMessage id (trim c) now st). done.
    + rewrite !andb_true_r. split_and!; [done| |done].
      destruct (bool_decide (msg_authorId m = auth_id user)); simpl; [|done].
      destruct (editMessage id (trim c) now st). done.
Qed.

(** X19.  On a message of someone else: a group moderator who is no
    platform admin may delete it but neither edit, pin nor unpin it; a
    platform admin who is no member of the group may delete and pin it
    but neither like nor react to it. *)
Theorem moderator_and_outside_admin trim id user now srv st m g :
  getMessage id st = Some m →
  getGroup (msg_groupId m) st = Some g →
  msg_authorId m ≠ auth_id user →
  (getMemberRole (msg_groupId m) (auth_id user) st = Some Moderator →
   auth_role user = Student →
   replyStatus (deleteMessageRoute id user srv st).1.1 = 200 ∧
   replyStatus (editMessageRoute trim id user (Some "x") now srv st).1.1
     ∈ [400; 403] ∧
   replyStatus (pinMessageRoute id user srv st).1.1 = 403 ∧
   replyStatus (unpinMessageRoute id user srv st).1.1 = 403) ∧
  (auth_role user = PlatformAdmin →
   auth_id user ∉ members g →
   replyStatus (deleteMessageRoute id user srv st).1.1 = 200 ∧
   replyStatus (pinMessageRoute id user srv st).1.1 = 200 ∧
   replyStatus (likeMessageRoute id user srv st).1.1 = 403 ∧
   replyStatus (reactMessageRoute id user (Some "+1") srv st).1.1 = 403).
Proof.
  intros Hm Hg Hauthor. split.
  - intros Hrole Hstudent.
    unfold deleteMessageRoute, editMessageRoute, pinMessageRoute,
      unpinMessageRoute, isPlatformAdmin, isGroupAdmin, isGroupModerator.
    rewrite Hm, Hg, Hrole, Hstudent.
    rewrite (bool_decide_eq_false_2 (msg_authorId m = auth_id user)) by done.
    split_and!; [done| |done..].
    case_decide; simpl; [by left|]. right. by left.
  - intros Hadmin Hout.
    unfold deleteMessageRoute, pinMessageRoute, likeMessageRoute,
      reactMessageRoute, isPlatformAdmin.
    rewrite Hm, Hg, Hadmin.
    apply includes_false in Hout. rewrite Hout.
    rewrite (bool_decide_eq_true_2 (PlatformAdmin = PlatformAdmin)) by done.
    rewrite !andb_false_r. simpl.
    destruct (pinMessage id st). done.
Qed.

(** *** The pin invariant under the message routes *)

Lemma replace_message_keeps_pins st id m m' :
  messages st !! id = Some m →
  msg_groupId m' = msg_groupId m → isPinned m' = isPinned m →
  pinsAgree st → pinsNoDup st →
  pinsAgree (set_messages <[id := m']> st) ∧
  pinsNoDup (set_messages <[id := m']> st).
Proof.
  intros Hm Hgid Hpin Ha Hn. split; [|done].
  intros i x g Hx Hg. simpl in *.
  destruct (decide (i = id)) as [->|Hne].
  - rewrite lookup_insert_eq in Hx. injection Hx as <-.
    rewrite Hgid in Hg. rewrite Hpin. by eapply Ha.
  - rewrite lookup_insert_ne in Hx by done. by eapply Ha.
Qed.

Lemma editMessage_keeps id content now st :
  pinsAgree st → pinsNoDup st →
  pinsAgree (editMessage id content now st).2 ∧
  pinsNoDup (editMessage id content now st).2.
Proof.
  intros Ha Hn. unfold editMessage.
  destruct (messages st !! id) as [m|] eqn:Hm; [|done].
  by eapply replace_message_keeps_pins.
Qed.

Lemma likeMessage_keeps id userId st :
  pinsAgree st → pinsNoDup st →
  pinsAgree (likeMessage id userId st).2 ∧ pinsNoDup (likeMessage id userId st).2.
Proof.
  intros Ha Hn. unfold likeMessage.
  destruct (messages st !! id) as [m|] eqn:Hm; [|done].
  eapply replace_message_keeps_pins; [done| | |done..];
    unfold toggleLike; by destruct (indexOf userId (likedBy m)).
Qed.

Lemma addReaction_keeps id emoji userId st :
  pinsAgree st → pinsNoDup st →
  pinsAgree (addReaction id emoji userId st).2 ∧
  pinsNoDup (addReaction id emoji userId st).2.
Proof.
  intros Ha Hn. unfold addReaction.
  destruct (messages st !! id) as [m|] eqn:Hm; [|done].
  destruct (toggleReaction emoji userId (reactions m)); [|done].
  by eapply replace_message_keeps_pins.
Qed.

Ltac route_state :=
  route_cases; simpl; auto;
  try match goal with
      | E : _ = (_, ?s) |- _ => right; try eexists; by rewrite E
      end.

Lemma editMessageRoute_state trim id user content now srv st :
  (editMessageRoute trim id user content now srv st).1.2 = st ∨
  ∃ c, (editMessageRoute trim id user content now srv st).1.2
       = (editMessage id c now st).2.
Proof.
  unfold editMessageRoute. route_state.
Qed.

Lemma deleteMessageRoute_state id user srv st :
  (deleteMessageRoute id user srv st).1.2 = st ∨
  (deleteMessageRoute id user srv st).1.2 = (deleteMessage id st).2.
Proof. unfold deleteMessageRoute. route_cases; simpl; auto. Qed.

Lemma likeMessageRoute_state id user srv st :
  (likeMessageRoute id user srv st).1.2 = st ∨
  (likeMessageRoute id user srv st).1.2 = (likeMessage id (auth_id user) st).2.
Proof.
  unfold likeMessageRoute. route_state.
Qed.

Lemma reactMessageRoute_state id user emoji srv st :
  (reactMessageRoute id user emoji srv st).1.2 = st ∨
  ∃ e, (reactMessageRoute id user emoji srv st).1.2
       = (addReaction id e (auth_id user) st).2.
Proof.
  unfold reactMessageRoute. route_state.
Qed.

Lemma pinMessageRoute_state id user srv st :
  (pinMessageRoute id user srv st).1.2 = st ∨
  (pinMessageRoute id user srv st).1.2 = (pinMessage id st).2.
Proof.
  unfold pinMessageRoute. route_state.
Qed.

Lemma unpinMessageRoute_state id user srv st :
  (unpinMessageRoute id user srv st).1.2 = st ∨
  (unpinMessageRoute id user srv st).1.2 = (unpinMessage id st).2.
Proof.
  unfold unpinMessageRoute. route_state.
Qed.

(** X20.  The edit, delete, like, react, pin and unpin routes keep the
    isPinned flag of every message in agreement with the pinned list of
    its group, and the pinned lists free of duplicates, whatever they
    answer. *)
Theorem message_routes_keep_pins trim id user content emoji now srv st :
  pinsAgree st → pinsNoDup st →
  let pins st' := pinsAgree st' ∧ pinsNoDup st' in
  pins (editMessageRoute trim id user content now srv st).1.2 ∧
  pins (deleteMessageRoute id user srv st).1.2 ∧
  pins (likeMessageRoute id user srv st).1.2 ∧
  pins (reactMessageRoute id user emoji srv st).1.2 ∧
  pins (pinMessageRoute id user srv st).1.2 ∧
  pins (unpinMessageRoute id user srv st).1.2.
Proof.
  intros Ha Hn pins. unfold pins.
  destruct (editMessageRoute_state trim id user content now srv st)
    as [->|[c ->]],
    (deleteMessageRoute_state id user srv st) as [->| ->],
    (likeMessageRoute_state id user srv st) as [->| ->],
    (reactMessageRoute_state id user emoji srv st) as [->|[e ->]],
    (pinMessageRoute_state id user srv st) as [->| ->],
    (unpinMessageRoute_state id user srv st) as [->| ->];
    repeat apply conj;
    solve [ done
          | by apply editMessage_keeps | by apply deleteMessage_keeps
          | by apply likeMessage_keeps | by apply addReaction_keeps
          | by apply pinMessage_keeps | by apply unpinMessage_keeps ].
Qed.

(** *** Membership routes *)

Lemma elem_of_pushToGroup srv frame members ws f :
  (ws, f) ∈ pushToGroup srv frame members ↔
  f = frame ∧
  ∃ memberId, memberId ∈ members ∧ userConnections srv !! memberId = Some ws ∧
              ws ∈ openSockets srv.
Proof.
  unfold pushToGroup. rewrite list_elem_of_fmap. split.
  - intros (ws' & [= -> ->] & Hin). split; [done|].
    apply list_elem_of_bind in Hin as (m & Hws & Hm). exists m.
    unfold socketIfOpen in Hws.
    destruct (userConnections srv !! m) as [w|]; [|by apply elem_of_nil in Hws].
    case_decide; [|by apply elem_of_nil in Hws].
    by apply list_elem_of_singleton in Hws as ->.
  - intros (-> & m & Hm & Hc & Ho). exists ws. split; [done|].
    apply list_elem_of_bind. exists m. split; [|done].
    unfold socketIfOpen. rewrite Hc, decide_True by done.
    by apply list_elem_of_singleton.
Qed.

(** X21.  For an existing group and a stored user, the leave and join
    routes answer 200 and change the store as leaveGroup and joinGroup
    do; member_left goes to the remaining members only, never to the one
    who left, and member_joined goes to the members including the one
    who joined, who receives it when connected. *)
Theorem membership_routes_and_their_audience id user srv st g stored :
  getGroup id st = Some g →
  users st !! auth_id user = Some stored →
  let userId := auth_id user in
  let left := leaveGroupRoute id user srv st in
  let joined := joinGroupRoute id user srv st in
  (replyStatus left.1.1 = 200 ∧
   left.1.2 = (leaveGroup id userId st).2 ∧
   left.2 = pushToGroup srv (FMemberLeft id userId) (without userId (members g)) ∧
   ∀ ws f, (ws, f) ∈ left.2 →
     ∃ memberId, memberId ≠ userId ∧ memberId ∈ members g ∧
                 userConnections srv !! memberId = Some ws) ∧
  (replyStatus joined.1.1 = 200 ∧
   joined.1.2 = (joinGroup id userId st).2 ∧
   ∃ updatedUser,
     users joined.1.2 !! userId = Some updatedUser ∧
     joined.2
       = pushToGroup srv (FMemberJoined id updatedUser)
           (if includes userId (members g) then members g
            else push (members g) userId) ∧
     ∀ ws, userConnections srv !! userId = Some ws → ws ∈ openSockets srv →
           (ws, FMemberJoined id updatedUser) ∈ joined.2).
Proof.
  intros Hg Hu userId left joined. subst userId. unfold getGroup in Hg. split.
  - subst left. unfold leaveGroupRoute, leaveGroup. rewrite Hg. simpl.
    unfold getUser. simpl. rewrite Hu. simpl.
    rewrite lookup_insert_eq. simpl. split_and!; [done..|].
    intros ws f (-> & m & [Hne Hm]%elem_of_without & Hc & _)%elem_of_pushToGroup.
    eauto.
  - subst joined. unfold joinGroupRoute, joinGroup. rewrite Hg.
    destruct (includes (auth_id user) (members g)) eqn:Hin.
    + unfold getUser. rewrite Hu. simpl. split_and!; [done..|].
      exists stored. split_and!; [done..|].
      intros ws Hc Ho. apply elem_of_pushToGroup. split; [done|].
      exists (auth_id user). by apply includes_true in Hin.
    + simpl. unfold getUser. simpl. rewrite Hu.
      destruct (includes id (user_joinedGroups stored)) eqn:Hj; simpl.
      * rewrite Hu. simpl. split_and!; [done..|].
        exists stored. split_and!; [done..|].
        intros ws Hc Ho. apply elem_of_pushToGroup. split; [done|].
        exists (auth_id user). split_and!; [|done..]. apply elem_of_push. by right.
      * rewrite lookup_insert_eq. simpl. split_and!; [done..|].
        eexists. split_and!; [apply lookup_insert_eq|done|].
        intros ws Hc Ho. apply elem_of_pushToGroup. split; [done|].
        exists (auth_id user). split_and!; [|done..]. apply elem_of_push. by right.
Qed.

(** *** The role route *)

(** X22.  A role change for an existing group is accepted exactly when
    the requester has the creator role in the group or is a platform
    admin; an accepted change is broadcast to the members in any case,
    sets the role of the target and of nobody else when the target is a
    member, and leaves the store unchanged when the target is not. *)
Theorem role_route_is_for_the_creator id memberId user role srv st g :
  getGroup id st = Some g →
  let r := setMemberRoleRoute id memberId user (Some role) srv st in
  (replyStatus r.1.1 = 200 ↔
     memberRoles g !! auth_id user = Some Creator ∨
     auth_role user = PlatformAdmin) ∧
  (replyStatus r.1.1 = 200 →
     r.2 = pushToGroup srv (FMemberRoleChanged id memberId role) (members g) ∧
     ((memberId ∉ members g) → r.1.2 = st) ∧
     (memberId ∈ members g →
        getMemberRole id memberId r.1.2 = Some (role_of role) ∧
        ∀ other, other ≠ memberId →
                 getMemberRole id other r.1.2 = getMemberRole id other st)).
Proof.
  intros Hg r. subst r. unfold setMemberRoleRoute. rewrite Hg.
  unfold getGroup in Hg.
  assert (getMemberRole id (auth_id user) st = memberRoles g !! auth_id user)
    as -> by (unfold getMemberRole; by rewrite Hg).
  unfold isPlatformAdmin.
  destruct (bool_decide_reflect (memberRoles g !! auth_id user = Some Creator))
    as [Hc|Hc];
    destruct (bool_decide_reflect (auth_role user = PlatformAdmin)) as [Ha|Ha];
    simpl.
  4: { split; [|done]. split; [done|]. by intros [?|?]. }
  all: unfold setMemberRole; rewrite Hg.
  all: destruct (includes memberId (members g)) eqn:Hin; simpl.
  all: first [apply includes_true in Hin | apply includes_false in Hin].
  all: (split; [split; auto|]); intros _.
  all: split_and!; try done.
  all: intros _; unfold getMemberRole; simpl.
  all: rewrite lookup_insert_eq, Hg; simpl.
  all: split; [by rewrite lookup_insert_eq|].
  all: by intros other Hne; rewrite lookup_insert_ne.
Qed.

(** *** The registration route *)

Lemma confirmationsFor_createNotification n now st eventId userId :
  confirmationsFor eventId userId (createNotification n now st).2
  = confirmationsFor eventId userId st
    ++ (if decide (in_type n = NEvent ∧ in_userId n = userId ∧
                   in_eventId n = Some eventId)
        then [(createNotification n now st).1] else []).
Proof.
  unfold confirmationsFor, createNotification, push. simpl.
  rewrite filter_app. f_equal.
Qed.

(** X23.  A registration request of a stored user for an open event that
    is not full is answered with 200; with the eventRegistration
    preference on it adds one confirmation for that user and event, with
    the preference off it adds no notification and sends none; and when
    the user was already registered it changes neither the event nor the
    registrations. *)
Theorem every_accepted_registration_is_confirmed
    (toLocaleDateString : Z → string) id user now srv st event stored :
  events st !! id = Some event →
  cancelled event = false →
  isFull event = false →
  users st !! auth_id user = Some stored →
  let userId := auth_id user in
  let r := registerRoute toLocaleDateString id user now srv st in
  replyStatus r.1.1.1 = 200 ∧
  (eventRegistration (notificationPreferences stored) = true →
     length (confirmationsFor (event_id event) userId r.1.1.2)
     = S (length (confirmationsFor (event_id event) userId st))) ∧
  (eventRegistration (notificationPreferences stored) = false →
     notifications r.1.1.2 = notifications st ∧ r.1.2 = []) ∧
  (userId ∈ registrationsOf id st →
     events r.1.1.2 = events st ∧
     eventRegistrations r.1.1.2 = eventRegistrations st).
Proof.
  intros He Hc Hf Hu userId r. subst userId r.
  unfold registerRoute, registerForEvent. rewrite He, Hc, Hf.
  destruct (eventRegistrations st !! id) as [regs|] eqn:Hr; simpl.
  - rewrite Hr. simpl.
    destruct (decide (auth_id user ∈ regs)) as [Hin|Hin]; simpl.
    + unfold getUser. rewrite Hu.
      destruct (eventRegistration (notificationPreferences stored)) eqn:Hp;
        simpl.
      * split_and!; [done| |done|done]. intros _.
        match goal with
        | |- context [confirmationsFor ?e ?u (set_notifications ?f ?s)] =>
            change (set_notifications f s) with
              (createNotification
                 (mkInsertNotification (auth_id user) "Registration Confirmed"
                    ("You've successfully registered for " +:+ event_title event
                       +:+ " on " +:+ toLocaleDateString (event_date event))
                    NEvent (Some ("/events/" +:+ event_id event))
                    (Some (event_id event)) None) now st).2
        end.
        rewrite confirmationsFor_createNotification. simpl.
        rewrite decide_True by done. rewrite length_app. simpl. lia.
      * split_and!; done.
    + unfold getUser. simpl. rewrite Hu.
      assert (auth_id user ∉ registrationsOf id st) as Hnot.
      { unfold registrationsOf. by rewrite Hr. }
      destruct (eventRegistration (notificationPreferences stored)) eqn:Hp;
        simpl.
      * split_and!; [done| |done|done]. intros _.
        unfold confirmationsFor, push. simpl.
        rewrite filter_app, filter_cons, filter_nil. simpl.
        rewrite decide_True by done. rewrite length_app. simpl. lia.
      * split_and!; done.
  - rewrite lookup_insert_eq. simpl.
    rewrite decide_False by set_solver. simpl.
    unfold getUser. simpl. rewrite Hu.
    assert (auth_id user ∉ registrationsOf id st) as Hnot.
    { unfold registrationsOf. rewrite Hr. simpl. set_solver. }
    destruct (eventRegistration (notificationPreferences stored)) eqn:Hp;
      simpl.
    + split_and!; [done| |done|done]. intros _.
      unfold confirmationsFor, push. simpl.
      rewrite filter_app, filter_cons, filter_nil. simpl.
      rewrite decide_True by done. rewrite length_app. simpl. lia.
    + split_and!; done.
Qed.

(** *** The message counter of a group *)

Lemma length_filter_snd (groupId : string) (l : list (string * Message)) :
  length (filter (λ msg, msg_groupId msg = groupId) l.*2)
  = length (filter (λ entry : string * Message, msg_groupId entry.2 = groupId) l).
Proof.
  induction l as [|[k m] l IH]; [done|].
  rewrite fmap_cons, !filter_cons. simpl.
  case_decide; simpl; by rewrite IH.
Qed.

Lemma length_groupMessages groupId st :
  length (groupMessages groupId st) = size (storedIn groupId st).
Proof.
  unfold groupMessages, storedIn.
  rewrite (Permutation_length (stableSort_Permutation _ _)).
  rewrite length_filter_snd, <-length_map_to_list, map_filter_alt.
  apply Permutation_length. symmetry. apply map_to_list_to_map.
  eapply NoDup_fmap_fst.
  - intros k x y [_ Hx]%list_elem_of_filter [_ Hy]%list_elem_of_filter.
    apply elem_of_map_to_list in Hx, Hy. congruence.
  - apply NoDup_filter, NoDup_map_to_list.
Qed.

Lemma total_getMessages groupId page limit st :
  page_total (getMessages groupId page limit st)
  = Z.of_nat (size (storedIn groupId st)).
Proof. unfold getMessages. simpl. by rewrite length_groupMessages. Qed.

Lemma countsAgree_alt st :
  countsAgree st ↔
  ∀ groupId g, groups st !! groupId = Some g →
               messagesCount g = Z.of_nat (size (storedIn groupId st)).
Proof.
  unfold countsAgree. by setoid_rewrite total_getMessages.
Qed.

Lemma storedIn_replace st id m m' groupId :
  messages st !! id = Some m →
  msg_groupId m' = msg_groupId m →
  size (storedIn groupId (set_messages <[id := m']> st))
  = size (storedIn groupId st).
Proof.
  intros Hm Hgid. unfold storedIn. simpl.
  rewrite map_filter_insert. simpl. case_decide as Hp.
  - apply map_size_insert_Some. exists m.
    apply map_lookup_filter_Some. split; [done|]. simpl. congruence.
  - rewrite map_filter_delete_not; [done|].
    intros y Hy. simpl. congruence.
Qed.

Lemma replace_message_keeps_counts st id m m' :
  messages st !! id = Some m →
  msg_groupId m' = msg_groupId m →
  countsAgree st → uuidsUnused st →
  countsAgree (set_messages <[id := m']> st) ∧
  uuidsUnused (set_messages <[id := m']> st).
Proof.
  intros Hm Hgid Hc Hu. split.
  - apply countsAgree_alt. intros groupId g Hg.
    rewrite (storedIn_replace _ _ m) by done.
    by apply countsAgree_alt.
  - intros n Hn. simpl in *.
    rewrite lookup_insert_ne; [by apply Hu|].
    intros ->. specialize (Hu n Hn). congruence.
Qed.

Lemma groups_pins_keep_counts st (gs : gmap string Group) groupId g ps :
  groups st !! groupId = Some g →
  countsAgree st → uuidsUnused st →
  countsAgree (set_groups <[groupId := group_set_pinnedMessages ps g]> st) ∧
  uuidsUnused (set_groups <[groupId := group_set_pinnedMessages ps g]> st).
Proof.
  intros Hg Hc Hu. split; [|done].
  apply countsAgree_alt. intros gid g' Hg'. simpl in Hg'.
  change (storedIn gid (set_groups _ st)) with (storedIn gid st).
  destruct (decide (gid = groupId)) as [->|Hne].
  - rewrite lookup_insert_eq in Hg'. injection Hg' as <-. simpl.
    by apply countsAgree_alt.
  - rewrite lookup_insert_ne in Hg' by done. by apply countsAgree_alt.
Qed.

Lemma uuid_inj (a b : N) : "uuid-" +:+ pretty a = "uuid-" +:+ pretty b → a = b.
Proof. intros [= H]. by apply (inj pretty). Qed.

Lemma runMessageOp_keeps st op :
  countsAgree st → uuidsUnused st →
  countsAgree (runMessageOp st op) ∧ uuidsUnused (runMessageOp st op).
Proof.
  intros Hc Hu. pose proof (proj1 (countsAgree_alt st) Hc) as Hc0.
  destruct op as [data userId authorName now|id content now|id
    |id userId|id emoji userId|id|id]; simpl.
  - (* createMessage *)
    unfold createMessage, randomUUID. simpl.
    set (new := mkMessage _ _ _ _ _ _ _ _ _ _ _).
    assert (messages st !! ("uuid-" +:+ pretty (uuids st)) = None) as Hfresh
      by (apply Hu; lia).
    assert (∀ gid,
      size (filter (λ entry : string * Message, msg_groupId entry.2 = gid)
              (<["uuid-" +:+ pretty (uuids st) := new]> (messages st)))
      = (if decide (im_groupId data = gid) then S else id)
          (size (storedIn gid st))) as Hsize.
    { intros gid. rewrite map_filter_insert. simpl. case_decide.
      - apply map_size_insert_None, map_lookup_filter_None. by left.
      - by rewrite delete_id. }
    assert (∀ n, (N.succ (uuids st) ≤ n)%N →
      <["uuid-" +:+ pretty (uuids st) := new]> (messages st)
        !! ("uuid-" +:+ pretty n) = None) as Hunused.
    { intros n Hn. rewrite lookup_insert_ne; [apply Hu; lia|].
      intros Heq%uuid_inj. lia. }
    destruct (groups st !! im_groupId data) as [g|] eqn:Hg; simpl.
    + split; [|done]. apply countsAgree_alt. intros gid g' Hg'. simpl in *.
      unfold storedIn. simpl. rewrite Hsize.
      destruct (decide (gid = im_groupId data)) as [->|Hne].
      * rewrite lookup_insert_eq in Hg'. injection Hg' as <-. simpl.
        rewrite decide_True by done.
        rewrite (Hc0 _ _ Hg).
        unfold or_num. case_decide; lia.
      * rewrite lookup_insert_ne in Hg' by done.
        rewrite decide_False by done. by apply Hc0.
    + split; [|done]. apply countsAgree_alt. intros gid g' Hg'. simpl in *.
      unfold storedIn. simpl. rewrite Hsize.
      rewrite decide_False by congruence. by apply countsAgree_alt.
  - unfold editMessage. destruct (messages st !! id) as [m|] eqn:Hm; [|done].
    by eapply replace_message_keeps_counts.
  - (* deleteMessage *)
    unfold deleteMessage. destruct (messages st !! id) as [m|] eqn:Hm; [|done].
    simpl.
    assert (∀ gid,
      size (filter (λ entry : string * Message, msg_groupId entry.2 = gid)
              (delete id (messages st)))
      = (if decide (msg_groupId m = gid) then pred else Datatypes.id)
          (size (storedIn gid st))) as Hsize.
    { intros gid. rewrite map_filter_delete. case_decide.
      - apply map_size_delete_Some. exists m.
        by apply map_lookup_filter_Some.
      - apply map_size_delete_None, map_lookup_filter_None. right.
        intros y Hy. simpl. congruence. }
    assert (0 < size (storedIn (msg_groupId m) st)) as Hpos.
    { assert (storedIn (msg_groupId m) st !! id = Some m) as Hin
        by by apply map_lookup_filter_Some.
      destruct (decide (storedIn (msg_groupId m) st = ∅)) as [He|He].
      - by rewrite He in Hin.
      - apply map_size_non_empty_iff in He. lia. }
    assert (∀ n, (uuids st ≤ n)%N →
      delete id (messages st) !! ("uuid-" +:+ pretty n) = None) as Hunused.
    { intros n Hn. apply lookup_delete_None. right. by apply Hu. }
    destruct (groups st !! msg_groupId m) as [g|] eqn:Hg; simpl.
    + split; [|done]. apply countsAgree_alt. intros gid g' Hg'. simpl in *.
      unfold storedIn. simpl. rewrite Hsize.
      destruct (decide (gid = msg_groupId m)) as [->|Hne].
      * rewrite lookup_insert_eq in Hg'. injection Hg' as <-. simpl.
        rewrite decide_True by done.
        rewrite (Hc0 _ _ Hg).
        unfold or_num. case_decide; lia.
      * rewrite lookup_insert_ne in Hg' by done.
        rewrite decide_False by done. by apply Hc0.
    + split; [|done]. apply countsAgree_alt. intros gid g' Hg'. simpl in *.
      unfold storedIn. simpl. rewrite Hsize.
      rewrite decide_False by congruence. by apply countsAgree_alt.
  - unfold likeMessage. destruct (messages st !! id) as [m|] eqn:Hm; [|done].
    eapply replace_message_keeps_counts; [done| |done..].
    unfold toggleLike. by destruct (indexOf userId (likedBy m)).
  - unfold addReaction. destruct (messages st !! id) as [m|] eqn:Hm; [|done].
    destruct (toggleReaction emoji userId (reactions m)); [|done].
    by eapply replace_message_keeps_counts.
  - unfold pinMessage. destruct (messages st !! id) as [m|] eqn:Hm; [|done].
    destruct (replace_message_keeps_counts st id m (msg_set_isPinned true m))
      as [Hc' Hu']; [done..|].
    simpl.
    destruct (groups st !! msg_groupId m) as [g|] eqn:Hg; [|done].
    destruct (includes id (pinnedMessages g)); [done|].
    by apply (groups_pins_keep_counts _ (groups st)).
  - unfold unpinMessage. destruct (messages st !! id) as [m|] eqn:Hm; [|done].
    destruct (replace_message_keeps_counts st id m (msg_set_isPinned false m))
      as [Hc' Hu']; [done..|].
    simpl.
    destruct (groups st !! msg_groupId m) as [g|] eqn:Hg; [|done].
    by apply (groups_pins_keep_counts _ (groups st)).
Qed.

(** X24.  If messagesCount of every group is the number of its stored
    messages and no identifier still to be drawn names a message, then
    after any sequence of createMessage, editMessage, deleteMessage,
    likeMessage, addReaction, pinMessage and unpinMessage calls
    messagesCount is still that number, is not negative, and is the
    total getMessages reports. *)
Theorem messagesCount_counts_the_stored_messages st ops :
  countsAgree st → uuidsUnused st →
  countsAgree (runMessageOps ops st) ∧ uuidsUnused (runMessageOps ops st) ∧
  ∀ groupId g page limit,
    groups (runMessageOps ops st) !! groupId = Some g →
    (0 ≤ messagesCount g)%Z ∧
    page_total (getMessages groupId page limit (runMessageOps ops st))
    = messagesCount g.
Proof.
  intros Hc Hu.
  assert (countsAgree (runMessageOps ops st) ∧
          uuidsUnused (runMessageOps ops st)) as [Hc' Hu'].
  { unfold runMessageOps. revert st Hc Hu.
    induction ops as [|op ops IH]; intros st Hc Hu; [done|].
    simpl. destruct (runMessageOp_keeps st op Hc Hu). by apply IH. }
  split_and!; [done..|].
  intros groupId g page limit Hg.
  rewrite total_getMessages.
  rewrite (proj1 (countsAgree_alt _) Hc' _ _ Hg). lia.
Qed.

(** ** The properties on the demo store *)

Lemma demoStore_groupsWellFormed : groupsWellFormed demoStore.
Proof.
  unfold groupsWellFormed. simpl. apply map_Forall_singleton.
  split_and!; [|reflexivity|].
  - simpl. apply NoDup_cons. split; [|apply NoDup_singleton].
    by intros ?%list_elem_of_singleton.
  - intros userId [r Hr]. simpl in *.
    apply lookup_insert_Some in Hr as [[<- _]|[_ Hr]]; [apply list_elem_of_here|].
    apply lookup_singleton_Some in Hr as [<- _].
    apply list_elem_of_further, list_elem_of_here.
Qed.

Lemma demoStore_membershipAgrees : membershipAgrees demoStore.
Proof.
  intros userId user groupId group Hu Hg. simpl in Hu, Hg.
  apply lookup_singleton_Some in Hg as [<- <-].
  assert (user_joinedGroups user = ["g"] ∧ (userId = "x" ∨ userId = "y"))
    as [-> Hid].
  { apply lookup_insert_Some in Hu as [[<- <-]|[_ Hu]]; [auto|].
    apply lookup_singleton_Some in Hu as [<- <-]. auto. }
  simpl. split; intros _.
  - destruct Hid as [-> | ->];
      [apply list_elem_of_here|apply list_elem_of_further, list_elem_of_here].
  - apply list_elem_of_here.
Qed.


Lemma demoStore_uuidsUnused : uuidsUnused demoStore.
Proof.
  intros n _. simpl.
  rewrite lookup_insert_ne by done. by rewrite lookup_singleton_ne.
Qed.

Lemma demoStore_countsAgree : countsAgree demoStore.
Proof.
  intros groupId g Hg. simpl in Hg.
  apply lookup_singleton_Some in Hg as [<- <-]. reflexivity.
Qed.

Lemma group_membership_stays_well_formed_witness :
  groupsWellFormed demoStore ∧
  groupsWellFormed (runGroupOps [OpJoin "g" "z"; OpLeave "g" "x"] demoStore).
Proof.
  split; [exact demoStore_groupsWellFormed|].
  apply (group_membership_stays_well_formed demoStore
           demoStore_groupsWellFormed).
Defined.

Lemma joinGroup_idempotent_and_undone_by_leaveGroup_witness :
  groups demoStore !! "g" = Some demoGroup ∧
  (leaveGroup "g" "z" (joinGroup "g" "z" demoStore).2).2 = demoStore.
Proof.
  split; [reflexivity|].
  apply (joinGroup_idempotent_and_undone_by_leaveGroup demoStore "g" "z"
           demoGroup eq_refl).
  - simpl. intros [?|?%list_elem_of_singleton]%elem_of_cons; discriminate.
  - reflexivity.
  - reflexivity.
  - intros user Hu. discriminate Hu.
Defined.

Lemma joinedGroups_agree_with_members_witness :
  membershipAgrees demoStore ∧
  membershipAgrees (runGroupOps [OpLeave "g" "x"; OpJoin "g" "x"] demoStore).
Proof.
  split; [exact demoStore_membershipAgrees|].
  apply (joinedGroups_agree_with_members demoStore _ demoStore_membershipAgrees).
Defined.

Lemma getMessages_pages_tile_witness :
  (0 < 1)%Z ∧
  ∀ p : nat,
    newestPages "g" 1 demoStore p
    = drop (Z.to_nat (Z.of_nat (length (groupMessages "g" demoStore))
                      - Z.of_nat p * 1))
        (groupMessages "g" demoStore).
Proof.
  split; [lia|].
  apply (getMessages_pages_tile "g" 1 demoStore). lia.
Defined.


Lemma registerForEvent_undone_by_unregisterFromEvent_witness :
  events demoStore !! "e3" = Some zeroCapEvent ∧
  eventRegistrations demoStore !! "e3" = None ∧
  (unregisterFromEvent "e3" "x" (registerForEvent "e3" "x" demoStore).2).1
    = Some zeroCapEvent ∧
  (unregisterFromEvent "e3" "x" (registerForEvent "e3" "x" demoStore).2).2
    = set_eventRegistrations <[ "e3" := ∅ ]> demoStore.
Proof.
  split_and!; [reflexivity..| |];
    apply (registerForEvent_undone_by_unregisterFromEvent demoStore "e3" "x"
             zeroCapEvent); try reflexivity;
    intros ?%elem_of_empty; contradiction.
Defined.

Lemma typing_start_then_stop_witness :
  getGroup "g" demoStore = Some demoGroup ∧
  typingUsers (onTypingStop decodedX "g" demoStore typingServer).1 !! "g"
    = Some (delete "x" (default ∅ (typingUsers demoServer !! "g"))).
Proof.
  split; [reflexivity|].
  apply (typing_start_then_stop decodedX "g" demoStore demoServer demoGroup
           eq_refl).
Defined.

Lemma typing_start_refreshes_witness :
  getGroup "g" demoStore = Some demoGroup ∧
  (nextTimer demoServer
     ∉ timers (onTypingStart decodedX "g" demoStore typingServer).1).
Proof.
  split; [reflexivity|].
  apply (typing_start_refreshes decodedX "g" demoStore demoServer demoGroup
           eq_refl).
Defined.

Lemma typing_expiry_is_a_stop_that_also_reaches_the_sender_witness :
  getGroup "g" demoStore = Some demoGroup ∧
  ∃ live,
    getGroup "g" (runGroupOps [OpLeave "g" "y"; OpJoin "g" "z"] demoStore)
      = Some live ∧
    (onTypingTimeout decodedX "g" live (nextTimer demoServer) typingServer).2
      = broadcastToGroup typingServer
          (FTypingUpdate "g" (typingList (delete "x" {[ "x" := mkTypingEntry "Xavier" 0 ]})))
          (members live).
Proof.
  split; [reflexivity|].
  destruct (typing_expiry_is_a_stop_that_also_reaches_the_sender decodedX "g"
              demoStore demoServer demoGroup eq_refl) as [_ Hfire].
  destruct (Hfire [OpLeave "g" "y"; OpJoin "g" "z"] typingServer
              {[ "x" := mkTypingEntry "Xavier" 0 ]})
    as (live & Hlive & _ & _ & _ & Hsent & _); [reflexivity..|].
  exists live. split; [exact Hlive|exact Hsent].
Defined.

Lemma moderation_rights_are_nested_witness :
  replyStatus (unpinMessageRoute "m2" userX demoServer demoStore).1.1
    = replyStatus (pinMessageRoute "m2" userX demoServer demoStore).1.1.
Proof.
  apply (moderation_rights_are_nested demoTrim "m2" userX (Some "hi") 0
           demoServer demoStore).
  exists "hi". split_and!; [reflexivity|discriminate|discriminate].
Defined.

Lemma moderator_and_outside_admin_witness :
  replyStatus (deleteMessageRoute "m2" adminZ demoServer demoStore).1.1 = 200 ∧
  replyStatus (pinMessageRoute "m2" adminZ demoServer demoStore).1.1 = 200 ∧
  replyStatus (likeMessageRoute "m2" adminZ demoServer demoStore).1.1 = 403 ∧
  replyStatus
    (reactMessageRoute "m2" adminZ (Some "+1") demoServer demoStore).1.1 = 403.
Proof.
  apply (moderator_and_outside_admin demoTrim "m2" adminZ 0 demoServer
           demoStore demoMessage2 demoGroup eq_refl eq_refl).
  - discriminate.
  - reflexivity.
  - simpl. intros [?|?%list_elem_of_singleton]%elem_of_cons; discriminate.
Defined.

Lemma message_routes_keep_pins_witness :
  pinsAgree (pinMessageRoute "m2" userX demoServer demoStore).1.2 ∧
  pinsNoDup (pinMessageRoute "m2" userX demoServer demoStore).1.2.
Proof.
  apply (message_routes_keep_pins demoTrim "m2" userX (Some "hi") (Some "+1") 0
           demoServer demoStore demoStore_pinsAgree demoStore_pinsNoDup).
Defined.

Lemma membership_routes_and_their_audience_witness :
  getGroup "g" demoStore = Some demoGroup ∧
  (leaveGroupRoute "g" userX demoServer demoStore).2
    = pushToGroup demoServer (FMemberLeft "g" "x") (without "x" (members demoGroup)).
Proof.
  split; [reflexivity|].
  apply (membership_routes_and_their_audience "g" userX demoServer demoStore
           demoGroup (demoUser "x" "Xavier") eq_refl eq_refl).
Defined.

Lemma role_route_is_for_the_creator_witness :
  getGroup "g" demoStore = Some demoGroup ∧
  (replyStatus
     (setMemberRoleRoute "g" "y" userX (Some AsModerator) demoServer demoStore).1.1
   = 200 ↔
   memberRoles demoGroup !! "x" = Some Creator ∨ auth_role userX = PlatformAdmin).
Proof.
  split; [reflexivity|].
  apply (role_route_is_for_the_creator "g" "y" userX AsModerator demoServer
           demoStore demoGroup eq_refl).
Defined.

Lemma every_accepted_registration_is_confirmed_witness :
  events demoStore !! "e1" = Some demoEvent ∧
  replyStatus
    (registerRoute demoDateString "e1" userX 0 demoServer demoStore).1.1.1 = 200.
Proof.
  split; [reflexivity|].
  apply (every_accepted_registration_is_confirmed demoDateString "e1" userX 0
           demoServer demoStore demoEvent (demoUser "x" "Xavier")
           eq_refl eq_refl eq_refl eq_refl).
Defined.

Lemma messagesCount_counts_the_stored_messages_witness :
  countsAgree demoStore ∧ uuidsUnused demoStore ∧
  countsAgree
    (runMessageOps
       [MsgCreate (mkInsertMessage "g" "hello") "x" "Xavier" 30; MsgDelete "m1"]
       demoStore).
Proof.
  split_and!; [exact demoStore_countsAgree|exact demoStore_uuidsUnused|].
  apply (messagesCount_counts_the_stored_messages demoStore _
           demoStore_countsAgree demoStore_uuidsUnused).
Defined.
